(** * next-pwa-turbo: precache manifest, runtime-caching rules and the
      sanitisation layer, embedded from the TypeScript sources.

    - [JsString]: JavaScript strings as sequences of UTF-16 code units and
      the built-in string operations the sources call.
    - [JsValue]: JavaScript values, with references back to an enclosing
      object for cyclic structures.
    - [PathGuard], [RuleSanitizer], [Escaper]: [utils/security.ts].
    - [CacheStrategies]: [worker/cache-strategies.ts].
    - [Node]: what the sources use of [crypto], [path] and [Set].
    - [ManifestGenerator]: [adapter/manifest-generator.ts].
    - [Json]: [JSON.stringify] and [JSON.parse], which
      [escapeForServiceWorker] calls and its round trip is stated with.
    - [CompileSW]: [validateManifest] and [resolveSwDest] of
      [build/compile-sw.ts]. *)

From Stdlib Require Import ZArith NArith List Bool Ascii String Lia.
From Stdlib Require DecimalFacts DecimalN.
From stdpp Require Import base decidable countable list gmap.
Import ListNotations.

Set Default Proof Using "Type".

(* ===================================================================== *)
(** ** JavaScript strings *)
(* ===================================================================== *)

Module JsString.

(** A JavaScript string is a finite sequence of UTF-16 code units. *)
Definition char16 : Type := N.
Definition jsstring : Type := list char16.

(** ASCII literals of the sources are written [js "..."]; the notation
    stands for the list of their code units. *)
Definition of_string (s : string) : jsstring :=
  List.map N_of_ascii (list_ascii_of_string s).

Notation "'js' s" :=
  (ltac:(let v := eval vm_compute in (of_string s) in exact v))
  (at level 10, s at level 0, only parsing).

Definition c_NUL : char16 := 0%N.
Definition c_dot : char16 := 46%N.
Definition c_slash : char16 := 47%N.
Definition c_backslash : char16 := 92%N.

(** [===] on strings. *)
Fixpoint str_eqb (a b : jsstring) : bool :=
  match a, b with
  | [], [] => true
  | c :: a', d :: b' => (c =? d)%N && str_eqb a' b'
  | _, _ => false
  end.

Lemma str_eqb_spec (a b : jsstring) : reflect (a = b) (str_eqb a b).
Proof.
  revert b. induction a as [|c a IH]; intros [|d b]; cbn [str_eqb];
    try (constructor; congruence).
  destruct (N.eqb_spec c d) as [->|Hcd]; cbn [andb].
  - destruct (IH b) as [->|Hab]; constructor; congruence.
  - constructor; congruence.
Qed.

Lemma str_eqb_refl (a : jsstring) : str_eqb a a = true.
Proof. now destruct (str_eqb_spec a a). Qed.

(** [String.prototype.startsWith]. *)
Fixpoint startsWith (s p : jsstring) {struct p} : bool :=
  match p, s with
  | [], _ => true
  | _ :: _, [] => false
  | c :: p', d :: s' => (c =? d)%N && startsWith s' p'
  end.

(** [String.prototype.endsWith]. *)
Definition endsWith (s p : jsstring) : bool :=
  startsWith (rev s) (rev p).

(** [String.prototype.includes]: [p] occurs in [s] at some position. *)
Fixpoint includes (s p : jsstring) : bool :=
  startsWith s p ||
  match s with
  | [] => false
  | _ :: s' => includes s' p
  end.

(** White space and line terminators, the characters [trim] strips. *)
Definition is_ws (c : char16) : bool :=
  ((9 <=? c) && (c <=? 13) || (c =? 32) || (c =? 160) || (c =? 5760)
   || (8192 <=? c) && (c <=? 8202) || (c =? 8232) || (c =? 8233)
   || (c =? 8239) || (c =? 8287) || (c =? 12288) || (c =? 65279))%N.

Fixpoint trimStart (s : jsstring) : jsstring :=
  match s with
  | c :: s' => if is_ws c then trimStart s' else s
  | [] => []
  end.

Definition trimEnd (s : jsstring) : jsstring := rev (trimStart (rev s)).

(** [String.prototype.trim]. *)
Definition trim (s : jsstring) : jsstring := trimEnd (trimStart s).

(** Line terminators: the code units the regular-expression atom [.]
    refuses (no [s] flag in the sources). *)
Definition is_line_terminator (c : char16) : bool :=
  ((c =? 10) || (c =? 13) || (c =? 8232) || (c =? 8233))%N.

Definition is_digit (c : char16) : bool := ((48 <=? c) && (c <=? 57))%N.
Definition is_lower (c : char16) : bool := ((97 <=? c) && (c <=? 122))%N.
Definition is_upper (c : char16) : bool := ((65 <=? c) && (c <=? 90))%N.

(** ASCII case folding, enough for the [i] flag on the ASCII patterns of
    the sources. *)
Definition to_lower (c : char16) : char16 :=
  if is_upper c then (c + 32)%N else c.

End JsString.

Import JsString.

(* ===================================================================== *)
(** ** PathGuard: [sanitizePath] and [hasPathTraversal] *)
(* ===================================================================== *)

Module PathGuard.

(** [.replace(/\\/g, '/')] *)
Definition backslashes_to_slashes (s : jsstring) : jsstring :=
  List.map (fun c => if (c =? c_backslash)%N then c_slash else c) s.

(** [.replace(/\0/g, '')] *)
Definition strip_nul (s : jsstring) : jsstring :=
  List.filter (fun c => negb (c =? c_NUL)%N) s.

(** [.replace(/\.\.(?:\/|$)/g, '')]: scanning from the left, a [..] that
    is followed by [/] is removed together with that [/]; a [..] that ends
    the string is removed; the scan resumes after each match. *)
Fixpoint strip_dotdot_segments (s : jsstring) : jsstring :=
  match s with
  | [] => []
  | c :: s1 =>
      if (c =? c_dot)%N then
        match s1 with
        | d :: s2 =>
            if (d =? c_dot)%N then
              match s2 with
              | [] => []
              | e :: s3 =>
                  if (e =? c_slash)%N then strip_dotdot_segments s3
                  else c :: strip_dotdot_segments s1
              end
            else c :: strip_dotdot_segments s1
        | [] => [c]
        end
      else c :: strip_dotdot_segments s1
  end.

(** The longest run of [/] at the head of the string is dropped:
    [.replace(/^\/+/, '')]. *)
Fixpoint strip_leading_slashes (s : jsstring) : jsstring :=
  match s with
  | c :: s' => if (c =? c_slash)%N then strip_leading_slashes s' else s
  | [] => []
  end.

(** [.replace(/\.\/+/g, '')]: a [.] followed by at least one [/] is removed
    with the whole run of slashes.  [in_match] says that the scan is inside
    the run of slashes of a match. *)
Fixpoint strip_dot_slashes_from (in_match : bool) (s : jsstring) : jsstring :=
  match s with
  | [] => []
  | c :: s1 =>
      if in_match && (c =? c_slash)%N then strip_dot_slashes_from true s1
      else if (c =? c_dot)%N && startsWith s1 [c_slash]
           then strip_dot_slashes_from true s1
           else c :: strip_dot_slashes_from false s1
  end.

Definition strip_dot_slashes (s : jsstring) : jsstring :=
  strip_dot_slashes_from false s.

(** [.replace(/\/+/g, '/')]: every run of slashes becomes one slash. *)
Fixpoint collapse_slashes (s : jsstring) : jsstring :=
  match s with
  | [] => []
  | c :: s1 =>
      if (c =? c_slash)%N && startsWith s1 [c_slash]
      then collapse_slashes s1
      else c :: collapse_slashes s1
  end.

(** [.replace(/\/+$/, '')] *)
Definition strip_trailing_slashes (s : jsstring) : jsstring :=
  rev (strip_leading_slashes (rev s)).

(** [.replace(/\.\./g, '')]: every [..] met by the left-to-right scan is
    removed. *)
Fixpoint strip_dotdot (s : jsstring) : jsstring :=
  match s with
  | [] => []
  | c :: s1 =>
      if (c =? c_dot)%N then
        match s1 with
        | d :: s2 =>
            if (d =? c_dot)%N then strip_dotdot s2
            else c :: strip_dotdot s1
        | [] => [c]
        end
      else c :: strip_dotdot s1
  end.

Definition dotdot : jsstring := [c_dot; c_dot].

(** [while (sanitized.includes('..')) sanitized = sanitized.replace(...)].
    Each turn removes at least two code units, so [length s] turns are
    enough; [strip_dotdot_loop_exits] below shows that the loop has left
    by its test and not by the bound. *)
Fixpoint strip_dotdot_loop (fuel : nat) (s : jsstring) : jsstring :=
  match fuel with
  | O => s
  | S fuel' =>
      if includes s dotdot then strip_dotdot_loop fuel' (strip_dotdot s)
      else s
  end.

(** [sanitizePath] on a string argument. *)
Definition sanitizePath (path : jsstring) : jsstring :=
  let sanitized :=
    strip_leading_slashes
      (collapse_slashes
         (strip_dot_slashes
            (strip_dotdot_segments
               (strip_nul (backslashes_to_slashes (trim path)))))) in
  let sanitized := strip_dotdot_loop (length sanitized) sanitized in
  strip_trailing_slashes (strip_leading_slashes (collapse_slashes sanitized)).

(** [hasPathTraversal]: the six patterns, the percent-encoded ones
    case-insensitively. *)
Definition includes_ci (s p : jsstring) : bool :=
  includes (List.map to_lower s) (List.map to_lower p).

Definition hasPathTraversal (input : jsstring) : bool :=
  includes input (js "..")
  || includes input (js "..\")
  || includes_ci input (js "%2e%2e")
  || includes_ci input (js "%252e%252e")
  || includes_ci input (js ".%2e")
  || includes_ci input (js "%2e.").

(** *** Facts on the scanning passes *)

(** [has_pair a b s]: the code unit [a] is immediately followed by [b]
    somewhere in [s]; the two-unit case of [includes]. *)
Fixpoint has_pair (a b : char16) (s : jsstring) : bool :=
  match s with
  | c :: s1 => ((c =? a)%N && startsWith s1 [b]) || has_pair a b s1
  | [] => false
  end.

Lemma startsWith_1 (s : jsstring) (b : char16) :
  startsWith s [b] = match s with d :: _ => (b =? d)%N | [] => false end.
Proof. destruct s; simpl; [reflexivity | apply andb_true_r]. Qed.

Lemma includes_pair (a b : char16) (s : jsstring) :
  includes s [a; b] = has_pair a b s.
Proof.
  induction s as [|c s IH]; [reflexivity|].
  cbn [includes has_pair]. rewrite IH. f_equal.
  cbn [startsWith]. rewrite (N.eqb_sym a c). f_equal.
Qed.

Lemma has_pair_app_l a b s t :
  has_pair a b (s ++ t) = false -> has_pair a b s = false.
Proof.
  induction s as [|c s IH]; [reflexivity|]. cbn [app has_pair].
  intros H. apply orb_false_iff in H as [H1 H2].
  rewrite (IH H2), orb_false_r.
  destruct (c =? a)%N; [|reflexivity]. simpl in *.
  destruct s; [reflexivity | exact H1].
Qed.

Lemma has_pair_app_r a b s t :
  has_pair a b (s ++ t) = false -> has_pair a b t = false.
Proof.
  induction s as [|c s IH]; [trivial|]. cbn [app has_pair].
  intros H. apply orb_false_iff in H as [_ H2]. auto.
Qed.

(** The leading-slash pass returns a suffix that does not start with a
    slash; the trailing-slash pass a prefix that does not end with one. *)
Lemma strip_leading_slashes_suffix s :
  exists t, s = t ++ strip_leading_slashes s.
Proof.
  induction s as [|c s [t IH]]; [exists []; reflexivity|].
  cbn [strip_leading_slashes]. destruct (c =? c_slash)%N.
  - exists (c :: t). simpl. now f_equal.
  - exists []. reflexivity.
Qed.

Lemma strip_leading_slashes_head s :
  startsWith (strip_leading_slashes s) [c_slash] = false.
Proof.
  induction s as [|c s IH]; [reflexivity|]. cbn [strip_leading_slashes].
  destruct (c =? c_slash)%N eqn:E; [exact IH|].
  cbn [startsWith]. now rewrite N.eqb_sym, E.
Qed.

Lemma strip_leading_slashes_id s :
  startsWith s [c_slash] = false -> strip_leading_slashes s = s.
Proof.
  destruct s as [|c s]; [reflexivity|]. cbn [startsWith strip_leading_slashes].
  rewrite N.eqb_sym, andb_true_r. now intros ->.
Qed.

Lemma strip_trailing_slashes_prefix s :
  exists t, s = strip_trailing_slashes s ++ t.
Proof.
  unfold strip_trailing_slashes.
  destruct (strip_leading_slashes_suffix (rev s)) as [t Ht].
  exists (rev t). rewrite <- rev_app_distr, <- Ht. now rewrite rev_involutive.
Qed.

Lemma strip_trailing_slashes_last s :
  endsWith (strip_trailing_slashes s) [c_slash] = false.
Proof.
  unfold endsWith, strip_trailing_slashes. rewrite rev_involutive.
  apply strip_leading_slashes_head.
Qed.

Lemma strip_trailing_slashes_id s :
  endsWith s [c_slash] = false -> strip_trailing_slashes s = s.
Proof.
  unfold endsWith, strip_trailing_slashes. intros H.
  change (rev [c_slash]) with [c_slash] in H.
  rewrite (strip_leading_slashes_id _ H). apply rev_involutive.
Qed.

Lemma strip_trailing_slashes_head s p :
  startsWith s [p] = false -> startsWith (strip_trailing_slashes s) [p] = false.
Proof.
  destruct (strip_trailing_slashes_prefix s) as [t Ht]. revert Ht.
  generalize (strip_trailing_slashes s) as u. intros u -> H.
  destruct u; [reflexivity | exact H].
Qed.

(** Collapsing runs of slashes keeps the first code unit and creates no
    new adjacency. *)
Lemma collapse_slashes_head s b :
  startsWith (collapse_slashes s) [b] = startsWith s [b].
Proof.
  induction s as [|c s IH]; [reflexivity|]. cbn [collapse_slashes].
  destruct ((c =? c_slash)%N && startsWith s [c_slash]) eqn:E; [|reflexivity].
  apply andb_true_iff in E as [E1 E2]. apply N.eqb_eq in E1. subst c.
  rewrite IH. rewrite !startsWith_1 in *. destruct s as [|d s]; [discriminate|].
  apply N.eqb_eq in E2. now subst d.
Qed.

Lemma collapse_slashes_pairs a b s :
  has_pair a b s = false -> has_pair a b (collapse_slashes s) = false.
Proof.
  induction s as [|c s IH]; [reflexivity|]. cbn [collapse_slashes has_pair].
  intros H. apply orb_false_iff in H as [H1 H2].
  destruct ((c =? c_slash)%N && startsWith s [c_slash]); [auto|].
  cbn [has_pair]. now rewrite collapse_slashes_head, H1, IH.
Qed.

Lemma collapse_slashes_no_double s :
  has_pair c_slash c_slash (collapse_slashes s) = false.
Proof.
  induction s as [|c s IH]; [reflexivity|]. cbn [collapse_slashes].
  destruct ((c =? c_slash)%N && startsWith s [c_slash]) eqn:E; [exact IH|].
  cbn [has_pair]. now rewrite collapse_slashes_head, E, IH.
Qed.

Lemma collapse_slashes_id s :
  has_pair c_slash c_slash s = false -> collapse_slashes s = s.
Proof.
  induction s as [|c s IH]; [reflexivity|]. cbn [collapse_slashes has_pair].
  intros H. apply orb_false_iff in H as [H1 H2]. now rewrite H1, IH.
Qed.

(** The [./] pass: its result starts with a slash only if the scan was
    not inside a match and the input started with one; hence no [./] is
    left. *)
Lemma strip_dot_slashes_from_head b s :
  startsWith (strip_dot_slashes_from b s) [c_slash] = true ->
  b = false /\ startsWith s [c_slash] = true.
Proof.
  revert b. induction s as [|c s IH]; intros b; [discriminate|].
  cbn [strip_dot_slashes_from].
  destruct (b && (c =? c_slash)%N) eqn:E1.
  { intros H. now destruct (IH _ H). }
  destruct ((c =? c_dot)%N && startsWith s [c_slash]) eqn:E2.
  { intros H. now destruct (IH _ H). }
  cbn [startsWith]. rewrite andb_true_r, N.eqb_sym. intros H.
  rewrite H, andb_true_r in E1. now subst b.
Qed.

Lemma strip_dot_slashes_from_no_pair b s :
  has_pair c_dot c_slash (strip_dot_slashes_from b s) = false.
Proof.
  revert b. induction s as [|c s IH]; intros b; [reflexivity|].
  cbn [strip_dot_slashes_from].
  destruct (b && (c =? c_slash)%N); [apply IH|].
  destruct ((c =? c_dot)%N && startsWith s [c_slash]) eqn:E2; [apply IH|].
  cbn [has_pair]. rewrite IH, orb_false_r.
  destruct (c =? c_dot)%N; [|reflexivity]. cbn [andb] in *.
  destruct (startsWith (strip_dot_slashes_from false s) [c_slash]) eqn:E3;
    [|reflexivity].
  apply strip_dot_slashes_from_head in E3 as [_ E3]. congruence.
Qed.

Lemma strip_dot_slashes_id s :
  has_pair c_dot c_slash s = false -> strip_dot_slashes s = s.
Proof.
  unfold strip_dot_slashes.
  induction s as [|c s IH]; [reflexivity|].
  cbn [strip_dot_slashes_from has_pair andb]. intros H.
  apply orb_false_iff in H as [H1 H2]. now rewrite H1, IH.
Qed.

(** The [..] passes look two code units ahead. *)
Lemma list_pair_ind (P : list char16 -> Prop) :
  P [] -> (forall c, P [c]) ->
  (forall c d s, P s -> P (d :: s) -> P (c :: d :: s)) ->
  forall s : list char16, P s.
Proof.
  intros H0 H1 H2 s. enough (P s /\ forall c, P (c :: s)) by tauto.
  induction s as [|d s [IHa IHb]]; split; auto.
Qed.

Lemma strip_dotdot_cons_other c s :
  (c =? c_dot)%N = false -> strip_dotdot (c :: s) = c :: strip_dotdot s.
Proof. intros E. cbn [strip_dotdot]. now rewrite E. Qed.

Lemma strip_dotdot_cons_dots c d s :
  (c =? c_dot)%N = true -> (d =? c_dot)%N = true ->
  strip_dotdot (c :: d :: s) = strip_dotdot s.
Proof. intros Ec Ed. cbn [strip_dotdot]. now rewrite Ec, Ed. Qed.

Lemma strip_dotdot_cons_dot c d s :
  (c =? c_dot)%N = true -> (d =? c_dot)%N = false ->
  strip_dotdot (c :: d :: s) = c :: d :: strip_dotdot s.
Proof. intros Ec Ed. cbn [strip_dotdot]. now rewrite Ec, Ed. Qed.

Lemma strip_dotdot_no_pair s :
  has_pair c_dot c_dot (strip_dotdot s) = false.
Proof.
  induction s as [|c|c d s IH1 IH2] using list_pair_ind.
  - reflexivity.
  - cbn [strip_dotdot]. destruct (c =? c_dot)%N eqn:Ec; cbn [has_pair startsWith];
      now rewrite andb_false_r.
  - destruct (c =? c_dot)%N eqn:Ec; [destruct (d =? c_dot)%N eqn:Ed|].
    + now rewrite strip_dotdot_cons_dots.
    + rewrite strip_dotdot_cons_dot by assumption.
      rewrite strip_dotdot_cons_other in IH2 by assumption.
      cbn [has_pair startsWith] in *. rewrite (N.eqb_sym c_dot d), Ed.
      now rewrite andb_false_r.
    + rewrite strip_dotdot_cons_other by assumption.
      cbn [has_pair]. now rewrite Ec, IH2.
Qed.

Lemma strip_dotdot_keeps_no_dot_slash s :
  has_pair c_dot c_slash s = false ->
  has_pair c_dot c_slash (strip_dotdot s) = false.
Proof.
  induction s as [|c|c d s IH1 IH2] using list_pair_ind.
  - reflexivity.
  - intros _. cbn [strip_dotdot].
    destruct (c =? c_dot)%N eqn:Ec; cbn [has_pair startsWith];
      now rewrite andb_false_r.
  - intros H. cbn [has_pair] in H. apply orb_false_iff in H as [H1 H2].
    fold (has_pair c_dot c_slash (d :: s)) in H2. specialize (IH2 H2).
    destruct (c =? c_dot)%N eqn:Ec; [destruct (d =? c_dot)%N eqn:Ed|].
    + rewrite strip_dotdot_cons_dots by assumption.
      apply IH1. cbn [has_pair] in H2. now apply orb_false_iff in H2 as [_ H2].
    + rewrite strip_dotdot_cons_dot by assumption.
      rewrite strip_dotdot_cons_other in IH2 by assumption.
      cbn [has_pair startsWith andb] in *. rewrite Ec in *.
      cbn [andb] in *. now rewrite H1.
    + rewrite strip_dotdot_cons_other by assumption.
      cbn [has_pair]. now rewrite Ec, IH2.
Qed.

Lemma strip_dotdot_segments_id s :
  has_pair c_dot c_dot s = false -> strip_dotdot_segments s = s.
Proof.
  induction s as [|c s IH]; [reflexivity|].
  cbn [has_pair strip_dotdot_segments]. intros H.
  apply orb_false_iff in H as [H1 H2]. rewrite (IH H2).
  destruct (c =? c_dot)%N; [|reflexivity].
  destruct s as [|d s]; [reflexivity|].
  cbn [andb startsWith] in H1. rewrite andb_true_r, N.eqb_sym in H1.
  now rewrite H1.
Qed.

Lemma strip_dotdot_loop_id fuel s :
  includes s dotdot = false -> strip_dotdot_loop fuel s = s.
Proof. destruct fuel; [reflexivity|]. cbn [strip_dotdot_loop]. now intros ->. Qed.

(** The loop leaves by its test: no [..] is left in its result. *)
Lemma strip_dotdot_loop_exits s :
  includes (strip_dotdot_loop (length s) s) dotdot = false.
Proof.
  destruct s as [|c s]; [reflexivity|]. cbn [length strip_dotdot_loop].
  destruct (includes (c :: s) dotdot) eqn:E; [|exact E].
  rewrite strip_dotdot_loop_id; unfold dotdot; rewrite includes_pair;
    apply strip_dotdot_no_pair.
Qed.

Lemma strip_dotdot_loop_keeps_no_dot_slash fuel s :
  has_pair c_dot c_slash s = false ->
  has_pair c_dot c_slash (strip_dotdot_loop fuel s) = false.
Proof.
  revert s. induction fuel as [|fuel IH]; intros s H; [exact H|].
  cbn [strip_dotdot_loop]. destruct (includes s dotdot); [|exact H].
  apply IH. now apply strip_dotdot_keeps_no_dot_slash.
Qed.

(** Every pass after the separator normalisation only deletes code
    units. *)
Definition only_deletes (f : jsstring -> jsstring) : Prop :=
  forall (P : char16 -> Prop) s, List.Forall P s -> List.Forall P (f s).

Lemma only_deletes_compose f g :
  only_deletes f -> only_deletes g -> only_deletes (fun s => f (g s)).
Proof. intros Hf Hg P s H. apply Hf, Hg, H. Qed.

Lemma only_deletes_rev f :
  only_deletes f -> only_deletes (fun s => rev (f (rev s))).
Proof. intros Hf P s H. apply List.Forall_rev, Hf, List.Forall_rev, H. Qed.

Lemma trimStart_only_deletes : only_deletes trimStart.
Proof.
  intros P s H. induction H as [|c s Hc H IH]; [constructor|].
  cbn [trimStart]. destruct (is_ws c); [exact IH | now constructor].
Qed.

Lemma trim_only_deletes : only_deletes trim.
Proof.
  intros P s H. unfold trim, trimEnd.
  apply (only_deletes_rev _ trimStart_only_deletes), trimStart_only_deletes, H.
Qed.

Lemma strip_nul_only_deletes : only_deletes strip_nul.
Proof.
  intros P s H. induction H as [|c s Hc H IH]; [constructor|].
  unfold strip_nul in *. cbn [List.filter].
  destruct (negb (c =? c_NUL)%N); [now constructor | exact IH].
Qed.

Lemma strip_dotdot_segments_only_deletes : only_deletes strip_dotdot_segments.
Proof.
  intros P s. remember (length s) as n eqn:Hn.
  assert (Hle : length s <= n) by lia. clear Hn. revert s Hle.
  induction n as [|n IH]; intros s Hle H.
  { destruct s; [constructor | cbn in Hle; lia]. }
  destruct s as [|c s1]; [constructor|]. cbn [strip_dotdot_segments].
  inversion H as [|? ? Hc H1]; subst. cbn [length] in Hle.
  assert (Hrec : List.Forall P (c :: strip_dotdot_segments s1)).
  { constructor; [exact Hc | apply IH; [lia | exact H1]]. }
  destruct (c =? c_dot)%N; [|exact Hrec].
  destruct s1 as [|d s2]; [exact H|].
  destruct (d =? c_dot)%N; [|exact Hrec].
  destruct s2 as [|e s3]; [constructor|].
  destruct (e =? c_slash)%N; [|exact Hrec].
  inversion H1 as [|? ? Hd H2]; subst. inversion H2 as [|? ? He H3]; subst.
  cbn [length] in Hle. apply IH; [lia | exact H3].
Qed.

Lemma strip_dot_slashes_only_deletes : only_deletes strip_dot_slashes.
Proof.
  intros P s H. unfold strip_dot_slashes. generalize false.
  induction H as [|c s Hc H IH]; intros b; [constructor|].
  cbn [strip_dot_slashes_from].
  destruct (b && (c =? c_slash)%N); [apply IH|].
  destruct ((c =? c_dot)%N && startsWith s [c_slash]); [apply IH|].
  constructor; [exact Hc | apply IH].
Qed.

Lemma collapse_slashes_only_deletes : only_deletes collapse_slashes.
Proof.
  intros P s H. induction H as [|c s Hc H IH]; [constructor|].
  cbn [collapse_slashes].
  destruct ((c =? c_slash)%N && startsWith s [c_slash]);
    [exact IH | now constructor].
Qed.

Lemma strip_leading_slashes_only_deletes : only_deletes strip_leading_slashes.
Proof.
  intros P s H. induction H as [|c s Hc H IH]; [constructor|].
  cbn [strip_leading_slashes].
  destruct (c =? c_slash)%N; [exact IH | now constructor].
Qed.

Lemma strip_dotdot_only_deletes : only_deletes strip_dotdot.
Proof.
  intros P s. induction s as [|c|c d s IH1 IH2] using list_pair_ind;
    intros H.
  - constructor.
  - cbn. destruct (c =? c_dot)%N; exact H.
  - inversion H as [|? ? Hc Hs]; subst. inversion Hs as [|? ? Hd Hs']; subst.
    destruct (c =? c_dot)%N eqn:Ec; [destruct (d =? c_dot)%N eqn:Ed|].
    + rewrite strip_dotdot_cons_dots by assumption. auto.
    + rewrite strip_dotdot_cons_dot by assumption. auto.
    + rewrite strip_dotdot_cons_other by assumption. auto.
Qed.

Lemma strip_dotdot_loop_only_deletes fuel :
  only_deletes (strip_dotdot_loop fuel).
Proof.
  induction fuel as [|fuel IH]; intros P s H; [exact H|].
  cbn [strip_dotdot_loop]. destruct (includes s dotdot); [|exact H].
  apply IH, strip_dotdot_only_deletes, H.
Qed.

Lemma backslashes_to_slashes_none s :
  List.Forall (fun c => c <> c_backslash) (backslashes_to_slashes s).
Proof.
  induction s as [|c s IH]; [constructor|]. cbn. constructor; [|exact IH].
  destruct (N.eqb_spec c c_backslash); [discriminate | assumption].
Qed.

Lemma backslashes_to_slashes_id s :
  List.Forall (fun c => c <> c_backslash) s -> backslashes_to_slashes s = s.
Proof.
  induction 1 as [|c s Hc H IH]; [reflexivity|].
  unfold backslashes_to_slashes in *. cbn [List.map]. rewrite IH.
  now destruct (N.eqb_spec c c_backslash).
Qed.

Lemma strip_nul_none s :
  List.Forall (fun c => c <> c_NUL) (strip_nul s).
Proof.
  induction s as [|c s IH]; [constructor|]. unfold strip_nul in *.
  cbn [List.filter]. destruct (N.eqb_spec c c_NUL); cbn [negb]; [exact IH|].
  now constructor.
Qed.

Lemma strip_nul_id s :
  List.Forall (fun c => c <> c_NUL) s -> strip_nul s = s.
Proof.
  induction 1 as [|c s Hc H IH]; [reflexivity|].
  unfold strip_nul in *. cbn [List.filter]. rewrite IH.
  now destruct (N.eqb_spec c c_NUL).
Qed.

Lemma strip_trailing_slashes_only_deletes :
  only_deletes strip_trailing_slashes.
Proof. exact (only_deletes_rev _ strip_leading_slashes_only_deletes). Qed.

Lemma strip_leading_slashes_pairs a b s :
  has_pair a b s = false -> has_pair a b (strip_leading_slashes s) = false.
Proof.
  destruct (strip_leading_slashes_suffix s) as [t Ht]. intros H.
  rewrite Ht in H. exact (has_pair_app_r _ _ _ _ H).
Qed.

Lemma strip_trailing_slashes_pairs a b s :
  has_pair a b s = false -> has_pair a b (strip_trailing_slashes s) = false.
Proof.
  destruct (strip_trailing_slashes_prefix s) as [t Ht]. intros H.
  rewrite Ht in H. exact (has_pair_app_l _ _ _ _ H).
Qed.

(** *** The shape of a sanitised path *)

(** What [sanitizePath] guarantees of its result: no backslash, no NUL, no
    [..], no [./], no doubled slash, no slash at either end. *)
Record sanitized (y : jsstring) : Prop := {
  san_no_backslash : List.Forall (fun c => c <> c_backslash) y;
  san_no_nul : List.Forall (fun c => c <> c_NUL) y;
  san_no_dotdot : has_pair c_dot c_dot y = false;
  san_no_dot_slash : has_pair c_dot c_slash y = false;
  san_no_double_slash : has_pair c_slash c_slash y = false;
  san_no_leading_slash : startsWith y [c_slash] = false;
  san_no_trailing_slash : endsWith y [c_slash] = false
}.

Lemma sanitizePath_sanitized x : sanitized (sanitizePath x).
Proof.
  unfold sanitizePath.
  set (s3 := strip_nul (backslashes_to_slashes (trim x))).
  set (s7 := strip_leading_slashes
               (collapse_slashes (strip_dot_slashes (strip_dotdot_segments s3)))).
  assert (D : forall P, List.Forall P s3 ->
    List.Forall P (strip_trailing_slashes (strip_leading_slashes
      (collapse_slashes (strip_dotdot_loop (length s7) s7))))).
  { intros P H.
    apply strip_trailing_slashes_only_deletes,
      strip_leading_slashes_only_deletes, collapse_slashes_only_deletes,
      strip_dotdot_loop_only_deletes, strip_leading_slashes_only_deletes,
      collapse_slashes_only_deletes, strip_dot_slashes_only_deletes,
      strip_dotdot_segments_only_deletes, H. }
  split.
  - apply D, strip_nul_only_deletes, backslashes_to_slashes_none.
  - apply D, strip_nul_none.
  - apply strip_trailing_slashes_pairs, strip_leading_slashes_pairs,
      collapse_slashes_pairs.
    rewrite <- includes_pair. apply strip_dotdot_loop_exits.
  - apply strip_trailing_slashes_pairs, strip_leading_slashes_pairs,
      collapse_slashes_pairs, strip_dotdot_loop_keeps_no_dot_slash,
      strip_leading_slashes_pairs, collapse_slashes_pairs,
      strip_dot_slashes_from_no_pair.
  - apply strip_trailing_slashes_pairs, strip_leading_slashes_pairs,
      collapse_slashes_no_double.
  - apply strip_trailing_slashes_head, strip_leading_slashes_head.
  - apply strip_trailing_slashes_last.
Qed.

(** A sanitised string that [trim] leaves alone is a fixed point. *)
Lemma sanitizePath_fixed y :
  sanitized y -> trim y = y -> sanitizePath y = y.
Proof.
  intros [Hb Hn Hdd Hds Hss Hl Ht] Htrim. unfold sanitizePath.
  rewrite Htrim, (backslashes_to_slashes_id _ Hb), (strip_nul_id _ Hn),
    (strip_dotdot_segments_id _ Hdd), (strip_dot_slashes_id _ Hds),
    (collapse_slashes_id _ Hss), (strip_leading_slashes_id _ Hl).
  rewrite strip_dotdot_loop_id by (unfold dotdot; now rewrite includes_pair).
  now rewrite (collapse_slashes_id _ Hss), (strip_leading_slashes_id _ Hl),
    (strip_trailing_slashes_id _ Ht).
Qed.

(** Code units that are not white space: [trim] is the identity on a
    string made of them. *)
Lemma trim_id s :
  List.Forall (fun c => is_ws c = false) s -> trim s = s.
Proof.
  assert (T : forall u, List.Forall (fun c => is_ws c = false) u ->
                        trimStart u = u).
  { intros u [|c u' Hc _]; [reflexivity|]. cbn [trimStart]. now rewrite Hc. }
  intros H. unfold trim, trimEnd. rewrite (T _ H).
  rewrite (T (rev s)) by now apply List.Forall_rev.
  apply rev_involutive.
Qed.

Lemma sanitizePath_no_ws x :
  List.Forall (fun c => is_ws c = false) x ->
  List.Forall (fun c => is_ws c = false) (sanitizePath x).
Proof.
  intros H. unfold sanitizePath.
  apply strip_trailing_slashes_only_deletes,
    strip_leading_slashes_only_deletes, collapse_slashes_only_deletes,
    strip_dotdot_loop_only_deletes, strip_leading_slashes_only_deletes,
    collapse_slashes_only_deletes, strip_dot_slashes_only_deletes,
    strip_dotdot_segments_only_deletes, strip_nul_only_deletes.
  apply trim_only_deletes in H. revert H.
  generalize (trim x). intros s H. induction H as [|c s Hc H IH];
    [constructor|].
  cbn. constructor; [|exact IH].
  destruct (c =? c_backslash)%N; [reflexivity | exact Hc].
Qed.

(** On input free of white space the function is idempotent outright. *)
Lemma sanitizePath_idempotent_no_ws x :
  List.Forall (fun c => is_ws c = false) x ->
  sanitizePath (sanitizePath x) = sanitizePath x.
Proof.
  intros H. apply sanitizePath_fixed; [apply sanitizePath_sanitized|].
  apply trim_id, sanitizePath_no_ws, H.
Qed.

(** C3, as stated, fails: [sanitizePath "/ a"] is [" a"], because the
    leading slash is removed after the trimming, and a second application
    trims the blank that the first one uncovered. *)
Lemma sanitizePath_not_idempotent :
  sanitizePath (js "/ a") = js " a" /\
  sanitizePath (sanitizePath (js "/ a")) = js "a" /\
  sanitizePath (sanitizePath (js "/ a")) <> sanitizePath (js "/ a").
Proof. repeat split; [vm_compute; reflexivity .. | vm_compute; discriminate]. Qed.

(** C3 (amended): whenever the sanitised path neither starts nor ends with
    white space, that is, whenever [trim] leaves [sanitizePath x] unchanged,
    a second application of [sanitizePath] returns [sanitizePath x]. *)
Theorem sanitizePath_idempotent_trimmed x :
  trim (sanitizePath x) = sanitizePath x ->
  sanitizePath (sanitizePath x) = sanitizePath x.
Proof. intros H. apply sanitizePath_fixed; [apply sanitizePath_sanitized | exact H]. Qed.

Lemma sanitizePath_idempotent_trimmed_witness :
  trim (sanitizePath (js "  ..\a/.//b..c/  ")) = sanitizePath (js "  ..\a/.//b..c/  ")
  /\ sanitizePath (sanitizePath (js "  ..\a/.//b..c/  "))
     = sanitizePath (js "  ..\a/.//b..c/  ").
Proof.
  split; [vm_compute; reflexivity|].
  apply (sanitizePath_idempotent_trimmed (js "  ..\a/.//b..c/  ")).
  vm_compute; reflexivity.
Defined.

(** *** The passes never lengthen a string *)

Definition never_longer (f : jsstring -> jsstring) : Prop :=
  forall s, length (f s) <= length s.

Lemma trimStart_suffix s : exists t, s = t ++ trimStart s.
Proof.
  induction s as [|c s [t IH]]; [now exists []|]. cbn [trimStart].
  destruct (is_ws c); [|now exists []].
  exists (c :: t). cbn [app]. now f_equal.
Qed.

Lemma trimStart_never_longer : never_longer trimStart.
Proof.
  intros s. destruct (trimStart_suffix s) as [t Ht].
  rewrite Ht at 2. rewrite List.length_app. lia.
Qed.

Lemma trimStart_same_length s :
  length (trimStart s) = length s -> trimStart s = s.
Proof.
  destruct (trimStart_suffix s) as [t Ht]. intros H.
  rewrite Ht in H at 2. rewrite List.length_app in H.
  destruct t; [exact (eq_sym Ht) | cbn [length] in H; lia].
Qed.

Lemma trim_never_longer : never_longer trim.
Proof.
  intros s. unfold trim, trimEnd. rewrite length_rev.
  etransitivity; [apply trimStart_never_longer|].
  rewrite length_rev. apply trimStart_never_longer.
Qed.

Lemma trim_same_length s : length (trim s) = length s -> trim s = s.
Proof.
  intros H. unfold trim, trimEnd in *. rewrite length_rev in H.
  pose proof (trimStart_never_longer (rev (trimStart s))) as H1.
  pose proof (trimStart_never_longer s) as H2. rewrite length_rev in H1.
  assert (E : trimStart s = s) by (apply trimStart_same_length; lia).
  rewrite E in *. rewrite trimStart_same_length by (rewrite length_rev; lia).
  apply rev_involutive.
Qed.

Lemma strip_dotdot_segments_never_longer : never_longer strip_dotdot_segments.
Proof.
  intros s. remember (length s) as n eqn:Hn.
  assert (Hle : length s <= n) by lia. rewrite Hn. clear Hn. revert s Hle.
  induction n as [|n IH]; intros s Hle.
  { destruct s; [reflexivity | cbn in Hle; lia]. }
  destruct s as [|c s1]; [reflexivity|]. cbn [strip_dotdot_segments].
  cbn [length] in Hle.
  assert (Hrec : length (c :: strip_dotdot_segments s1) <= length (c :: s1)).
  { cbn [length]. specialize (IH s1). lia. }
  destruct (c =? c_dot)%N; [|exact Hrec].
  destruct s1 as [|d s2]; [reflexivity|].
  destruct (d =? c_dot)%N; [|exact Hrec].
  destruct s2 as [|e s3]; [cbn; lia|].
  destruct (e =? c_slash)%N; [|exact Hrec].
  cbn [length] in *. specialize (IH s3). lia.
Qed.

Lemma strip_dot_slashes_never_longer : never_longer strip_dot_slashes.
Proof.
  intros s. unfold strip_dot_slashes. generalize false.
  induction s as [|c s IH]; intros b; [reflexivity|].
  cbn [strip_dot_slashes_from length].
  destruct (b && (c =? c_slash)%N); [specialize (IH true); lia|].
  destruct ((c =? c_dot)%N && startsWith s [c_slash]);
    [specialize (IH true) | specialize (IH false); cbn [length]]; lia.
Qed.

Lemma collapse_slashes_never_longer : never_longer collapse_slashes.
Proof.
  intros s. induction s as [|c s IH]; [reflexivity|].
  cbn [collapse_slashes length].
  destruct ((c =? c_slash)%N && startsWith s [c_slash]); cbn [length]; lia.
Qed.

Lemma strip_leading_slashes_never_longer : never_longer strip_leading_slashes.
Proof.
  intros s. destruct (strip_leading_slashes_suffix s) as [t Ht].
  rewrite Ht at 2. rewrite List.length_app. lia.
Qed.

Lemma strip_trailing_slashes_never_longer :
  never_longer strip_trailing_slashes.
Proof.
  intros s. unfold strip_trailing_slashes. rewrite length_rev.
  etransitivity; [apply strip_leading_slashes_never_longer|].
  now rewrite length_rev.
Qed.

Lemma strip_dotdot_never_longer : never_longer strip_dotdot.
Proof.
  intros s. induction s as [|c|c d s IH1 IH2] using list_pair_ind.
  - reflexivity.
  - cbn. destruct (c =? c_dot)%N; reflexivity.
  - destruct (c =? c_dot)%N eqn:Ec; [destruct (d =? c_dot)%N eqn:Ed|].
    + rewrite strip_dotdot_cons_dots by assumption. cbn [length]. lia.
    + rewrite strip_dotdot_cons_dot by assumption. cbn [length] in *. lia.
    + rewrite strip_dotdot_cons_other by assumption. cbn [length] in *. lia.
Qed.

Lemma strip_dotdot_loop_never_longer fuel :
  never_longer (strip_dotdot_loop fuel).
Proof.
  induction fuel as [|fuel IH]; intros s; [reflexivity|].
  cbn [strip_dotdot_loop]. destruct (includes s dotdot); [|reflexivity].
  etransitivity; [apply IH | apply strip_dotdot_never_longer].
Qed.

Lemma sanitizePath_length x : length (sanitizePath x) <= length (trim x).
Proof.
  unfold sanitizePath.
  repeat (etransitivity;
          [first [ apply strip_trailing_slashes_never_longer
                 | apply strip_leading_slashes_never_longer
                 | apply collapse_slashes_never_longer
                 | apply strip_dotdot_loop_never_longer
                 | apply strip_dot_slashes_never_longer
                 | apply strip_dotdot_segments_never_longer ]|]).
  unfold strip_nul, backslashes_to_slashes.
  etransitivity; [apply List.filter_length_le|]. now rewrite List.length_map.
Qed.

(** *** Further properties of [sanitizePath] *)

(** Whatever the input, the result of [sanitizePath] holds no [..], no
    [./], no doubled slash, no backslash and no NUL, neither starts nor
    ends with a slash, and is not longer than the input. *)
Theorem sanitizePath_result_shape (x : jsstring) :
  includes (sanitizePath x) (js "..") = false
  /\ includes (sanitizePath x) (js "./") = false
  /\ includes (sanitizePath x) (js "//") = false
  /\ includes (sanitizePath x) [c_backslash] = false
  /\ includes (sanitizePath x) [c_NUL] = false
  /\ startsWith (sanitizePath x) (js "/") = false
  /\ endsWith (sanitizePath x) (js "/") = false
  /\ length (sanitizePath x) <= length x.
Proof.
  destruct (sanitizePath_sanitized x) as [Hb Hn Hdd Hds Hss Hl Ht].
  assert (Hone : forall (c : char16) s,
    List.Forall (fun d => d <> c) s -> includes s [c] = false).
  { intros c s H. induction H as [|d s Hd H IH]; [reflexivity|].
    cbn [includes startsWith]. rewrite IH, andb_true_r, orb_false_r.
    apply N.eqb_neq. congruence. }
  repeat split.
  - change (js "..") with [c_dot; c_dot]. now rewrite includes_pair.
  - change (js "./") with [c_dot; c_slash]. now rewrite includes_pair.
  - change (js "//") with [c_slash; c_slash]. now rewrite includes_pair.
  - apply Hone, Hb.
  - apply Hone, Hn.
  - exact Hl.
  - exact Ht.
  - etransitivity; [apply sanitizePath_length | apply trim_never_longer].
Qed.

(** The fixed points of [sanitizePath] are exactly the strings in
    sanitised shape that [trim] leaves alone: such a path is returned
    unchanged, and any other string is changed. *)
Theorem sanitizePath_fixed_points (y : jsstring) :
  sanitizePath y = y <-> sanitized y /\ trim y = y.
Proof.
  split.
  - intros H. split.
    + rewrite <- H. apply sanitizePath_sanitized.
    + apply trim_same_length.
      pose proof (sanitizePath_length y) as H1.
      pose proof (trim_never_longer y) as H2. rewrite H in H1.
      unfold jsstring, char16 in *. lia.
  - intros [Hs Ht]. now apply sanitizePath_fixed.
Qed.

(** *** [sanitizePath] followed by [hasPathTraversal] *)

Lemma startsWith_prefix (s p : jsstring) :
  startsWith s p = true <-> exists r, s = p ++ r.
Proof.
  revert s. induction p as [|c p IH]; intros s.
  - split; [intros _; now exists s | reflexivity].
  - destruct s as [|d s]; cbn [startsWith].
    + split; [discriminate | intros [r Hr]; discriminate].
    + rewrite andb_true_iff, IH, N.eqb_eq. split.
      * intros [-> [r ->]]. now exists r.
      * intros [r Hr]. injection Hr as -> ->. eauto.
Qed.

Lemma includes_occurrence (s p : jsstring) :
  includes s p = true <-> exists before after, s = before ++ p ++ after.
Proof.
  induction s as [|c s IH]; cbn [includes].
  - rewrite orb_false_r, startsWith_prefix. split.
    + intros [r Hr]. now exists [], r.
    + intros (before & after & H). destruct before; [|discriminate].
      now exists after.
  - rewrite orb_true_iff, startsWith_prefix, IH. split.
    + intros [[r Hr] | (before & after & ->)].
      * now exists [], r.
      * now exists (c :: before), after.
    + intros (before & after & H). destruct before as [|b before].
      * left. now exists after.
      * right. injection H as -> ->. now exists before, after.
Qed.

(** A string that does not hold a code unit of the pattern does not hold
    the pattern. *)
Lemma includes_without (c : char16) (s p : jsstring) :
  In c p -> List.Forall (fun d => d <> c) s -> includes s p = false.
Proof.
  intros Hc Hs. destruct (includes s p) eqn:E; [|reflexivity].
  apply includes_occurrence in E as (before & after & ->).
  rewrite !List.Forall_app in Hs. destruct Hs as (_ & Hp & _).
  rewrite List.Forall_forall in Hp. now destruct (Hp c Hc).
Qed.

Lemma includes_longer (s p q : jsstring) :
  includes s p = false -> includes s (p ++ q) = false.
Proof.
  intros H. destruct (includes s (p ++ q)) eqn:E; [|reflexivity].
  apply includes_occurrence in E as (before & after & ->).
  rewrite <- H. symmetry. apply includes_occurrence.
  exists before, (q ++ after). now rewrite <- app_assoc.
Qed.

Definition c_percent : char16 := 37%N.

Lemma to_lower_percent (s : jsstring) :
  List.Forall (fun d => d <> c_percent) s ->
  List.Forall (fun d => d <> c_percent) (List.map to_lower s).
Proof.
  induction 1 as [|d s Hd H IH]; [constructor|]. cbn [List.map].
  constructor; [|exact IH]. unfold to_lower, is_upper, c_percent in *.
  destruct ((65 <=? d)%N && (d <=? 90)%N) eqn:E; [|exact Hd].
  apply andb_true_iff in E as [E _]. apply N.leb_le in E. lia.
Qed.

(** [sanitizePath] keeps a string free of [%] free of it. *)
Lemma sanitizePath_no_percent (x : jsstring) :
  List.Forall (fun d => d <> c_percent) x ->
  List.Forall (fun d => d <> c_percent) (sanitizePath x).
Proof.
  intros H. unfold sanitizePath.
  apply strip_trailing_slashes_only_deletes,
    strip_leading_slashes_only_deletes, collapse_slashes_only_deletes,
    strip_dotdot_loop_only_deletes, strip_leading_slashes_only_deletes,
    collapse_slashes_only_deletes, strip_dot_slashes_only_deletes,
    strip_dotdot_segments_only_deletes, strip_nul_only_deletes.
  apply trim_only_deletes in H. revert H.
  generalize (trim x). intros s H. induction H as [|c s Hc H IH];
    [constructor|].
  cbn. constructor; [|exact IH].
  destruct (c =? c_backslash)%N; [discriminate | exact Hc].
Qed.

(** A sanitised path passes [hasPathTraversal] whenever the input holds no
    percent sign; a percent-encoded [..] goes through [sanitizePath]
    untouched and is still reported. *)
Theorem sanitizePath_then_hasPathTraversal (x : jsstring) :
  (List.Forall (fun d => d <> c_percent) x ->
   hasPathTraversal (sanitizePath x) = false)
  /\ sanitizePath (js "%2e%2e/etc") = js "%2e%2e/etc"
  /\ hasPathTraversal (sanitizePath (js "%2e%2e/etc")) = true.
Proof.
  split; [|split; vm_compute; reflexivity].
  intros H. apply sanitizePath_no_percent in H.
  destruct (sanitizePath_sanitized x) as [_ _ Hdd _ _ _ _].
  assert (Hd : includes (sanitizePath x) (js "..") = false).
  { change (js "..") with [c_dot; c_dot]. now rewrite includes_pair. }
  assert (Hci : forall p, In c_percent (List.map to_lower p) ->
                          includes_ci (sanitizePath x) p = false).
  { intros p Hp. unfold includes_ci.
    apply (includes_without c_percent); [exact Hp|].
    now apply to_lower_percent. }
  assert (Hb : includes (sanitizePath x) [c_dot; c_dot; c_backslash] = false)
    by exact (includes_longer _ (js "..") [c_backslash] Hd).
  unfold hasPathTraversal. rewrite Hd. unfold c_dot, c_backslash in Hb.
  rewrite Hb.
  rewrite !Hci by (vm_compute; tauto). reflexivity.
Qed.

Lemma sanitizePath_then_hasPathTraversal_witness :
  hasPathTraversal (sanitizePath (js " ..\a/.././/b..c/ ")) = false.
Proof.
  apply (proj1 (sanitizePath_then_hasPathTraversal
                  (js " ..\a/.././/b..c/ "))).
  repeat constructor; discriminate.
Defined.

(** *** [validateScope] *)

(** [validateScope] on a string [scope]; [basePath] is [undefined]
    ([None]) or a string. *)
Definition validateScope (scope : jsstring) (basePath : option jsstring)
  : bool :=
  if (length scope =? 0)%nat then false
  else if negb (startsWith scope (js "/")) then false
  else if includes scope (js "..") then false
  else if includes scope [c_NUL] then false
  else if includes scope (js "?") then false
  else if includes scope (js "#") then false
  else if includes scope [c_backslash] then false
  else
    match basePath with
    | Some basePath =>
        let normalizedBase :=
          if endsWith basePath (js "/") then basePath
          else basePath ++ js "/" in
        let normalizedScope :=
          if endsWith scope (js "/") then scope else scope ++ js "/" in
        if negb (startsWith normalizedScope normalizedBase) then false
        else true
    | None => true
    end.

(** The string with one slash at its end, as [validateScope] compares
    it. *)
Definition with_trailing_slash (s : jsstring) : jsstring :=
  if endsWith s (js "/") then s else s ++ js "/".

Lemma validateScope_unfold scope basePath :
  validateScope scope (Some basePath)
  = validateScope scope None
    && startsWith (with_trailing_slash scope) (with_trailing_slash basePath).
Proof.
  unfold validateScope, with_trailing_slash.
  repeat match goal with
         | |- context [if ?b then false else _] => destruct b; [reflexivity|]
         end.
  now destruct (startsWith _ _).
Qed.

Lemma startsWith_refl (s : jsstring) : startsWith s s = true.
Proof. apply startsWith_prefix. exists []. now rewrite app_nil_r. Qed.

Lemma startsWith_trans (s p q : jsstring) :
  startsWith s p = true -> startsWith p q = true -> startsWith s q = true.
Proof.
  rewrite !startsWith_prefix. intros [r ->] [r' ->].
  exists (r' ++ r). now rewrite app_assoc.
Qed.

Lemma endsWith_suffix (s p : jsstring) :
  endsWith s p = true <-> exists r, s = r ++ p.
Proof.
  unfold endsWith. rewrite startsWith_prefix. split.
  - intros [r Hr]. exists (rev r).
    rewrite <- (rev_involutive s), Hr, rev_app_distr.
    now rewrite rev_involutive.
  - intros [r ->]. exists (rev r). apply rev_app_distr.
Qed.

(** Scopes are nested by whole path segments, and nesting is a preorder:
    a valid scope lies under itself, and a scope under [b] lies under
    whatever [b] lies under. *)
Theorem validateScope_nesting (s b a : jsstring) :
  (validateScope s None = true -> validateScope s (Some s) = true)
  /\ (validateScope s (Some b) = true -> validateScope b (Some a) = true ->
      validateScope s (Some a) = true).
Proof.
  rewrite !validateScope_unfold. split.
  - intros ->. apply startsWith_refl.
  - intros H1 H2. apply andb_true_iff in H1 as [-> H1].
    apply andb_true_iff in H2 as [_ H2]. exact (startsWith_trans _ _ _ H1 H2).
Qed.

Lemma validateScope_nesting_witness :
  validateScope (js "/app/admin/users") (Some (js "/app")) = true.
Proof.
  apply (proj2 (validateScope_nesting (js "/app/admin/users")
                  (js "/app/admin/") (js "/app")));
    vm_compute; reflexivity.
Defined.

(** Under a base path that does not end with a slash, the valid scopes
    are the base path itself and the valid scopes that continue it with a
    slash: [/application] is not under [/app], although it starts with
    it. *)
Theorem validateScope_whole_segments (s b : jsstring) :
  endsWith b (js "/") = false ->
  validateScope s (Some b) = true
  <-> validateScope s None = true
      /\ (s = b \/ startsWith s (b ++ js "/") = true).
Proof.
  intros Hb. rewrite validateScope_unfold, andb_true_iff.
  unfold with_trailing_slash at 2. rewrite Hb.
  apply and_iff_compat_l. unfold with_trailing_slash.
  destruct (endsWith s (js "/")) eqn:Hs.
  - split; [now right|]. intros [-> | H]; [congruence | exact H].
  - rewrite startsWith_prefix. split.
    + intros [r Hr]. destruct r as [|c r] using rev_ind.
      * left. rewrite app_nil_r in Hr. now apply app_inv_tail in Hr.
      * right. clear IHr. rewrite !app_assoc in Hr.
        apply app_inj_tail in Hr as [-> _]. apply startsWith_prefix.
        exists r. now rewrite <- app_assoc.
    + intros [-> | H]; [exists []; now rewrite app_nil_r|].
      apply startsWith_prefix in H as [r ->].
      exists (r ++ js "/"). now rewrite <- !app_assoc.
Qed.

Lemma validateScope_whole_segments_witness :
  validateScope (js "/app/admin") (Some (js "/app")) = true
  /\ validateScope (js "/application") (Some (js "/app")) = false.
Proof.
  split.
  - apply (proj2 (validateScope_whole_segments (js "/app/admin") (js "/app")
                    eq_refl)).
    split; [reflexivity | right; reflexivity].
  - destruct (validateScope (js "/application") (Some (js "/app"))) eqn:E;
      [|reflexivity].
    apply (proj1 (validateScope_whole_segments (js "/application")
                    (js "/app") eq_refl)) in E as [_ [E | E]];
      discriminate.
Defined.

(** *** [isValidFilename] *)

Definition is_alnum (c : char16) : bool :=
  is_lower c || is_upper c || is_digit c.

(** The class [[a-zA-Z0-9._-]]. *)
Definition is_filename_char (c : char16) : bool :=
  is_alnum c || (c =? 46)%N || (c =? 95)%N || (c =? 45)%N.

(** [[a-zA-Z0-9._-]*\.js$]: the star takes code units of the class until
    what is left is [.js]. *)
Fixpoint filename_tail (s : jsstring) : bool :=
  str_eqb s (js ".js")
  || match s with
     | c :: s' => is_filename_char c && filename_tail s'
     | [] => false
     end.

(** [/^[a-zA-Z0-9][a-zA-Z0-9._-]*\.js$/.test] *)
Definition validFilenamePattern_test (s : jsstring) : bool :=
  match s with
  | c :: s' => is_alnum c && filename_tail s'
  | [] => false
  end.

(** [isValidFilename] on a string argument. *)
Definition isValidFilename (filename : jsstring) : bool :=
  if (length filename =? 0)%nat then false
  else if (255 <? length filename)%nat then false
  else if includes filename [c_NUL] then false
  else if includes filename (js "/") then false
  else if includes filename [c_backslash] then false
  else if str_eqb filename (js ".") || str_eqb filename (js "..") then false
  else if negb (endsWith filename (js ".js")) then false
  else if str_eqb filename (js ".js") then false
  else if negb (validFilenamePattern_test filename) then false
  else true.

Lemma filename_tail_spec (s : jsstring) :
  filename_tail s = true
  <-> exists stem, s = stem ++ js ".js"
                   /\ List.forallb is_filename_char stem = true.
Proof.
  induction s as [|c s IH]; cbn [filename_tail].
  - split; [discriminate|]. intros (stem & H & _).
    now destruct stem as [|? [|? [|? [|? ?]]]].
  - rewrite orb_true_iff, andb_true_iff, IH. split.
    + intros [H | [Hc (stem & -> & Hs)]].
      * destruct (str_eqb_spec (c :: s) (js ".js")) as [E|]; [|discriminate].
        exists []. now split.
      * exists (c :: stem). cbn [List.forallb app]. now rewrite Hc, Hs.
    + intros (stem & H & Hs). destruct stem as [|d stem].
      * left. cbn [app] in H. rewrite H. reflexivity.
      * right. cbn [app List.forallb] in *. injection H as -> ->.
        apply andb_true_iff in Hs as [Hd Hs]. split; [exact Hd|].
        now exists stem.
Qed.

Lemma filename_chars_exclude (c : char16) (s : jsstring) :
  is_filename_char c = false ->
  List.forallb is_filename_char s = true -> includes s [c] = false.
Proof.
  intros Hc Hs. induction s as [|d s IH]; [reflexivity|].
  cbn [List.forallb] in Hs. apply andb_true_iff in Hs as [Hd Hs].
  cbn [includes startsWith]. rewrite (IH Hs), andb_true_r, orb_false_r.
  apply N.eqb_neq. intros ->. congruence.
Qed.

Lemma valid_filename_shape (filename : jsstring) :
  isValidFilename filename = true ->
  length filename <= 255
  /\ exists c stem,
       filename = c :: stem ++ js ".js"
       /\ is_alnum c = true
       /\ List.forallb is_filename_char stem = true.
Proof.
  unfold isValidFilename.
  destruct (length filename =? 0)%nat; [discriminate|].
  destruct (Nat.ltb_spec 255 (length filename)); [discriminate|].
  destruct (validFilenamePattern_test filename) eqn:E; cbn [negb];
    repeat match goal with
           | |- (if ?b then false else _) = true -> _ =>
               destruct b; [discriminate|]
           end; [|discriminate].
  intros _. split; [lia|].
  destruct filename as [|c s]; [discriminate|]. cbn in E.
  apply andb_true_iff in E as [Hc E].
  apply filename_tail_spec in E as (stem & -> & Hs). eauto.
Qed.

Lemma shaped_filename_valid (c : char16) (stem : jsstring) :
  length (c :: stem ++ js ".js") <= 255 ->
  is_alnum c = true -> List.forallb is_filename_char stem = true ->
  isValidFilename (c :: stem ++ js ".js") = true.
Proof.
  intros Hlen Hc Hs. unfold isValidFilename.
  assert (Hall : List.forallb is_filename_char (c :: stem ++ js ".js")
                 = true).
  { cbn [List.forallb]. rewrite List.forallb_app, Hs. unfold is_filename_char.
    now rewrite Hc. }
  cbn [length Nat.eqb].
  destruct (Nat.ltb_spec 255 (S (length (stem ++ js ".js"))));
    [cbn [length] in Hlen; lia|].
  rewrite (filename_chars_exclude c_NUL _ eq_refl Hall),
    (filename_chars_exclude 47%N _ eq_refl Hall),
    (filename_chars_exclude c_backslash _ eq_refl Hall).
  assert (Hdots : str_eqb (c :: stem ++ js ".js") (js ".")
                  || str_eqb (c :: stem ++ js ".js") (js "..") = false).
  { destruct stem as [|? [|? ?]]; cbn; now rewrite ?andb_false_r. }
  rewrite Hdots.
  assert (Hends : endsWith (c :: stem ++ js ".js") (js ".js") = true).
  { apply endsWith_suffix. now exists (c :: stem). }
  rewrite Hends. cbn [negb].
  assert (Hjs : str_eqb (c :: stem ++ js ".js") (js ".js") = false).
  { destruct (str_eqb_spec (c :: stem ++ js ".js") (js ".js")) as [E|];
      [|reflexivity].
    apply (f_equal (@length _)) in E. cbn [length] in E.
    rewrite List.length_app in E. cbn [length] in E. lia. }
  rewrite Hjs. cbn [validFilenamePattern_test]. rewrite Hc. cbn [andb].
  assert (Ht : filename_tail (stem ++ js ".js") = true)
    by (apply filename_tail_spec; eauto).
  now rewrite Ht.
Qed.

(** The code units of a valid file name are of the class of the
    pattern. *)
Lemma valid_filename_chars (filename : jsstring) :
  isValidFilename filename = true ->
  List.forallb is_filename_char filename = true.
Proof.
  intros H. apply valid_filename_shape in H as (_ & c & stem & -> & Hc & Hs).
  cbn [List.forallb]. rewrite List.forallb_app, Hs. unfold is_filename_char.
  now rewrite Hc.
Qed.

(** The checks of [isValidFilename] come down to its last one and the
    bound on the length: a file name is valid exactly when it has at most
    255 code units, starts with a letter or a digit, goes on with letters,
    digits, dots, underscores and dashes, and ends with [.js]. *)
Theorem isValidFilename_spec (filename : jsstring) :
  isValidFilename filename = true
  <-> length filename <= 255
      /\ exists c stem,
           filename = c :: stem ++ js ".js"
           /\ is_alnum c = true
           /\ List.forallb is_filename_char stem = true.
Proof.
  split; [apply valid_filename_shape|].
  intros (Hlen & c & stem & -> & Hc & Hs). now apply shaped_filename_valid.
Qed.

Lemma isValidFilename_spec_witness :
  isValidFilename (js "sw.min.js") = true.
Proof.
  apply (proj2 (isValidFilename_spec (js "sw.min.js"))).
  split; [cbn; lia|]. exists 115%N, (js "w.min"). repeat split.
Defined.

Lemma filename_char_not_ws (c : char16) :
  is_filename_char c = true -> is_ws c = false.
Proof.
  intros H. assert (R : (45 <= c <= 122)%N).
  { unfold is_filename_char, is_alnum, is_lower, is_upper, is_digit in H.
    repeat match type of H with
           | (_ || _)%bool = true => apply orb_true_iff in H as [H | H]
           | (_ && _)%bool = true =>
               let H1 := fresh in
               apply andb_true_iff in H as [H1 H];
               apply N.leb_le in H1; apply N.leb_le in H
           | (_ =? _)%N = true => apply N.eqb_eq in H
           end; lia. }
  unfold is_ws.
  repeat (apply orb_false_iff; split);
    first [ apply N.eqb_neq; lia
          | apply andb_false_iff; left; apply N.leb_gt; lia
          | apply andb_false_iff; right; apply N.leb_gt; lia ].
Qed.

(** A valid file name is not always a fixed point of [sanitizePath]: the
    pattern admits [..] inside a name.  A valid file name without [..]
    is. *)
Theorem isValidFilename_sanitizePath (filename : jsstring) :
  (isValidFilename filename = true ->
   includes filename (js "..") = false -> sanitizePath filename = filename)
  /\ isValidFilename (js "a..js") = true
  /\ sanitizePath (js "a..js") = js "ajs".
Proof.
  split; [|split; vm_compute; reflexivity].
  intros Hv Hdd. pose proof (valid_filename_chars _ Hv) as Hall.
  apply valid_filename_shape in Hv as (_ & c & stem & E & Hc & Hs).
  assert (Hnot : forall d, is_filename_char d = false ->
                           List.Forall (fun e => e <> d) filename).
  { intros d Hd. apply List.Forall_forall. intros e He ->.
    rewrite List.forallb_forall in Hall. specialize (Hall _ He). congruence. }
  assert (Hpair : forall a d, is_filename_char d = false ->
                              has_pair a d filename = false).
  { intros a d Hd. rewrite <- includes_pair.
    apply (includes_without d); [now right; left | now apply Hnot]. }
  apply sanitizePath_fixed.
  - split.
    + now apply Hnot.
    + now apply Hnot.
    + now rewrite <- includes_pair.
    + now apply Hpair.
    + now apply Hpair.
    + rewrite E. cbn [startsWith]. rewrite andb_true_r. apply N.eqb_neq.
      intros <-. discriminate.
    + destruct (endsWith filename [c_slash]) eqn:Ee; [|reflexivity].
      apply endsWith_suffix in Ee as [r Hr].
      pose proof (Hnot c_slash eq_refl) as Hn. rewrite Hr in Hn.
      apply List.Forall_app in Hn as [_ Hn]. inversion Hn; congruence.
  - apply trim_id, List.Forall_forall. intros e He.
    rewrite List.forallb_forall in Hall. apply filename_char_not_ws, Hall, He.
Qed.

Lemma isValidFilename_sanitizePath_witness :
  sanitizePath (js "service-worker.js") = js "service-worker.js".
Proof.
  apply (proj1 (isValidFilename_sanitizePath (js "service-worker.js")));
    vm_compute; reflexivity.
Defined.

End PathGuard.

Import PathGuard.

(* ===================================================================== *)
(** ** JavaScript values *)
(* ===================================================================== *)

Module JsValue.

(** Numbers.  The sources compare numbers with integer bounds, test them
    with [Number.isInteger] and print them; the embedding keeps the
    integer-valued ones by their value, a finite number that is not an
    integer as the decimal [m * 10^e] with [e < 0] and [m] not a multiple
    of ten, and the three values that are not finite.  Negative zero is
    not represented. *)
Inductive jsnumber : Type :=
  | NInt (z : Z)
  | NDec (m e : Z)
  | NNaN
  | NInfinity (negative : bool).

(** Values.  An object lists its own enumerable string-keyed properties in
    enumeration order; objects carry data only (no accessor, no [toJSON],
    nothing inherited under the names the sources read).  An object graph
    is kept as the tree a depth-first walk unfolds it into: a property
    whose value is one of the objects that enclose it is [VBack up], the
    [up]-th enclosing object or array counted from the nearest one. *)
#[warnings="-register-all"]
Inductive jsval : Type :=
  | VUndefined
  | VNull
  | VBool (b : bool)
  | VNumber (n : jsnumber)
  | VBigInt (z : Z)
  | VString (s : jsstring)
  | VSymbol (description : jsstring)
  | VFunction (text : jsstring)
  | VRegExp (source flags : jsstring)
  | VArray (items : list jsval)
  | VObject (props : list (jsstring * jsval))
  | VBack (up : nat).

(** The results of [typeof]. *)
Inductive jstype : Type :=
  | TUndefined | TObject | TBoolean | TNumber | TBigInt | TString | TSymbol
  | TFunction.

Definition typeof (v : jsval) : jstype :=
  match v with
  | VUndefined => TUndefined
  | VNull => TObject
  | VBool _ => TBoolean
  | VNumber _ => TNumber
  | VBigInt _ => TBigInt
  | VString _ => TString
  | VSymbol _ => TSymbol
  | VFunction _ => TFunction
  | VRegExp _ _ | VArray _ | VObject _ | VBack _ => TObject
  end.

Definition jstype_eqb (a b : jstype) : bool :=
  match a, b with
  | TUndefined, TUndefined | TObject, TObject | TBoolean, TBoolean
  | TNumber, TNumber | TBigInt, TBigInt | TString, TString
  | TSymbol, TSymbol | TFunction, TFunction => true
  | _, _ => false
  end.

Definition is_null (v : jsval) : bool :=
  match v with VNull => true | _ => false end.

Definition is_undefined (v : jsval) : bool :=
  match v with VUndefined => true | _ => false end.

(** Own property lookup in a property list. *)
Fixpoint lookup_prop (key : jsstring) (props : list (jsstring * jsval))
  : option jsval :=
  match props with
  | [] => None
  | (k, v) :: rest => if str_eqb k key then Some v else lookup_prop key rest
  end.

(** A value met during a walk, with the objects that enclose it (nearest
    first); what a back reference stands for is found there. *)
Definition located : Type := (jsval * list jsval)%type.

Definition resolve (enclosing : list jsval) (v : jsval) : located :=
  match v with
  | VBack up =>
      match List.skipn up enclosing with
      | target :: outer => (target, outer)
      | [] => (VUndefined, [])
      end
  | _ => (v, enclosing)
  end.

(** [o[key]] for the property names the sources read: only plain objects
    have them. *)
Definition get (o : located) (key : jsstring) : located :=
  match o with
  | (VObject props, enclosing) =>
      match lookup_prop key props with
      | Some v => resolve (VObject props :: enclosing) v
      | None => (VUndefined, [])
      end
  | _ => (VUndefined, [])
  end.

(** [Number.isInteger]. *)
Definition Number_isInteger (n : jsnumber) : bool :=
  match n with NInt _ => true | _ => false end.

(** [n > 0 && n <= bound] for an integer-valued [n]. *)
Definition positive_at_most (n : jsnumber) (bound : Z) : bool :=
  match n with
  | NInt z => (0 <? z)%Z && (z <=? bound)%Z
  | _ => false
  end.

(** [RegExp.prototype.toString]: the source between slashes, then the
    flags. *)
Definition RegExp_toString (source flags : jsstring) : jsstring :=
  c_slash :: source ++ c_slash :: flags.

End JsValue.

Import JsValue.

(* ===================================================================== *)
(** ** RuleSanitizer: [sanitizeRuntimeCachingRule] *)
(* ===================================================================== *)

Module RuleSanitizer.

Definition ALLOWED_HANDLERS : list jsstring :=
  [js "CacheFirst"; js "CacheOnly"; js "NetworkFirst"; js "NetworkOnly";
   js "StaleWhileRevalidate"].

(** [ALLOWED_HANDLERS.includes(handler)]. *)
Definition handler_allowed (h : jsstring) : bool :=
  List.existsb (str_eqb h) ALLOWED_HANDLERS.

(** [/^[a-zA-Z0-9_-]+$/.test(cacheName)]. *)
Definition is_cache_name_char (c : char16) : bool :=
  is_lower c || is_upper c || is_digit c || (c =? 95)%N || (c =? 45)%N.

Definition cache_name_pattern (s : jsstring) : bool :=
  match s with
  | [] => false
  | _ => List.forallb is_cache_name_char s
  end.

(** A number property that is an integer in [(0, bound]] is copied. *)
Definition bounded_integer_prop (o : located) (key : jsstring) (bound : Z)
  : list (jsstring * jsval) :=
  match fst (get o key) with
  | VNumber n =>
      if Number_isInteger n && positive_at_most n bound
      then [(key, VNumber n)] else []
  | _ => []
  end.

Definition sanitize_cacheName (options : located)
  : list (jsstring * jsval) :=
  match fst (get options (js "cacheName")) with
  | VString cacheName =>
      if cache_name_pattern cacheName && (length cacheName <=? 100)%nat
      then [(js "cacheName", VString cacheName)] else []
  | _ => []
  end.

Definition sanitize_expiration (options : located)
  : list (jsstring * jsval) :=
  let expiration := get options (js "expiration") in
  if jstype_eqb (typeof (fst expiration)) TObject
     && negb (is_null (fst expiration))
  then
    let sanitizedExpiration :=
      bounded_integer_prop expiration (js "maxEntries") 10000
      ++ bounded_integer_prop expiration (js "maxAgeSeconds") 31536000 in
    match sanitizedExpiration with
    | [] => []
    | _ => [(js "expiration", VObject sanitizedExpiration)]
    end
  else [].

Definition sanitize_options (ruleObj : located) : list (jsstring * jsval) :=
  let options := get ruleObj (js "options") in
  if negb (is_undefined (fst options))
     && jstype_eqb (typeof (fst options)) TObject
     && negb (is_null (fst options))
  then
    let sanitizedOptions :=
      sanitize_cacheName options
      ++ sanitize_expiration options
      ++ bounded_integer_prop options (js "networkTimeoutSeconds") 300 in
    match sanitizedOptions with
    | [] => []
    | _ => [(js "options", VObject sanitizedOptions)]
    end
  else [].

(** The [urlPattern] of the candidate as the sanitised string, [None] where
    the source returns [null]. *)
Definition sanitize_urlPattern (ruleObj : located) : option jsstring :=
  match fst (get ruleObj (js "urlPattern")) with
  | VString urlPattern =>
      if (length urlPattern =? 0)%nat then None
      else if includes urlPattern [c_NUL] then None
      else Some urlPattern
  | VRegExp source flags => Some (RegExp_toString source flags)
  | _ => None
  end.

(** [sanitizeRuntimeCachingRule(rule)]; [VNull] is the source's [null]. *)
Definition sanitizeRuntimeCachingRule (rule : jsval) : jsval :=
  if is_null rule || negb (jstype_eqb (typeof rule) TObject) then VNull
  else
    let ruleObj : located := (rule, []) in
    match sanitize_urlPattern ruleObj with
    | None => VNull
    | Some urlPattern =>
        match fst (get ruleObj (js "handler")) with
        | VString handler =>
            if negb (handler_allowed handler) then VNull
            else
              VObject ((js "urlPattern", VString urlPattern)
                       :: (js "handler", VString handler)
                       :: sanitize_options ruleObj)
        | _ => VNull
        end
    end.

(** *** The allow-list, read off a result *)






(** The candidate's [handler] is one of the five names. *)
Definition has_allowed_handler (rule : jsval) : bool :=
  match fst (get (rule, []) (js "handler")) with
  | VString h => handler_allowed h
  | _ => false
  end.






Definition example_rule : jsval :=
  VObject
    [(js "urlPattern", VString (js "/api/*"));
     (js "handler", VString (js "NetworkFirst"));
     (js "plugins", VArray [VFunction (js "() => eval(x)")]);
     (js "options",
      VObject
        [(js "cacheName", VString (js "my-cache"));
         (js "maliciousProp", VString (js "eval(attack)"));
         (js "expiration",
          VObject [(js "maxEntries", VNumber (NInt 100));
                   (js "maxAgeSeconds", VNumber (NInt (-100)));
                   (js "purgeOnQuotaError", VBool true)]);
         (js "networkTimeoutSeconds", VNumber (NInt 301))])].


(** The [urlPattern] property of a result. *)
Definition result_urlPattern (result : jsval) : option jsval :=
  match result with
  | VObject props => lookup_prop (js "urlPattern") props
  | _ => None
  end.

(** C8, as stated, fails: for the pattern [/^\/api\/.*/] the result holds
    the text of [toString()], with the two delimiting slashes, and not the
    source text of the pattern. *)
Lemma regexp_urlPattern_is_not_its_source :
  result_urlPattern
    (sanitizeRuntimeCachingRule
       (VObject [(js "urlPattern", VRegExp (js "^\/api\/.*") (js ""));
                 (js "handler", VString (js "CacheFirst"))]))
  = Some (VString (js "/^\/api\/.*/"))
  /\ result_urlPattern
       (sanitizeRuntimeCachingRule
          (VObject [(js "urlPattern", VRegExp (js "^\/api\/.*") (js ""));
                    (js "handler", VString (js "CacheFirst"))]))
     <> Some (VString (js "^\/api\/.*")).
Proof. split; [reflexivity | vm_compute; discriminate]. Qed.

(** C8 (amended): when the candidate's [urlPattern] is a compiled pattern
    and the result is not [null], the result's [urlPattern] is the text
    [pattern.toString()] gives: a slash, the source, a slash, the flags. *)
Theorem regexp_urlPattern_is_toString (candidate : jsval)
    (source flags : jsstring) :
  fst (get (candidate, []) (js "urlPattern")) = VRegExp source flags ->
  sanitizeRuntimeCachingRule candidate <> VNull ->
  result_urlPattern (sanitizeRuntimeCachingRule candidate)
  = Some (VString (js "/" ++ source ++ js "/" ++ flags)).
Proof.
  unfold sanitizeRuntimeCachingRule, sanitize_urlPattern. intros ->.
  destruct (_ || _); [congruence|].
  destruct (fst (get (candidate, []) _)); try congruence.
  destruct (negb _); [congruence|]. intros _. reflexivity.
Qed.

Lemma regexp_urlPattern_is_toString_witness :
  result_urlPattern
    (sanitizeRuntimeCachingRule
       (VObject [(js "urlPattern", VRegExp (js "\.(?:png|jpg)$") (js "i"));
                 (js "handler", VString (js "CacheFirst"))]))
  = Some (VString (js "/\.(?:png|jpg)$/i")).
Proof.
  apply (regexp_urlPattern_is_toString _ (js "\.(?:png|jpg)$") (js "i")).
  - reflexivity.
  - vm_compute; discriminate.
Defined.

(** C10: the NUL test guards string patterns only.  The candidate below
    has the compiled pattern [new RegExp("a\0b")], whose source holds a NUL
    code unit, and an allow-listed handler; the result is not [null] and
    its [urlPattern] holds the NUL. *)
Theorem regexp_urlPattern_keeps_nul :
  exists (candidate : jsval) (source flags urlPattern : jsstring),
    fst (get (candidate, []) (js "urlPattern")) = VRegExp source flags
    /\ includes source [c_NUL] = true
    /\ has_allowed_handler candidate = true
    /\ sanitizeRuntimeCachingRule candidate <> VNull
    /\ result_urlPattern (sanitizeRuntimeCachingRule candidate)
       = Some (VString urlPattern)
    /\ includes urlPattern [c_NUL] = true.
Proof.
  exists (VObject [(js "urlPattern", VRegExp [97; 0; 98]%N []);
                   (js "handler", VString (js "NetworkOnly"))]),
    [97; 0; 98]%N, [], [47; 97; 0; 98; 47]%N.
  repeat split; vm_compute; discriminate.
Qed.

(** By contrast a string pattern that holds a NUL is refused. *)
Lemma string_urlPattern_with_nul_is_null (candidate : jsval) (p : jsstring) :
  fst (get (candidate, []) (js "urlPattern")) = VString p ->
  includes p [c_NUL] = true ->
  sanitizeRuntimeCachingRule candidate = VNull.
Proof.
  unfold sanitizeRuntimeCachingRule, sanitize_urlPattern. intros -> ->.
  destruct (_ || _); [reflexivity|]. now destruct (length p =? 0)%nat.
Qed.

(** *** The result as a value of [SanitizedRuntimeCachingRule] *)

(** The interface [SanitizedRuntimeCachingRule]: the two required
    properties and the four optional ones. *)
Record SanitizedRuntimeCachingRule : Type := {
  rule_urlPattern : jsstring;
  rule_handler : jsstring;
  rule_cacheName : option jsstring;
  rule_maxEntries : option Z;
  rule_maxAgeSeconds : option Z;
  rule_networkTimeoutSeconds : option Z
}.

Definition optional_number (key : jsstring) (value : option Z)
  : list (jsstring * jsval) :=
  match value with
  | Some z => [(key, VNumber (NInt z))]
  | None => []
  end.

Definition optional_object (key : jsstring) (props : list (jsstring * jsval))
  : list (jsstring * jsval) :=
  match props with
  | [] => []
  | _ => [(key, VObject props)]
  end.

(** The object that stands for a rule of the interface: an optional
    property that is absent is left out, and so are [expiration] and
    [options] when nothing is left in them. *)
Definition rule_object (r : SanitizedRuntimeCachingRule) : jsval :=
  VObject
    ((js "urlPattern", VString (rule_urlPattern r))
     :: (js "handler", VString (rule_handler r))
     :: optional_object (js "options")
          (match rule_cacheName r with
           | Some name => [(js "cacheName", VString name)]
           | None => []
           end
           ++ optional_object (js "expiration")
                (optional_number (js "maxEntries") (rule_maxEntries r)
                 ++ optional_number (js "maxAgeSeconds")
                      (rule_maxAgeSeconds r))
           ++ optional_number (js "networkTimeoutSeconds")
                (rule_networkTimeoutSeconds r))).

Definition within (bound : Z) (value : option Z) : bool :=
  match value with
  | Some z => (0 <? z)%Z && (z <=? bound)%Z
  | None => true
  end.

(** The conditions under which the sanitizer copies each property. *)
Definition rule_validated (r : SanitizedRuntimeCachingRule) : bool :=
  negb (length (rule_urlPattern r) =? 0)%nat
  && handler_allowed (rule_handler r)
  && match rule_cacheName r with
     | Some name => cache_name_pattern name && (length name <=? 100)%nat
     | None => true
     end
  && within 10000 (rule_maxEntries r)
  && within 31536000 (rule_maxAgeSeconds r)
  && within 300 (rule_networkTimeoutSeconds r).

Lemma bounded_integer_prop_value o key bound :
  exists value,
    bounded_integer_prop o key bound = optional_number key value
    /\ within bound value = true.
Proof.
  unfold bounded_integer_prop.
  destruct (fst (get o key)) as [| | |n| | | | | | | |];
    try (now exists None).
  destruct n as [z| | |]; cbn [Number_isInteger positive_at_most andb];
    try (now exists None).
  destruct ((0 <? z)%Z && (z <=? bound)%Z) eqn:E; [|now exists None].
  now exists (Some z).
Qed.

Lemma sanitize_cacheName_value o :
  exists name,
    sanitize_cacheName o
    = match name with
      | Some name => [(js "cacheName", VString name)]
      | None => []
      end
    /\ match name with
       | Some name => cache_name_pattern name && (length name <=? 100)%nat
       | None => true
       end = true.
Proof.
  unfold sanitize_cacheName.
  destruct (fst (get o _)) as [| | | | |s| | | | | |]; try (now exists None).
  destruct (cache_name_pattern s && (length s <=? 100)%nat) eqn:E;
    [now exists (Some s) | now exists None].
Qed.

Lemma sanitize_urlPattern_nonempty o p :
  sanitize_urlPattern o = Some p -> (length p =? 0)%nat = false.
Proof.
  unfold sanitize_urlPattern.
  destruct (fst (get o _)) as [| | | | |s| | |source flags| | |];
    try discriminate.
  - destruct (length s =? 0)%nat eqn:E; [discriminate|].
    destruct (includes s [c_NUL]); [discriminate|]. now intros [= <-].
  - now intros [= <-].
Qed.

Lemma sanitized_is_rule_object (candidate : jsval) :
  sanitizeRuntimeCachingRule candidate <> VNull ->
  exists r, sanitizeRuntimeCachingRule candidate = rule_object r
            /\ rule_validated r = true.
Proof.
  unfold sanitizeRuntimeCachingRule.
  destruct (_ || _); [congruence|].
  destruct (sanitize_urlPattern (candidate, [])) as [p|] eqn:Ep;
    [|congruence].
  apply sanitize_urlPattern_nonempty in Ep.
  destruct (fst (get (candidate, []) (js "handler")))
    as [| | | | |h| | | | | |]; try congruence.
  destruct (handler_allowed h) eqn:Eh; cbn [negb]; [|congruence]. intros _.
  unfold sanitize_options, sanitize_expiration.
  set (options := get (candidate, []) (js "options")).
  set (expiration := get options (js "expiration")).
  destruct (sanitize_cacheName_value options) as (name & -> & Hname).
  destruct (bounded_integer_prop_value options (js "networkTimeoutSeconds") 300)
    as (timeout & -> & Htimeout).
  destruct (bounded_integer_prop_value expiration (js "maxEntries") 10000)
    as (entries & -> & Hentries).
  destruct (bounded_integer_prop_value expiration (js "maxAgeSeconds") 31536000)
    as (age & -> & Hage).
  destruct (negb (is_undefined (fst options))
            && jstype_eqb (typeof (fst options)) TObject
            && negb (is_null (fst options))).
  - destruct (jstype_eqb (typeof (fst expiration)) TObject
              && negb (is_null (fst expiration))).
    + exists {| rule_urlPattern := p; rule_handler := h;
                rule_cacheName := name; rule_maxEntries := entries;
                rule_maxAgeSeconds := age;
                rule_networkTimeoutSeconds := timeout |}.
      split; [reflexivity|]. unfold rule_validated.
      cbn [rule_urlPattern rule_handler rule_cacheName rule_maxEntries
           rule_maxAgeSeconds rule_networkTimeoutSeconds].
      now rewrite Ep, Eh, Hname, Hentries, Hage, Htimeout.
    + exists {| rule_urlPattern := p; rule_handler := h;
                rule_cacheName := name; rule_maxEntries := None;
                rule_maxAgeSeconds := None;
                rule_networkTimeoutSeconds := timeout |}.
      split; [reflexivity|]. unfold rule_validated.
      cbn [rule_urlPattern rule_handler rule_cacheName rule_maxEntries
           rule_maxAgeSeconds rule_networkTimeoutSeconds].
      now rewrite Ep, Eh, Hname, Htimeout.
  - exists {| rule_urlPattern := p; rule_handler := h;
              rule_cacheName := None; rule_maxEntries := None;
              rule_maxAgeSeconds := None;
              rule_networkTimeoutSeconds := None |}.
    split; [reflexivity|]. unfold rule_validated.
    cbn [rule_urlPattern rule_handler rule_cacheName rule_maxEntries
         rule_maxAgeSeconds rule_networkTimeoutSeconds].
    now rewrite Ep, Eh.
Qed.

(** Every result other than [null] is a rule of the interface
    [SanitizedRuntimeCachingRule] whose properties have passed the checks:
    a non-empty [urlPattern], one of the five handlers, a [cacheName] of at
    most 100 letters, digits, underscores and dashes, and integers within
    [1..10000], [1..31536000] and [1..300] for [maxEntries],
    [maxAgeSeconds] and [networkTimeoutSeconds]. *)
Theorem sanitizeRuntimeCachingRule_validated (candidate : jsval) :
  sanitizeRuntimeCachingRule candidate <> VNull ->
  exists r, sanitizeRuntimeCachingRule candidate = rule_object r
            /\ rule_validated r = true.
Proof. apply sanitized_is_rule_object. Qed.

Lemma sanitizeRuntimeCachingRule_validated_witness :
  exists r, sanitizeRuntimeCachingRule example_rule = rule_object r
            /\ rule_validated r = true.
Proof.
  apply (sanitizeRuntimeCachingRule_validated example_rule).
  vm_compute. discriminate.
Defined.

(** *** Sanitising twice *)

Lemma within_bounded (bound : Z) (z : Z) :
  within bound (Some z) = true ->
  Number_isInteger (NInt z) && positive_at_most (NInt z) bound = true.
Proof. trivial. Qed.

(** A validated rule whose [urlPattern] holds no NUL is sanitised to
    itself. *)
Lemma sanitize_rule_object (r : SanitizedRuntimeCachingRule) :
  rule_validated r = true -> includes (rule_urlPattern r) [c_NUL] = false ->
  sanitizeRuntimeCachingRule (rule_object r) = rule_object r.
Proof.
  destruct r as [p h name entries age timeout]. unfold rule_validated.
  cbn [rule_urlPattern rule_handler rule_cacheName rule_maxEntries
       rule_maxAgeSeconds rule_networkTimeoutSeconds].
  intros H Hnul.
  repeat (apply andb_true_iff in H as [H ?]).
  apply negb_true_iff in H.
  unfold sanitizeRuntimeCachingRule, rule_object, sanitize_urlPattern.
  cbn [is_null typeof jstype_eqb orb negb get lookup_prop str_eqb N.eqb
       Pos.eqb andb resolve fst
       rule_urlPattern rule_handler rule_cacheName rule_maxEntries
       rule_maxAgeSeconds rule_networkTimeoutSeconds].
  rewrite H, Hnul.
  match goal with H : handler_allowed h = true |- _ => rewrite H end.
  cbn [negb]. do 3 f_equal.
  unfold sanitize_options, sanitize_expiration, sanitize_cacheName,
    bounded_integer_prop.
  destruct name as [name|], entries as [entries|], age as [age|],
    timeout as [timeout|];
    cbn [optional_object optional_number app get lookup_prop str_eqb N.eqb
         Pos.eqb andb resolve fst is_undefined is_null typeof jstype_eqb
         negb];
    repeat match goal with
           | H : within _ (Some _) = true |- _ =>
               apply within_bounded in H; rewrite H
           | H : cache_name_pattern _ && _ = true |- _ => rewrite H
           end;
    reflexivity.
Qed.

(** Sanitising a result again returns it unchanged, provided the
    [urlPattern] of the result holds no NUL; the result for a compiled
    pattern whose source holds a NUL is refused the second time. *)
Theorem sanitizeRuntimeCachingRule_idempotent (candidate : jsval) :
  ((forall p, result_urlPattern (sanitizeRuntimeCachingRule candidate)
              = Some (VString p) -> includes p [c_NUL] = false) ->
   sanitizeRuntimeCachingRule (sanitizeRuntimeCachingRule candidate)
   = sanitizeRuntimeCachingRule candidate)
  /\ (let nul_rule :=
        VObject [(js "urlPattern", VRegExp [97; 0; 98]%N []);
                 (js "handler", VString (js "NetworkOnly"))] in
      sanitizeRuntimeCachingRule nul_rule <> VNull
      /\ sanitizeRuntimeCachingRule (sanitizeRuntimeCachingRule nul_rule)
         = VNull).
Proof.
  split; [|split; vm_compute; [discriminate | reflexivity]].
  intros Hnul.
  destruct (sanitizeRuntimeCachingRule candidate) eqn:E;
    try (destruct (sanitized_is_rule_object candidate)
           as (r & Hr & Hv); [congruence|];
         rewrite E in Hr; rewrite Hr in *;
         apply sanitize_rule_object; [exact Hv | apply Hnul; reflexivity]).
  reflexivity.
Qed.

Lemma sanitizeRuntimeCachingRule_idempotent_witness :
  sanitizeRuntimeCachingRule (sanitizeRuntimeCachingRule example_rule)
  = sanitizeRuntimeCachingRule example_rule.
Proof.
  apply (proj1 (sanitizeRuntimeCachingRule_idempotent example_rule)).
  intros p. vm_compute. intros [= <-]. reflexivity.
Defined.

End RuleSanitizer.

Import RuleSanitizer.

(* ===================================================================== *)
(** ** CacheStrategies: [mergeRuntimeCaching] *)
(* ===================================================================== *)

Module CacheStrategies.

(** [RuntimeCachingRule["urlPattern"]]: a string, a compiled pattern or a
    matcher function (kept by its source text, all that the merge reads of
    it). *)
Inductive url_pattern : Type :=
  | PString (s : jsstring)
  | PRegExp (source flags : jsstring)
  | PFunction (text : jsstring).

Record RuntimeCachingRule : Type := {
  urlPattern : url_pattern;
  handler : jsstring;
  method : option jsstring;
  options : jsval
}.

(** [normalizeUrlPattern]; its last line, [String(pattern)], is out of
    reach for a pattern of the declared type. *)
Definition normalizeUrlPattern (pattern : url_pattern) : jsstring :=
  match pattern with
  | PString s => s
  | PRegExp source _ => source
  | PFunction text => text
  end.

(** Arrays and sets are objects with an identity: they live in a store,
    and a variable of the source holds a location.  The merge is run on
    such a store so that what it writes, and what it leaves alone, can be
    read off. *)
Inductive cell : Type :=
  | CRules (rules : list RuntimeCachingRule)
  | CStrings (strings : list jsstring)
  | CSet (members : gset (list N)).

Abbreviation loc := positive.
Abbreviation store := (gmap positive cell).

(** Store-passing computations; [None] is a [TypeError] (a location that
    does not hold what the operation needs). *)
Definition M (A : Type) : Type := store -> option (A * store).

#[global] Instance M_ret : MRet M := fun A a st => Some (a, st).

#[global] Instance M_bind : MBind M := fun A B k m st =>
  match m st with
  | Some (a, st') => k a st'
  | None => None
  end.

(** A new object gets a location the store does not use yet. *)
Definition alloc (c : cell) : M loc :=
  fun st => let l := fresh (dom st) in Some (l, <[l := c]> st).

Definition read_rules (l : loc) : M (list RuntimeCachingRule) :=
  fun st => match st !! l with
            | Some (CRules rules) => Some (rules, st)
            | _ => None
            end.

Definition read_strings (l : loc) : M (list jsstring) :=
  fun st => match st !! l with
            | Some (CStrings strings) => Some (strings, st)
            | _ => None
            end.

Definition read_set (l : loc) : M (gset (list N)) :=
  fun st => match st !! l with
            | Some (CSet members) => Some (members, st)
            | _ => None
            end.

(** [custom.map((rule) => normalizeUrlPattern(rule.urlPattern))] *)
Definition array_map_normalize (arr : loc) : M loc :=
  rules ← read_rules arr;
  alloc (CStrings (List.map (fun rule => normalizeUrlPattern (urlPattern rule))
                            rules)).

(** [new Set(iterable)] *)
Definition new_Set (arr : loc) : M loc :=
  strings ← read_strings arr;
  alloc (CSet (list_to_set strings)).

(** [defaults.filter((defaultRule) =>
       !customPatterns.has(normalizeUrlPattern(defaultRule.urlPattern)))] *)
Definition array_filter_not_in (arr customPatterns : loc) : M loc :=
  rules ← read_rules arr;
  members ← read_set customPatterns;
  alloc (CRules
           (List.filter
              (fun defaultRule =>
                 negb (bool_decide
                         (normalizeUrlPattern (urlPattern defaultRule)
                          ∈ members)))
              rules)).

(** [[...a, ...b]] *)
Definition array_spread2 (a b : loc) : M loc :=
  xs ← read_rules a;
  ys ← read_rules b;
  alloc (CRules (xs ++ ys)).

Definition mergeRuntimeCaching (custom defaults : loc) : M loc :=
  normalized ← array_map_normalize custom;
  customPatterns ← new_Set normalized;
  filteredDefaults ← array_filter_not_in defaults customPatterns;
  array_spread2 custom filteredDefaults.

(** The identity of a rule for the merge. *)
Definition identity (rule : RuntimeCachingRule) : jsstring :=
  normalizeUrlPattern (urlPattern rule).

(** In the words of the specification: a default is overridden when its
    identity is the identity of some custom rule, and the merged list is
    the custom rules followed by the defaults that are not overridden. *)
Definition overridden (custom : list RuntimeCachingRule)
  (defaultRule : RuntimeCachingRule) : bool :=
  List.existsb (fun rule => str_eqb (identity rule) (identity defaultRule))
               custom.

Definition merged_spec (custom defaults : list RuntimeCachingRule)
  : list RuntimeCachingRule :=
  custom ++ List.filter (fun d => negb (overridden custom d)) defaults.

(** The identity as the specification states it: a string as it is, a
    compiled pattern by its source, a function by its text. *)
Definition stated_identity (rule : RuntimeCachingRule) : jsstring :=
  match urlPattern rule with
  | PString s => s
  | PRegExp source _ => source
  | PFunction text => text
  end.

(** A default whose stated identity is the stated identity of some custom
    rule. *)
Definition overridden_as_stated (custom : list RuntimeCachingRule)
  (defaultRule : RuntimeCachingRule) : bool :=
  List.existsb
    (fun rule =>
       str_eqb (stated_identity rule) (stated_identity defaultRule))
    custom.

(** *** Running the merge *)

Lemma bind_run {A B} (m : M A) (k : A → M B) st a st' :
  m st = Some (a, st') → (m ≫= k) st = k a st'.
Proof. unfold mbind, M_bind. now intros ->. Qed.

Lemma alloc_run (c : cell) (st : store) :
  ∃ l, alloc c st = Some (l, <[l := c]> st) ∧ st !! l = None.
Proof.
  exists (fresh (dom st)). split; [reflexivity|].
  apply not_elem_of_dom, is_fresh.
Qed.

Lemma read_rules_run (st : store) l rules :
  st !! l = Some (CRules rules) → read_rules l st = Some (rules, st).
Proof. unfold read_rules. now intros ->. Qed.

Lemma array_map_normalize_run (st : store) arr rules :
  st !! arr = Some (CRules rules) →
  ∃ l, array_map_normalize arr st
       = Some (l, <[l := CStrings (List.map identity rules)]> st)
       ∧ st !! l = None.
Proof.
  intros H. unfold array_map_normalize.
  rewrite (bind_run _ _ _ _ _ (read_rules_run _ _ _ H)). apply alloc_run.
Qed.

Lemma new_Set_run (st : store) arr strings :
  st !! arr = Some (CStrings strings) →
  ∃ l, new_Set arr st = Some (l, <[l := CSet (list_to_set strings)]> st)
       ∧ st !! l = None.
Proof.
  intros H. unfold new_Set.
  erewrite bind_run; [apply alloc_run|]. unfold read_strings. now rewrite H.
Qed.

Lemma array_filter_not_in_run (st : store) arr set rules members :
  st !! arr = Some (CRules rules) → st !! set = Some (CSet members) →
  ∃ l, array_filter_not_in arr set st
       = Some (l, <[l := CRules
                      (List.filter
                         (λ d, negb (bool_decide (identity d ∈ members)))
                         rules)]> st)
       ∧ st !! l = None.
Proof.
  intros Ha Hs. unfold array_filter_not_in.
  rewrite (bind_run _ _ _ _ _ (read_rules_run _ _ _ Ha)).
  erewrite bind_run; [apply alloc_run|]. unfold read_set. now rewrite Hs.
Qed.

Lemma array_spread2_run (st : store) a b xs ys :
  st !! a = Some (CRules xs) → st !! b = Some (CRules ys) →
  ∃ l, array_spread2 a b st = Some (l, <[l := CRules (xs ++ ys)]> st)
       ∧ st !! l = None.
Proof.
  intros Ha Hb. unfold array_spread2.
  rewrite (bind_run _ _ _ _ _ (read_rules_run _ _ _ Ha)).
  rewrite (bind_run _ _ _ _ _ (read_rules_run _ _ _ Hb)). apply alloc_run.
Qed.

(** Membership in the set of custom identities is the specification's
    [overridden]. *)
Lemma has_identity_overridden custom d :
  bool_decide (identity d ∈ (list_to_set (List.map identity custom)
                             : gset (list N)))
  = overridden custom d.
Proof.
  unfold overridden. apply eq_true_iff_eq.
  rewrite bool_decide_eq_true, elem_of_list_to_set, existsb_exists.
  rewrite list_elem_of_In, in_map_iff. split.
  - intros (rule & Heq & Hin). exists rule. split; [exact Hin|].
    rewrite Heq. apply str_eqb_refl.
  - intros (rule & Hin & Heq). exists rule. split; [|exact Hin].
    now destruct (str_eqb_spec (identity rule) (identity d)).
Qed.

(** The merge succeeds on two arrays of rules; its result is a new array
    that holds [merged_spec], and every cell of the store it started from
    is as it was. *)
Lemma mergeRuntimeCaching_run (st : store) custom defaults cs ds :
  st !! custom = Some (CRules cs) → st !! defaults = Some (CRules ds) →
  ∃ result st',
    mergeRuntimeCaching custom defaults st = Some (result, st')
    ∧ st' !! result = Some (CRules (merged_spec cs ds))
    ∧ st !! result = None
    ∧ st ⊆ st'.
Proof.
  intros Hc Hd. unfold mergeRuntimeCaching.
  destruct (array_map_normalize_run st custom cs Hc) as (l1 & E1 & F1).
  rewrite (bind_run _ _ _ _ _ E1).
  set (st1 := <[l1 := CStrings (List.map identity cs)]> st) in *.
  assert (S1 : st ⊆ st1) by now apply insert_subseteq.
  destruct (new_Set_run st1 l1 _ (lookup_insert_eq _ _ _)) as (l2 & E2 & F2).
  rewrite (bind_run _ _ _ _ _ E2).
  set (st2 := <[l2 := _]> st1) in *.
  assert (S2 : st1 ⊆ st2) by now apply insert_subseteq.
  destruct (array_filter_not_in_run st2 defaults l2 ds _
              (lookup_weaken _ _ _ _ Hd (transitivity S1 S2))
              (lookup_insert_eq _ _ _)) as (l3 & E3 & F3).
  rewrite (bind_run _ _ _ _ _ E3).
  set (st3 := <[l3 := _]> st2) in *.
  assert (S3 : st2 ⊆ st3) by now apply insert_subseteq.
  destruct (array_spread2_run st3 custom l3 cs _
              (lookup_weaken _ _ _ _ Hc
                 (transitivity S1 (transitivity S2 S3)))
              (lookup_insert_eq _ _ _)) as (l4 & E4 & F4).
  exists l4, (<[l4 := CRules
                 (cs ++ List.filter
                    (λ d, negb (bool_decide
                       (identity d ∈ (list_to_set (List.map identity cs)
                                      : gset (list N))))) ds)]> st3).
  split; [exact E4|]. split; [|split].
  - rewrite lookup_insert_eq. unfold merged_spec. do 3 f_equal.
    apply filter_ext. intros d. now rewrite has_identity_overridden.
  - destruct (st !! l4) eqn:E; [|reflexivity].
    rewrite (lookup_weaken _ _ _ _ E
               (transitivity S1 (transitivity S2 S3))) in F4. discriminate.
  - transitivity st3; [|now apply insert_subseteq].
    transitivity st2; [|exact S3]. now transitivity st1.
Qed.

(** What [normalizeUrlPattern] computes is the identity that the
    specification states. *)
Lemma identity_as_stated (rule : RuntimeCachingRule) :
  identity rule = stated_identity rule.
Proof.
  unfold identity, stated_identity. now destruct (urlPattern rule).
Qed.

Lemma overridden_is_as_stated (custom : list RuntimeCachingRule)
    (d : RuntimeCachingRule) :
  overridden custom d = overridden_as_stated custom d.
Proof.
  unfold overridden, overridden_as_stated. rewrite identity_as_stated.
  induction custom as [|rule custom IH]; [reflexivity|].
  cbn [List.existsb]. now rewrite identity_as_stated, IH.
Qed.

(** C2: on two arrays of rules the merge returns a new array that holds
    the custom rules in their order followed, in their order, by the
    defaults whose identity (a string as it is, the source of a compiled
    pattern, the text of a function) is the identity of no custom rule;
    its length is the number of custom rules plus the number of such
    defaults; both input arrays, and every other cell of the store, are
    left as they were. *)
Theorem mergeRuntimeCaching_spec (st : store) custom defaults cs ds :
  st !! custom = Some (CRules cs) → st !! defaults = Some (CRules ds) →
  ∃ result st' merged,
    mergeRuntimeCaching custom defaults st = Some (result, st')
    ∧ st' !! result = Some (CRules merged)
    ∧ merged = cs ++ List.filter (λ d, negb (overridden_as_stated cs d)) ds
    ∧ length merged
      = length cs
        + length (List.filter (λ d, negb (overridden_as_stated cs d)) ds)
    ∧ st' !! custom = Some (CRules cs)
    ∧ st' !! defaults = Some (CRules ds)
    ∧ st !! result = None
    ∧ st ⊆ st'.
Proof.
  intros Hc Hd.
  destruct (mergeRuntimeCaching_run st custom defaults cs ds Hc Hd)
    as (result & st' & Hrun & Hres & Hfresh & Hsub).
  assert (Hstated : merged_spec cs ds
                    = cs ++ List.filter
                              (λ d, negb (overridden_as_stated cs d)) ds).
  { unfold merged_spec. apply (f_equal (app cs)), filter_ext. intros d.
    now rewrite overridden_is_as_stated. }
  exists result, st', (merged_spec cs ds).
  repeat split; try assumption.
  - rewrite Hstated. now rewrite length_app.
  - exact (lookup_weaken _ _ _ _ Hc Hsub).
  - exact (lookup_weaken _ _ _ _ Hd Hsub).
Qed.

Definition rule_of (pattern : url_pattern) (h : jsstring)
  : RuntimeCachingRule :=
  {| urlPattern := pattern; handler := h; method := None;
     options := VUndefined |}.

Definition example_custom : list RuntimeCachingRule :=
  [rule_of (PString (js "^/api/.*")) (js "CacheFirst");
   rule_of (PRegExp (js "\.(?:png|jpg)$") (js "i")) (js "CacheOnly")].

Definition example_defaults : list RuntimeCachingRule :=
  [rule_of (PString (js "^https://fonts\.gstatic\.com/.*")) (js "CacheFirst");
   rule_of (PString (js "^/api/.*")) (js "NetworkFirst");
   rule_of (PString (js "\.(?:png|jpg)$")) (js "CacheFirst");
   rule_of (PString (js ".*")) (js "NetworkFirst")].

Definition example_store : store :=
  <[1%positive := CRules example_custom]>
    (<[2%positive := CRules example_defaults]> ∅).

Lemma mergeRuntimeCaching_spec_witness :
  ∃ result st' merged,
    mergeRuntimeCaching 1%positive 2%positive example_store
    = Some (result, st')
    ∧ st' !! result = Some (CRules merged)
    ∧ merged
      = example_custom
        ++ List.filter (λ d, negb (overridden_as_stated example_custom d))
             example_defaults
    ∧ length merged
      = length example_custom
        + length
            (List.filter (λ d, negb (overridden_as_stated example_custom d))
               example_defaults)
    ∧ st' !! 1%positive = Some (CRules example_custom)
    ∧ st' !! 2%positive = Some (CRules example_defaults)
    ∧ example_store !! result = None
    ∧ example_store ⊆ st'.
Proof.
  apply (mergeRuntimeCaching_spec example_store 1 2
           example_custom example_defaults); vm_compute; reflexivity.
Defined.

(** C7, as stated, fails: the merge does not look for repeated identities
    inside [custom] (nor inside [defaults]); with the same rule twice in
    [custom] the merged list holds it twice. *)
Lemma merged_list_repeats_identity :
  let rule := rule_of (PString (js "^/api/.*")) (js "CacheFirst") in
  let st : store :=
    <[1%positive := CRules [rule; rule]]> (<[2%positive := CRules []]> ∅) in
  ∃ result st',
    mergeRuntimeCaching 1%positive 2%positive st = Some (result, st')
    ∧ st' !! result = Some (CRules [rule; rule])
    ∧ ¬ List.NoDup (List.map identity [rule; rule]).
Proof.
  intros rule st.
  destruct (mergeRuntimeCaching_run st 1 2 [rule; rule] [])
    as (result & st' & Hrun & Hres & _); [reflexivity .. |].
  exists result, st'. repeat split; try assumption.
  intros H. inversion H as [|? ? Hin _]. apply Hin. now left.
Qed.

Lemma NoDup_identities_filter (p : RuntimeCachingRule → bool) rules :
  List.NoDup (List.map identity rules) →
  List.NoDup (List.map identity (List.filter p rules)).
Proof.
  induction rules as [|r rules IH]; [trivial|]. cbn [List.map List.filter].
  intros H. apply List.NoDup_cons_iff in H as [Hin H].
  destruct (p r); [|auto]. cbn [List.map]. apply List.NoDup_cons_iff.
  split; [|auto]. intros Hin'. apply Hin.
  apply List.in_map_iff in Hin' as (x & Hx & Hin').
  apply List.filter_In in Hin' as [Hin' _].
  apply List.in_map_iff. eauto.
Qed.

(** C7 (amended): no default kept by the merge shares its identity with a
    custom rule; hence, when the identities are pairwise distinct inside
    [custom] and pairwise distinct inside [defaults], they are pairwise
    distinct in the merged list. *)
Theorem mergeRuntimeCaching_distinct_identities
    (st : store) custom defaults cs ds :
  st !! custom = Some (CRules cs) → st !! defaults = Some (CRules ds) →
  List.NoDup (List.map identity cs) → List.NoDup (List.map identity ds) →
  ∃ result st' merged,
    mergeRuntimeCaching custom defaults st = Some (result, st')
    ∧ st' !! result = Some (CRules merged)
    ∧ List.NoDup (List.map identity merged).
Proof.
  intros Hc Hd Nc Nd.
  destruct (mergeRuntimeCaching_run st custom defaults cs ds Hc Hd)
    as (result & st' & Hrun & Hres & _).
  exists result, st', (merged_spec cs ds).
  repeat split; try assumption.
  unfold merged_spec. rewrite List.map_app.
  apply List.NoDup_app; [exact Nc | now apply NoDup_identities_filter |].
  intros x Hx Hx'.
  apply List.in_map_iff in Hx as (c & Hcx & Hcin).
  apply List.in_map_iff in Hx' as (d & Hdx & Hdin).
  apply List.filter_In in Hdin as [_ Hov].
  apply negb_true_iff in Hov. unfold overridden in Hov.
  assert (T : List.existsb (λ rule, str_eqb (identity rule) (identity d)) cs
              = true); [|congruence].
  apply List.existsb_exists. exists c. split; [exact Hcin|].
  rewrite Hcx, Hdx. apply str_eqb_refl.
Qed.

Lemma mergeRuntimeCaching_distinct_identities_witness :
  ∃ result st' merged,
    mergeRuntimeCaching 1%positive 2%positive example_store
    = Some (result, st')
    ∧ st' !! result = Some (CRules merged)
    ∧ List.NoDup (List.map identity merged).
Proof.
  apply (mergeRuntimeCaching_distinct_identities example_store 1 2
           example_custom example_defaults).
  - vm_compute; reflexivity.
  - vm_compute; reflexivity.
  - repeat (apply List.NoDup_cons; [vm_compute; intuition discriminate|]).
    apply List.NoDup_nil.
  - repeat (apply List.NoDup_cons; [vm_compute; intuition discriminate|]).
    apply List.NoDup_nil.
Defined.

(** *** Further properties of the merge *)

Lemma merged_spec_no_custom defaults : merged_spec [] defaults = defaults.
Proof.
  unfold merged_spec. cbn [app overridden List.existsb negb].
  induction defaults as [|d ds IH]; [reflexivity|]. cbn [List.filter].
  now rewrite IH.
Qed.

Lemma merged_spec_no_defaults custom : merged_spec custom [] = custom.
Proof. unfold merged_spec. cbn [List.filter]. apply app_nil_r. Qed.

(** With no custom rule the merged array holds the defaults, all of them
    and in their order; with no default it holds the custom rules.  In
    both cases it is a new array. *)
Theorem mergeRuntimeCaching_empty_input (st : store) custom defaults rules :
  (st !! custom = Some (CRules []) → st !! defaults = Some (CRules rules) →
   ∃ result st',
     mergeRuntimeCaching custom defaults st = Some (result, st')
     ∧ st' !! result = Some (CRules rules) ∧ st !! result = None)
  ∧ (st !! custom = Some (CRules rules) → st !! defaults = Some (CRules []) →
     ∃ result st',
       mergeRuntimeCaching custom defaults st = Some (result, st')
       ∧ st' !! result = Some (CRules rules) ∧ st !! result = None).
Proof.
  split; intros Hc Hd;
    destruct (mergeRuntimeCaching_run st custom defaults _ _ Hc Hd)
      as (result & st' & Hrun & Hres & Hfresh & _);
    exists result, st'; repeat split; try assumption.
  - now rewrite merged_spec_no_custom in Hres.
  - now rewrite merged_spec_no_defaults in Hres.
Qed.

Lemma mergeRuntimeCaching_empty_input_witness :
  ∃ result st',
    mergeRuntimeCaching 1%positive 2%positive
      (<[1%positive := CRules []]>
         (<[2%positive := CRules example_defaults]> ∅))
    = Some (result, st')
    ∧ st' !! result = Some (CRules example_defaults)
    ∧ (<[1%positive := CRules []]>
         (<[2%positive := CRules example_defaults]> ∅) : store) !! result
      = None.
Proof.
  apply (proj1 (mergeRuntimeCaching_empty_input _ 1 2 example_defaults));
    vm_compute; reflexivity.
Defined.

Lemma overridden_by_itself custom rule :
  In rule custom → overridden custom rule = true.
Proof.
  intros Hin. unfold overridden. apply List.existsb_exists.
  exists rule. split; [exact Hin | apply str_eqb_refl].
Qed.

Lemma filter_all_false {A} (p : A → bool) (l : list A) :
  (∀ x, In x l → p x = false) → List.filter p l = [].
Proof.
  induction l as [|x l IH]; [reflexivity|]. intros H. cbn [List.filter].
  rewrite (H x) by now left. apply IH. intros y Hy. apply H. now right.
Qed.

Lemma filter_twice {A} (p : A → bool) (l : list A) :
  List.filter p (List.filter p l) = List.filter p l.
Proof.
  induction l as [|x l IH]; [reflexivity|]. cbn [List.filter].
  destruct (p x) eqn:E; [|exact IH]. cbn [List.filter]. now rewrite E, IH.
Qed.

Lemma merged_spec_again custom defaults :
  merged_spec custom (merged_spec custom defaults)
  = merged_spec custom defaults.
Proof.
  unfold merged_spec at 1 3. f_equal. unfold merged_spec.
  rewrite List.filter_app, filter_twice, filter_all_false; [reflexivity|].
  intros c Hc. now rewrite (overridden_by_itself _ _ Hc).
Qed.

(** Merging the custom rules into a merged array once more gives a new
    array with the same rules: the custom rules override their own copies,
    and the defaults that were kept are kept. *)
Theorem mergeRuntimeCaching_again (st : store) custom defaults cs ds :
  st !! custom = Some (CRules cs) → st !! defaults = Some (CRules ds) →
  ∃ first st1 second st2 merged,
    mergeRuntimeCaching custom defaults st = Some (first, st1)
    ∧ mergeRuntimeCaching custom first st1 = Some (second, st2)
    ∧ st1 !! first = Some (CRules merged)
    ∧ st2 !! second = Some (CRules merged)
    ∧ st2 !! first = Some (CRules merged)
    ∧ second ≠ first.
Proof.
  intros Hc Hd.
  destruct (mergeRuntimeCaching_run st custom defaults cs ds Hc Hd)
    as (first & st1 & Hrun1 & Hres1 & _ & Hsub1).
  destruct (mergeRuntimeCaching_run st1 custom first cs _
              (lookup_weaken _ _ _ _ Hc Hsub1) Hres1)
    as (second & st2 & Hrun2 & Hres2 & Hfresh2 & Hsub2).
  exists first, st1, second, st2, (merged_spec cs ds).
  repeat split; try assumption.
  - now rewrite merged_spec_again in Hres2.
  - exact (lookup_weaken _ _ _ _ Hres1 Hsub2).
  - intros ->. congruence.
Qed.

Lemma mergeRuntimeCaching_again_witness :
  ∃ first st1 second st2 merged,
    mergeRuntimeCaching 1%positive 2%positive example_store
    = Some (first, st1)
    ∧ mergeRuntimeCaching 1%positive first st1 = Some (second, st2)
    ∧ st1 !! first = Some (CRules merged)
    ∧ st2 !! second = Some (CRules merged)
    ∧ st2 !! first = Some (CRules merged)
    ∧ second ≠ first.
Proof.
  apply (mergeRuntimeCaching_again example_store 1 2
           example_custom example_defaults); vm_compute; reflexivity.
Defined.

(** The first rule of a list with a given identity: the rule a router
    that tries the rules in order would take for it. *)
Definition first_with (id : jsstring) (rules : list RuntimeCachingRule)
  : option RuntimeCachingRule :=
  List.find (fun rule => str_eqb (identity rule) id) rules.

Lemma find_app {A} (p : A → bool) (l1 l2 : list A) :
  List.find p (l1 ++ l2)
  = match List.find p l1 with
    | Some x => Some x
    | None => List.find p l2
    end.
Proof.
  induction l1 as [|x l1 IH]; [reflexivity|]. cbn [app List.find].
  now destruct (p x).
Qed.

Lemma find_filter {A} (p q : A → bool) (l : list A) :
  (∀ x, p x = true → q x = true) →
  List.find p (List.filter q l) = List.find p l.
Proof.
  intros H. induction l as [|x l IH]; [reflexivity|].
  cbn [List.filter List.find]. destruct (p x) eqn:Ep.
  - rewrite (H x Ep). cbn [List.find]. now rewrite Ep.
  - destruct (q x); [cbn [List.find]; now rewrite Ep|]. exact IH.
Qed.

Lemma merged_spec_first_with id custom defaults :
  first_with id (merged_spec custom defaults)
  = match first_with id custom with
    | Some rule => Some rule
    | None => first_with id defaults
    end.
Proof.
  unfold first_with, merged_spec. rewrite find_app.
  destruct (List.find _ custom) as [rule|] eqn:E; [reflexivity|].
  apply find_filter. intros d Hd. apply negb_true_iff.
  destruct (overridden custom d) eqn:Ho; [|reflexivity].
  apply List.existsb_exists in Ho as (c & Hc & Hcd).
  pose proof (List.find_none _ _ E c Hc) as Hn. cbn beta in Hn.
  destruct (str_eqb_spec (identity c) (identity d)) as [Heq|]; [|discriminate].
  destruct (str_eqb_spec (identity d) id) as [Hid|]; [|discriminate].
  rewrite Heq, Hid, str_eqb_refl in Hn. discriminate.
Qed.

(** Custom rules take precedence: for every identity, the first rule of
    the merged array with that identity is the first custom rule with it
    and, when no custom rule has it, the first default with it.  So no
    identity of either input is lost. *)
Theorem mergeRuntimeCaching_precedence
    (st : store) custom defaults cs ds (id : jsstring) :
  st !! custom = Some (CRules cs) → st !! defaults = Some (CRules ds) →
  ∃ result st' merged,
    mergeRuntimeCaching custom defaults st = Some (result, st')
    ∧ st' !! result = Some (CRules merged)
    ∧ first_with id merged
      = match first_with id cs with
        | Some rule => Some rule
        | None => first_with id ds
        end.
Proof.
  intros Hc Hd.
  destruct (mergeRuntimeCaching_run st custom defaults cs ds Hc Hd)
    as (result & st' & Hrun & Hres & _).
  exists result, st', (merged_spec cs ds).
  repeat split; try assumption. apply merged_spec_first_with.
Qed.

Lemma mergeRuntimeCaching_precedence_witness :
  ∃ result st' merged,
    mergeRuntimeCaching 1%positive 2%positive example_store
    = Some (result, st')
    ∧ st' !! result = Some (CRules merged)
    ∧ first_with (js "^/api/.*") merged
      = Some (rule_of (PString (js "^/api/.*")) (js "CacheFirst")).
Proof.
  apply (mergeRuntimeCaching_precedence example_store 1 2
           example_custom example_defaults (js "^/api/.*"));
    vm_compute; reflexivity.
Defined.

End CacheStrategies.

(* ===================================================================== *)
(** ** Node built-ins used by the generator *)
(* ===================================================================== *)

Module Node.

(** *** [crypto.createHash("md5")] (RFC 1321) on a list of bytes *)

Definition mask32 : N := 4294967295%N.
Definition add32 (x y : N) : N := N.land (x + y) mask32.
Definition not32 (x : N) : N := N.lxor x mask32.
Definition rotl32 (x : N) (n : N) : N :=
  N.land (N.lor (N.shiftl x n) (N.shiftr x (32 - n))) mask32.

(** A step of the compression function: the additive constant, the
    rotation and the index of the message word. *)
Definition md5_step : Type := (N * N * N)%type.

Definition md5_round1 : list md5_step :=
  [
   (3614090360, 7, 0); (3905402710, 12, 1); (606105819, 17, 2);
   (3250441966, 22, 3); (4118548399, 7, 4); (1200080426, 12, 5);
   (2821735955, 17, 6); (4249261313, 22, 7); (1770035416, 7, 8);
   (2336552879, 12, 9); (4294925233, 17, 10); (2304563134, 22, 11);
   (1804603682, 7, 12); (4254626195, 12, 13); (2792965006, 17, 14);
   (1236535329, 22, 15)
  ]%N.

Definition md5_round2 : list md5_step :=
  [
   (4129170786, 5, 1); (3225465664, 9, 6); (643717713, 14, 11);
   (3921069994, 20, 0); (3593408605, 5, 5); (38016083, 9, 10);
   (3634488961, 14, 15); (3889429448, 20, 4); (568446438, 5, 9);
   (3275163606, 9, 14); (4107603335, 14, 3); (1163531501, 20, 8);
   (2850285829, 5, 13); (4243563512, 9, 2); (1735328473, 14, 7);
   (2368359562, 20, 12)
  ]%N.

Definition md5_round3 : list md5_step :=
  [
   (4294588738, 4, 5); (2272392833, 11, 8); (1839030562, 16, 11);
   (4259657740, 23, 14); (2763975236, 4, 1); (1272893353, 11, 4);
   (4139469664, 16, 7); (3200236656, 23, 10); (681279174, 4, 13);
   (3936430074, 11, 0); (3572445317, 16, 3); (76029189, 23, 6);
   (3654602809, 4, 9); (3873151461, 11, 12); (530742520, 16, 15);
   (3299628645, 23, 2)
  ]%N.

Definition md5_round4 : list md5_step :=
  [
   (4096336452, 6, 0); (1126891415, 10, 7); (2878612391, 15, 14);
   (4237533241, 21, 5); (1700485571, 6, 12); (2399980690, 10, 3);
   (4293915773, 15, 10); (2240044497, 21, 1); (1873313359, 6, 8);
   (4264355552, 10, 15); (2734768916, 15, 6); (1309151649, 21, 13);
   (4149444226, 6, 4); (3174756917, 10, 11); (718787259, 15, 2);
   (3951481745, 21, 9)
  ]%N.

Definition md5_state : Type := (N * N * N * N)%type.

Definition md5_F (b c d : N) : N := N.lor (N.land b c) (N.land (not32 b) d).
Definition md5_G (b c d : N) : N := N.lor (N.land d b) (N.land (not32 d) c).
Definition md5_H (b c d : N) : N := N.lxor (N.lxor b c) d.
Definition md5_I (b c d : N) : N := N.lxor c (N.lor b (not32 d)).

Definition md5_apply (f : N -> N -> N -> N) (block : list N)
  (st : md5_state) (step : md5_step) : md5_state :=
  let '(a, b, c, d) := st in
  let '(k, s, g) := step in
  let x := add32 (add32 (add32 (f b c d) a) k) (List.nth (N.to_nat g) block 0%N) in
  (d, add32 b (rotl32 x s), b, c).

Definition md5_block (st : md5_state) (block : list N) : md5_state :=
  let '(a0, b0, c0, d0) := st in
  let st1 := List.fold_left (md5_apply md5_F block) md5_round1 st in
  let st2 := List.fold_left (md5_apply md5_G block) md5_round2 st1 in
  let st3 := List.fold_left (md5_apply md5_H block) md5_round3 st2 in
  let '(a, b, c, d) :=
    List.fold_left (md5_apply md5_I block) md5_round4 st3 in
  (add32 a0 a, add32 b0 b, add32 c0 c, add32 d0 d).

(** Little-endian bytes of a word, and back. *)
Fixpoint le_bytes (count : nat) (x : N) : list N :=
  match count with
  | O => []
  | S count' => N.land x 255 :: le_bytes count' (N.shiftr x 8)
  end.

Fixpoint le_word (bytes : list N) : N :=
  match bytes with
  | [] => 0
  | b :: rest => (b + 256 * le_word rest)%N
  end.

(** The message followed by the bit [1], zero bits up to 56 modulo 64
    bytes, and the bit length on eight bytes. *)
Definition md5_pad (message : list N) : list N :=
  let len := N.of_nat (length message) in
  let zeros := N.to_nat ((119 - len mod 64) mod 64) in
  message ++ [128%N] ++ List.repeat 0%N zeros
  ++ le_bytes 8 (N.land (8 * len) 18446744073709551615).

(** The sixteen words of each 64-byte block. *)
Fixpoint md5_words (count : nat) (bytes : list N) : list N :=
  match count with
  | O => []
  | S count' => le_word (List.firstn 4 bytes)
                :: md5_words count' (List.skipn 4 bytes)
  end.

Fixpoint md5_blocks (count : nat) (bytes : list N) (st : md5_state)
  : md5_state :=
  match count with
  | O => st
  | S count' =>
      md5_blocks count' (List.skipn 64 bytes)
                 (md5_block st (md5_words 16 (List.firstn 64 bytes)))
  end.

Definition md5 (message : list N) : list N :=
  let padded := md5_pad message in
  let '(a, b, c, d) :=
    md5_blocks (length padded / 64) padded
               (1732584193, 4023233417, 2562383102, 271733878)%N in
  le_bytes 4 a ++ le_bytes 4 b ++ le_bytes 4 c ++ le_bytes 4 d.

(** [.digest("hex")]: two lower-case hexadecimal digits per byte. *)
Definition hex_digit (n : N) : char16 :=
  if (n <? 10)%N then (48 + n)%N else (87 + n)%N.

Definition hex (bytes : list N) : jsstring :=
  List.flat_map (fun b => [hex_digit (b / 16); hex_digit (b mod 16)]) bytes.

Definition md5_hex (message : list N) : jsstring := hex (md5 message).

Example md5_of_empty : md5_hex [] = js "d41d8cd98f00b204e9800998ecf8427e".
Proof. vm_compute. reflexivity. Qed.

Example md5_of_two_blocks :
  md5_hex (js "12345678901234567890123456789012345678901234567890123456789012345678901234567890")
  = js "57edf4a22be3c955ac49da2e2107b67a".
Proof. vm_compute. reflexivity. Qed.

(** *** Decimal text of a non-negative integer ([String(n)]) *)

Fixpoint uint_to_js (d : Decimal.uint) : jsstring :=
  match d with
  | Decimal.Nil => []
  | Decimal.D0 d => 48%N :: uint_to_js d
  | Decimal.D1 d => 49%N :: uint_to_js d
  | Decimal.D2 d => 50%N :: uint_to_js d
  | Decimal.D3 d => 51%N :: uint_to_js d
  | Decimal.D4 d => 52%N :: uint_to_js d
  | Decimal.D5 d => 53%N :: uint_to_js d
  | Decimal.D6 d => 54%N :: uint_to_js d
  | Decimal.D7 d => 55%N :: uint_to_js d
  | Decimal.D8 d => 56%N :: uint_to_js d
  | Decimal.D9 d => 57%N :: uint_to_js d
  end.

Definition N_to_js (n : N) : jsstring := uint_to_js (N.to_uint n).

(** *** [path.join] and [path.normalize] (POSIX) *)

Fixpoint split_on (sep : char16) (s : jsstring) : list jsstring :=
  match s with
  | [] => [[]]
  | c :: s' =>
      if (c =? sep)%N then [] :: split_on sep s'
      else match split_on sep s' with
           | seg :: rest => (c :: seg) :: rest
           | [] => [[c]]
           end
  end.

Fixpoint join_with (sep : jsstring) (parts : list jsstring) : jsstring :=
  match parts with
  | [] => []
  | [part] => part
  | part :: rest => part ++ sep ++ join_with sep rest
  end.

(** [normalizeString]: empty segments and [.] are dropped; [..] removes
    the segment before it, unless there is none or it is itself [..], in
    which case it is kept when the path is relative and dropped when it is
    absolute.  [kept] holds the segments kept so far, last first. *)
Fixpoint normalize_segments (allowAboveRoot : bool)
  (kept segments : list jsstring) : list jsstring :=
  match segments with
  | [] => rev kept
  | seg :: rest =>
      if str_eqb seg [] || str_eqb seg (js ".")
      then normalize_segments allowAboveRoot kept rest
      else if str_eqb seg (js "..") then
        match kept with
        | last :: before =>
            if str_eqb last (js "..")
            then normalize_segments allowAboveRoot
                   (if allowAboveRoot then seg :: kept else kept) rest
            else normalize_segments allowAboveRoot before rest
        | [] =>
            normalize_segments allowAboveRoot
              (if allowAboveRoot then [seg] else []) rest
        end
      else normalize_segments allowAboveRoot (seg :: kept) rest
  end.

Definition path_normalize (path : jsstring) : jsstring :=
  match path with
  | [] => js "."
  | _ =>
      let isAbsolute := startsWith path (js "/") in
      let trailingSeparator := endsWith path (js "/") in
      let body :=
        join_with (js "/")
          (normalize_segments (negb isAbsolute) [] (split_on c_slash path)) in
      match body with
      | [] => if isAbsolute then js "/"
              else if trailingSeparator then js "./" else js "."
      | _ =>
          let body := if trailingSeparator then body ++ js "/" else body in
          if isAbsolute then js "/" ++ body else body
      end
  end.

Definition path_join (parts : list jsstring) : jsstring :=
  match List.filter (fun part => negb (str_eqb part [])) parts with
  | [] => js "."
  | nonEmpty => path_normalize (join_with (js "/") nonEmpty)
  end.

Example path_join_build :
  path_join [js "/proj/.next"; js "static/chunks/a.js"]
  = js "/proj/.next/static/chunks/a.js".
Proof. reflexivity. Qed.

Example path_join_dots :
  path_join [js "/proj/./x//y/"; js "../../../../etc/"] = js "/etc/".
Proof. reflexivity. Qed.

Example path_normalize_relative :
  path_normalize (js "a/../../b/./c") = js "../b/c".
Proof. reflexivity. Qed.

(** *** [Set] of strings: insertion-ordered, without repetition *)

Definition Set_has (members : list jsstring) (x : jsstring) : bool :=
  List.existsb (str_eqb x) members.

Definition Set_add (members : list jsstring) (x : jsstring)
  : list jsstring :=
  if Set_has members x then members else members ++ [x].

(** [new Set(iterable)] *)
Definition Set_from (items : list jsstring) : list jsstring :=
  List.fold_left Set_add items [].

(** *** Facts on [path.normalize] *)

Lemma split_on_nonempty sep s : split_on sep s <> [].
Proof.
  destruct s as [|c s]; cbn [split_on]; [discriminate|].
  destruct (c =? sep)%N; [discriminate|].
  destruct (split_on sep s); discriminate.
Qed.

Lemma split_on_cons sep c s :
  (c =? sep)%N = false ->
  exists seg rest, split_on sep s = seg :: rest
                   /\ split_on sep (c :: s) = (c :: seg) :: rest.
Proof.
  intros Hc. cbn [split_on]. rewrite Hc.
  destruct (split_on sep s) as [|seg rest] eqn:E;
    [now destruct (split_on_nonempty sep s)|].
  now exists seg, rest.
Qed.

(** Splitting at a separator splits the list of segments. *)
Lemma split_on_app sep a b :
  split_on sep (a ++ sep :: b) = split_on sep a ++ split_on sep b.
Proof.
  induction a as [|c a IH]; cbn [app].
  - cbn [split_on]. now rewrite N.eqb_refl.
  - destruct (c =? sep)%N eqn:Hc.
    + cbn [split_on]. rewrite Hc. cbn [app]. now rewrite IH.
    + destruct (split_on_cons sep c (a ++ sep :: b) Hc)
        as (seg & rest & E & E1).
      destruct (split_on_cons sep c a Hc) as (seg' & rest' & E' & E2).
      unfold jsstring, char16 in *. rewrite E1, E2.
      rewrite IH, E' in E. cbn [app] in *. now injection E as <- <-.
Qed.

Definition slash_free (s : jsstring) : Prop :=
  List.Forall (fun c => c <> c_slash) s.

Lemma split_on_slash_free s : slash_free s -> split_on c_slash s = [s].
Proof.
  induction 1 as [|c s Hc _ IH]; [reflexivity|]. cbn [split_on].
  destruct (N.eqb_spec c c_slash); [contradiction|]. now rewrite IH.
Qed.

Lemma join_with_app sep (l1 l2 : list jsstring) :
  l1 <> [] ->
  join_with sep (l1 ++ l2)
  = join_with sep l1
    ++ match l2 with
       | [] => []
       | _ => sep ++ join_with sep l2
       end.
Proof.
  intros H1. induction l1 as [|x l1 IH]; [contradiction|].
  destruct l1 as [|y l1].
  - cbn [app join_with]. destruct l2; [now rewrite app_nil_r | reflexivity].
  - specialize (IH ltac:(discriminate)).
    change ((x :: y :: l1) ++ l2) with (x :: (y :: l1) ++ l2).
    cbn [join_with] in *. cbn [app] in IH.
    destruct ((y :: l1) ++ l2) eqn:E; [discriminate|].
    cbn [app] in E. rewrite <- E, IH, <- !app_assoc. reflexivity.
Qed.

(** The segments of [s1] are normalised first, and those of [s2] go on
    from what was kept. *)
Lemma normalize_segments_app allow kept s1 s2 :
  normalize_segments allow kept (s1 ++ s2)
  = normalize_segments allow (rev (normalize_segments allow kept s1)) s2.
Proof.
  revert kept. induction s1 as [|seg s1 IH]; intros kept; cbn [app].
  - cbn [normalize_segments]. now rewrite rev_involutive.
  - cbn [normalize_segments].
    destruct (str_eqb seg [] || str_eqb seg (js ".")); [apply IH|].
    destruct (str_eqb seg (js "..")); [|apply IH].
    destruct kept as [|last before]; [apply IH|].
    destruct (str_eqb last (js "..")); apply IH.
Qed.

(** Without a [..] among the segments, nothing that was kept is
    removed. *)
Lemma normalize_segments_grows allow kept segs :
  List.Forall (fun seg => str_eqb seg (js "..") = false) segs ->
  exists more, normalize_segments allow kept segs = rev kept ++ more.
Proof.
  intros H. revert kept.
  induction H as [|seg segs Hseg _ IH]; intros kept.
  - exists []. cbn [normalize_segments]. now rewrite app_nil_r.
  - cbn [normalize_segments]. rewrite Hseg.
    destruct (str_eqb seg [] || str_eqb seg (js ".")); [apply IH|].
    destruct (IH (seg :: kept)) as [more ->]. exists (seg :: more).
    cbn [rev]. now rewrite <- app_assoc.
Qed.

(** A segment that [path.normalize] keeps where it is: not empty, not
    [.], not [..], and without a slash. *)
Definition plain_segment (seg : jsstring) : Prop :=
  str_eqb seg [] = false /\ str_eqb seg (js ".") = false
  /\ str_eqb seg (js "..") = false /\ slash_free seg.

Lemma normalize_segments_plain allow kept segs :
  List.Forall plain_segment segs ->
  normalize_segments allow kept segs = rev kept ++ segs.
Proof.
  intros H. revert kept.
  induction H as [|seg segs (H0 & H1 & H2 & _) _ IH]; intros kept.
  - cbn [normalize_segments]. now rewrite app_nil_r.
  - cbn [normalize_segments]. rewrite H0, H1, H2. cbn [orb].
    rewrite IH. cbn [rev]. now rewrite <- app_assoc.
Qed.

Lemma join_with_two sep (x y : jsstring) (l : list jsstring) :
  join_with sep (x :: y :: l) = x ++ sep ++ join_with sep (y :: l).
Proof. reflexivity. Qed.

Lemma split_on_join (segs : list jsstring) :
  segs <> [] -> List.Forall slash_free segs ->
  split_on c_slash (join_with (js "/") segs) = segs.
Proof.
  intros Hne H. induction H as [|seg segs Hseg H IH]; [contradiction|].
  destruct segs as [|seg' segs].
  - cbn [join_with]. now apply split_on_slash_free.
  - rewrite join_with_two. change (js "/" ++ ?x) with (c_slash :: x).
    rewrite split_on_app, (split_on_slash_free _ Hseg), IH by discriminate.
    reflexivity.
Qed.

Lemma endsWith_app_nonempty (s t p : jsstring) :
  t <> [] -> length p <= length t -> endsWith (s ++ t) p = endsWith t p.
Proof.
  intros _ Hlen. unfold endsWith. rewrite rev_app_distr.
  assert (G : forall (a b q : jsstring),
            length q <= length a -> startsWith (a ++ b) q = startsWith a q).
  { intros a b q. revert a. induction q as [|c q IHq]; intros a Hq;
      [reflexivity|].
    destruct a as [|d a]; [cbn in Hq; lia|]. cbn [app startsWith].
    rewrite IHq; [reflexivity | cbn in Hq; lia]. }
  apply G. now rewrite !length_rev.
Qed.

Lemma join_with_last (segs : list jsstring) (last : jsstring) :
  join_with (js "/") (segs ++ [last])
  = match segs with
    | [] => last
    | _ => join_with (js "/") segs ++ js "/" ++ last
    end.
Proof.
  destruct segs as [|seg segs]; [reflexivity|].
  now rewrite join_with_app by discriminate.
Qed.

Lemma slash_free_not_ending (s : jsstring) :
  s <> [] -> slash_free s -> endsWith s (js "/") = false.
Proof.
  intros Hne H. destruct (endsWith s (js "/")) eqn:E; [|reflexivity].
  apply endsWith_suffix in E as [r ->].
  apply List.Forall_app in H as [_ H]. inversion H as [|? ? Hc _].
  now destruct Hc.
Qed.

Lemma plain_segment_nonempty seg : plain_segment seg -> seg <> [].
Proof. intros (H & _) ->. discriminate. Qed.

(** An absolute path made of plain segments is in normal form. *)
Lemma path_normalize_plain (segs : list jsstring) :
  segs <> [] -> List.Forall plain_segment segs ->
  path_normalize (js "/" ++ join_with (js "/") segs)
  = js "/" ++ join_with (js "/") segs.
Proof.
  intros Hne H.
  assert (Hfree : List.Forall slash_free segs).
  { eapply List.Forall_impl; [|exact H]. now intros seg (_ & _ & _ & Hs). }
  assert (Hbody : join_with (js "/") segs <> []).
  { destruct segs as [|seg segs]; [contradiction|].
    inversion H as [|? ? Hseg _]; subst.
    apply plain_segment_nonempty in Hseg.
    destruct segs; cbn [join_with]; destruct seg; try contradiction;
      discriminate. }
  assert (Hend : endsWith (js "/" ++ join_with (js "/") segs) (js "/") = false).
  { destruct segs as [|seg segs] using rev_ind; [contradiction|]. clear IHsegs.
    apply List.Forall_app in H as [_ Hl]. inversion Hl as [|? ? Hseg _]; subst.
    rewrite join_with_last.
    destruct segs as [|seg' segs].
    - rewrite endsWith_app_nonempty.
      + apply slash_free_not_ending;
          [now apply plain_segment_nonempty | apply Hseg].
      + now apply plain_segment_nonempty.
      + apply plain_segment_nonempty in Hseg. destruct seg; [contradiction|].
        cbn [length]. lia.
    - rewrite !app_assoc, endsWith_app_nonempty.
      + apply slash_free_not_ending;
          [now apply plain_segment_nonempty | apply Hseg].
      + now apply plain_segment_nonempty.
      + apply plain_segment_nonempty in Hseg. destruct seg; [contradiction|].
        cbn [length]. lia. }
  assert (Hsplit : split_on c_slash (js "/" ++ join_with (js "/") segs)
                   = [] :: segs).
  { cbn [app split_on]. change (47 =? c_slash)%N with true. cbv iota.
    now rewrite split_on_join. }
  assert (Habs : startsWith (js "/" ++ join_with (js "/") segs) (js "/")
                 = true) by reflexivity.
  unfold path_normalize. cbn [app] in *. rewrite Hsplit, Habs, Hend.
  cbn [negb normalize_segments str_eqb orb].
  rewrite (normalize_segments_plain _ _ _ H). cbn [rev app].
  destruct (join_with (js "/") segs) eqn:E; [contradiction|]. reflexivity.
Qed.

End Node.

Import Node.

(* ===================================================================== *)
(** ** ManifestGenerator: [generatePrecacheManifest] *)
(* ===================================================================== *)

Module ManifestGenerator.

Record PrecacheEntry : Type := {
  url : jsstring;
  revision : option jsstring
}.

(** An element of [buildExcludes]: a glob string or a compiled pattern.  A
    compiled pattern is kept by its [test] (taken without the [g] and [y]
    flags, which would make [test] depend on earlier calls). *)
Inductive exclude_pattern : Type :=
  | ExGlob (pattern : jsstring)
  | ExRegExp (test : jsstring -> bool).

Record ManifestGeneratorOptions : Type := {
  buildDir : jsstring;
  publicDir : jsstring;
  basePath : jsstring;
  publicExcludes : list jsstring;
  buildExcludes : list exclude_pattern;
  additionalManifestEntries : list PrecacheEntry;
  (** [Record<string, string>], in the order of [Object.entries] *)
  modifyURLPrefix : list (jsstring * jsstring);
  projectRoot : jsstring
}.

(** The fields of [build-manifest.json] that the generator reads. *)
Record NextBuildManifest : Type := {
  polyfillFiles : option (list jsstring);
  rootMainFiles : option (list jsstring);
  lowPriorityFiles : option (list jsstring);
  pages : option (list (jsstring * list jsstring))
}.

(** *** The world outside: file system, clock and console *)

(** What the file system and the clock answer in the run that is
    studied.  [read_build_manifest] is [readFile] followed by [JSON.parse],
    taken at the declared type [NextBuildManifest] ([None] when either
    throws); the source does not check the parsed value, and a file whose
    JSON is of another shape is outside the embedding.
    [glob_files cwd ignore] is
    [globby("**/*", {cwd, onlyFiles: true, dot: false, ignore})], with the
    text of the error when it rejects; the order of a listing is the one
    of this run, and another run may be answered in another order.
    [clock k] is what the [k]-th reading of [Date.now()] returns. *)
Record filesystem : Type := {
  read_file : jsstring -> option (list N);
  read_build_manifest : jsstring -> option NextBuildManifest;
  stat_ok : jsstring -> bool;
  glob_files : jsstring -> list jsstring -> jsstring + list jsstring;
  clock : nat -> N
}.

Inductive log_level : Type := LInfo | LWarn | LError.

Inductive event : Type :=
  | EvLog (level : log_level) (message : jsstring)
  | EvReadFile (path : jsstring)
  | EvStat (path : jsstring)
  | EvGlob (cwd : jsstring) (ignore : list jsstring)
  | EvNow.

(** What a run has done so far (latest event first) and how often it has
    read the clock. *)
Record world : Type := {
  trace : list event;
  clock_reads : nat
}.

Definition IO (A : Type) : Type := world -> A * world.

#[global] Instance IO_ret : MRet IO := fun A a w => (a, w).

#[global] Instance IO_bind : MBind IO := fun A B k m w =>
  let '(a, w') := m w in k a w'.

Definition emit (e : event) : IO unit :=
  fun w => (tt, {| trace := e :: trace w; clock_reads := clock_reads w |}).

Section WithFileSystem.

Variable fs : filesystem.

Definition logger_info (message : jsstring) : IO unit :=
  emit (EvLog LInfo (js "[next-pwa-turbo] " ++ message)).

Definition logger_warn (message : jsstring) : IO unit :=
  emit (EvLog LWarn (js "[next-pwa-turbo] WARNING: " ++ message)).

Definition logger_error (message : jsstring) : IO unit :=
  emit (EvLog LError (js "[next-pwa-turbo] ERROR: " ++ message)).

Definition readFile (path : jsstring) : IO (option (list N)) :=
  _ ← emit (EvReadFile path); mret (read_file fs path).

Definition stat (path : jsstring) : IO bool :=
  _ ← emit (EvStat path); mret (stat_ok fs path).

Definition globby (cwd : jsstring) (ignore : list jsstring)
  : IO (jsstring + list jsstring) :=
  _ ← emit (EvGlob cwd ignore); mret (glob_files fs cwd ignore).

Definition Date_now : IO N :=
  fun w => (clock fs (clock_reads w),
            {| trace := EvNow :: trace w;
               clock_reads := S (clock_reads w) |}).

(** *** The helpers of the generator *)

Definition isPathWithinProject (filePath projectRoot : jsstring) : bool :=
  let normalizedPath := path_join [filePath] in
  let normalizedRoot := path_join [projectRoot] in
  startsWith normalizedPath normalizedRoot.

(** [createHash("md5").update(x).digest("hex").slice(0, 8)] *)
Definition md5_8 (bytes : list N) : jsstring :=
  List.firstn 8 (md5_hex bytes).

Definition generateRevisionHash (filePath : jsstring) : IO jsstring :=
  content ← readFile filePath;
  match content with
  | Some bytes => mret (md5_8 bytes)
  | None =>
      _ ← logger_warn (js "Could not read file for revision hash: "
                       ++ filePath);
      now ← Date_now;
      mret (md5_8 (N_to_js now))
  end.

(** A glob string of [buildExcludes] becomes the pattern
    [^...$] in which [*] is [.*], [?] is [.] and every other character
    stands for itself; [.] refuses the line terminators. *)
Fixpoint glob_match (pattern value : jsstring) {struct pattern} : bool :=
  match pattern with
  | [] => match value with [] => true | _ => false end
  | c :: pattern' =>
      if (c =? 42)%N then
        (fix star (v : jsstring) : bool :=
           glob_match pattern' v
           || match v with
              | d :: v' => negb (is_line_terminator d) && star v'
              | [] => false
              end) value
      else
        match value with
        | d :: value' =>
            (if (c =? 63)%N then negb (is_line_terminator d) else (c =? d)%N)
            && glob_match pattern' value'
        | [] => false
        end
  end.

Definition matchesExclusion (value : jsstring)
  (patterns : list exclude_pattern) : bool :=
  List.existsb
    (fun pattern =>
       match pattern with
       | ExGlob g => glob_match g value
       | ExRegExp test => test value
       end)
    patterns.

(** The first entry whose key is a prefix of the URL rewrites it; the
    entries after it are not tried. *)
Fixpoint applyURLPrefixModifications (url : jsstring)
  (modifyURLPrefix : list (jsstring * jsstring)) : jsstring :=
  match modifyURLPrefix with
  | [] => url
  | (originalPrefix, newPrefix) :: rest =>
      if startsWith url originalPrefix
      then newPrefix ++ List.skipn (length originalPrefix) url
      else applyURLPrefixModifications url rest
  end.

Definition readBuildManifest (dir : jsstring)
  : IO (option NextBuildManifest) :=
  let manifestPath := path_join [dir; js "build-manifest.json"] in
  _ ← emit (EvReadFile manifestPath);
  match read_build_manifest fs manifestPath with
  | Some manifest => mret (Some manifest)
  | None =>
      _ ← logger_warn (js "Could not read build manifest at "
                       ++ manifestPath);
      mret None
  end.

Definition files_of (field : option (list jsstring)) : list jsstring :=
  match field with Some files => files | None => [] end.

Definition extractAssetsFromManifest (manifest : NextBuildManifest)
  : list jsstring :=
  Set_from
    (files_of (polyfillFiles manifest)
     ++ files_of (rootMainFiles manifest)
     ++ files_of (lowPriorityFiles manifest)
     ++ match pages manifest with
        | Some table => List.concat (List.map snd table)
        | None => []
        end).

(** [files.filter((file) => { if (hasPathTraversal(file)) { warn; return
    false } return true })] *)
Fixpoint filter_traversal (warning : jsstring) (files : list jsstring)
  : IO (list jsstring) :=
  match files with
  | [] => mret []
  | file :: rest =>
      if hasPathTraversal file then
        _ ← logger_warn (warning ++ file);
        filter_traversal warning rest
      else
        kept ← filter_traversal warning rest;
        mret (file :: kept)
  end.

Definition getStaticBuildFiles (dir root : jsstring) : IO (list jsstring) :=
  let staticDir := path_join [dir; js "static"] in
  found ← stat staticDir;
  if negb found then mret []
  else
    listing ← globby staticDir [];
    match listing with
    | inr files =>
        filter_traversal (js "Skipping file with path traversal: ")
          (List.map (fun file => js "/_next/static/" ++ file) files)
    | inl error =>
        _ ← logger_warn (js "Could not read static build files: " ++ error);
        mret []
    end.

Definition getPublicFiles (dir root : jsstring)
  (excludePatterns : list jsstring) : IO (list jsstring) :=
  found ← stat dir;
  if negb found then mret []
  else if negb (isPathWithinProject dir root) then
    _ ← logger_error (js "Public directory is outside project root");
    mret []
  else
    listing ← globby dir excludePatterns;
    match listing with
    | inr files =>
        filter_traversal (js "Skipping public file with path traversal: ")
          (List.map (fun file => js "/" ++ file) files)
    | inl error =>
        _ ← logger_warn (js "Could not read public files: " ++ error);
        mret []
    end.

(** *** [needsRevision] *)

Definition is_hex_lower (c : char16) : bool :=
  is_digit c || ((97 <=? c) && (c <=? 102))%N.

Definition hashed_extensions : list jsstring :=
  [js "js"; js "css"; js "woff"; js "woff2"; js "ttf"; js "eot"; js "svg";
   js "png"; js "jpg"; js "jpeg"; js "gif"; js "webp"; js "avif"].

(** The number of hexadecimal digits at the head of a string. *)
Fixpoint hex_run (s : jsstring) : nat :=
  match s with
  | c :: s' => if is_hex_lower c then S (hex_run s') else 0
  | [] => 0
  end.

(** [/\.[a-f0-9]{8,}\.(js|css|woff2?|...|avif)$/i], read from the end of
    the string: the extension, a dot, at least eight hexadecimal digits
    and a dot. *)
Definition hashPattern_test (url : jsstring) : bool :=
  let reversed := rev (List.map to_lower url) in
  List.existsb
    (fun ext =>
       startsWith reversed (rev (c_dot :: ext))
       && (let before := List.skipn (S (length ext)) reversed in
           (8 <=? hex_run before)%nat
           && startsWith (List.skipn (hex_run before) before) [c_dot]))
    hashed_extensions.

(** [/[a-f0-9]{8,}-/]: at least eight lower-case hexadecimal digits and a
    dash; [run] counts the digits that end where the scan stands. *)
Fixpoint chunkHashPattern_from (run : nat) (s : jsstring) : bool :=
  match s with
  | [] => false
  | c :: s' =>
      if is_hex_lower c then chunkHashPattern_from (S run) s'
      else if (c =? 45)%N && (8 <=? run)%nat then true
      else chunkHashPattern_from 0 s'
  end.

Definition chunkHashPattern_test (url : jsstring) : bool :=
  chunkHashPattern_from 0 url.

Definition needsRevision (url : jsstring) : bool :=
  if hashPattern_test url then false
  else if chunkHashPattern_test url then false
  else true.

(** *** [generatePrecacheManifest] *)

Variable opts : ManifestGeneratorOptions.

(** [if (basePath && basePath !== "/") url = `${basePath}${url}`] *)
Definition with_basePath (url : jsstring) : jsstring :=
  if negb (str_eqb (basePath opts) [])
     && negb (str_eqb (basePath opts) (js "/"))
  then basePath opts ++ url else url.

(** [asset.replace(/^\/_next\//, "")] *)
Definition strip_next_prefix (asset : jsstring) : jsstring :=
  if startsWith asset (js "/_next/") then List.skipn 7 asset else asset.

(** The two objects the three loops write: [entries] and [seenUrls]. *)
Definition loop_state : Type := (list PrecacheEntry * list jsstring)%type.

Fixpoint for_each {A : Type} (body : loop_state -> A -> IO loop_state)
  (items : list A) (st : loop_state) : IO loop_state :=
  match items with
  | [] => mret st
  | item :: rest => st' ← body st item; for_each body rest st'
  end.

Definition build_url (asset : jsstring) : jsstring :=
  applyURLPrefixModifications
    (with_basePath (if startsWith asset (js "/") then asset
                    else js "/" ++ asset))
    (modifyURLPrefix opts).

(** The body of [for (const asset of allBuildAssets)].  [generateRevisionHash]
    never throws, so the [catch] around its call is not taken. *)
Definition process_build_asset (st : loop_state) (asset : jsstring)
  : IO loop_state :=
  let '(entries, seenUrls) := st in
  let sanitizedAsset := sanitizePath asset in
  if str_eqb sanitizedAsset [] && negb (str_eqb asset []) then
    _ ← logger_warn (js "Skipping invalid asset path: " ++ asset);
    mret st
  else if matchesExclusion asset (buildExcludes opts) then mret st
  else
    let url := build_url asset in
    if Set_has seenUrls url then mret st
    else
      let seenUrls := Set_add seenUrls url in
      if needsRevision url then
        revision ← generateRevisionHash
                     (path_join [buildDir opts; strip_next_prefix asset]);
        mret (entries ++ [{| url := url; revision := Some revision |}],
              seenUrls)
      else
        mret (entries ++ [{| url := url; revision := None |}], seenUrls).

Definition public_url (file : jsstring) : jsstring :=
  applyURLPrefixModifications (with_basePath file) (modifyURLPrefix opts).

(** The body of [for (const file of publicFiles)]. *)
Definition process_public_file (st : loop_state) (file : jsstring)
  : IO loop_state :=
  let '(entries, seenUrls) := st in
  let url := public_url file in
  if Set_has seenUrls url then mret st
  else
    let seenUrls := Set_add seenUrls url in
    revision ← generateRevisionHash
                 (path_join [publicDir opts; List.skipn 1 file]);
    mret (entries ++ [{| url := url; revision := Some revision |}],
          seenUrls).

Definition additional_url (entryUrl : jsstring) : jsstring :=
  applyURLPrefixModifications
    (if startsWith entryUrl (js "/") then with_basePath entryUrl
     else entryUrl)
    (modifyURLPrefix opts).

(** The body of [for (const entry of additionalManifestEntries)]. *)
Definition process_additional_entry (st : loop_state) (entry : PrecacheEntry)
  : IO loop_state :=
  let '(entries, seenUrls) := st in
  if str_eqb (url entry) [] then
    _ ← logger_warn
          (js "Skipping invalid additional manifest entry (missing url)");
    mret st
  else if hasPathTraversal (url entry) then
    _ ← logger_warn (js "Skipping additional entry with path traversal: "
                     ++ url entry);
    mret st
  else
    let finalUrl := additional_url (url entry) in
    if Set_has seenUrls finalUrl then mret st
    else
      mret (entries ++ [{| url := finalUrl; revision := revision entry |}],
            Set_add seenUrls finalUrl).

(** How a call ends: with a value, or with a thrown [Error]. *)
Inductive outcome (A : Type) : Type :=
  | Returned (value : A)
  | Threw (message : jsstring).
Arguments Returned {A} value.
Arguments Threw {A} message.

Definition length_js {A} (l : list A) : jsstring :=
  N_to_js (N.of_nat (length l)).

Definition generatePrecacheManifest : IO (outcome (list PrecacheEntry)) :=
  if negb (isPathWithinProject (buildDir opts) (projectRoot opts)) then
    mret (Threw
            (js "Build directory is outside project root - security violation"))
  else if negb (isPathWithinProject (publicDir opts) (projectRoot opts)) then
    mret (Threw
            (js "Public directory is outside project root - security violation"))
  else
    _ ← logger_info (js "Generating precache manifest...");
    buildManifest ← readBuildManifest (buildDir opts);
    manifestAssets ←
      match buildManifest with
      | Some manifest =>
          let assets := extractAssetsFromManifest manifest in
          _ ← logger_info (js "Found " ++ length_js assets
                           ++ js " assets in build manifest");
          mret assets
      | None => mret []
      end;
    staticFiles ← getStaticBuildFiles (buildDir opts) (projectRoot opts);
    _ ← logger_info (js "Found " ++ length_js staticFiles
                     ++ js " static build files");
    let allBuildAssets := Set_from (manifestAssets ++ staticFiles) in
    st ← for_each process_build_asset allBuildAssets ([], []);
    publicFiles ← getPublicFiles (publicDir opts) (projectRoot opts)
                    (publicExcludes opts);
    _ ← logger_info (js "Found " ++ length_js publicFiles
                     ++ js " public files");
    st ← for_each process_public_file publicFiles st;
    st ← for_each process_additional_entry (additionalManifestEntries opts) st;
    _ ← logger_info (js "Generated precache manifest with "
                     ++ length_js (fst st) ++ js " entries");
    mret (Returned (fst st)).

End WithFileSystem.

Arguments Returned {A} value.
Arguments Threw {A} message.

(** *** What a run returns, apart from what it does to the world *)

Section Candidates.

Variable fs : filesystem.
Variable opts : ManifestGeneratorOptions.

(** The values of the three enumerations: they depend on the file system
    only. *)
Definition manifest_assets : list jsstring :=
  match read_build_manifest fs
          (path_join [buildDir opts; js "build-manifest.json"]) with
  | Some manifest => extractAssetsFromManifest manifest
  | None => []
  end.

Definition no_traversal (files : list jsstring) : list jsstring :=
  List.filter (fun file => negb (hasPathTraversal file)) files.

Definition static_build_files : list jsstring :=
  let staticDir := path_join [buildDir opts; js "static"] in
  if stat_ok fs staticDir then
    match glob_files fs staticDir [] with
    | inr files =>
        no_traversal (List.map (fun file => js "/_next/static/" ++ file) files)
    | inl _ => []
    end
  else [].

Definition public_files : list jsstring :=
  if stat_ok fs (publicDir opts) then
    if isPathWithinProject (publicDir opts) (projectRoot opts) then
      match glob_files fs (publicDir opts) (publicExcludes opts) with
      | inr files => no_traversal (List.map (fun file => js "/" ++ file) files)
      | inl _ => []
      end
    else []
  else [].

(** Where a candidate entry comes from. *)
Inductive source : Type :=
  | FromBuild (asset : jsstring)
  | FromPublic (file : jsstring)
  | FromAdditional (entry : PrecacheEntry).

(** A candidate: its final URL (after [basePath] and the rewrite table)
    and its source. *)
Definition candidate : Type := (jsstring * source)%type.

Definition build_candidate (asset : jsstring) : option candidate :=
  if str_eqb (sanitizePath asset) [] && negb (str_eqb asset []) then None
  else if matchesExclusion asset (buildExcludes opts) then None
  else Some (build_url opts asset, FromBuild asset).

Definition public_candidate (file : jsstring) : option candidate :=
  Some (public_url opts file, FromPublic file).

Definition additional_candidate (entry : PrecacheEntry) : option candidate :=
  if str_eqb (url entry) [] then None
  else if hasPathTraversal (url entry) then None
  else Some (additional_url opts (url entry), FromAdditional entry).

Fixpoint filter_map {A B : Type} (f : A -> option B) (l : list A) : list B :=
  match l with
  | [] => []
  | a :: rest =>
      match f a with
      | Some b => b :: filter_map f rest
      | None => filter_map f rest
      end
  end.

(** All candidates, in phase order: build assets, public files, extra
    entries. *)
Definition candidates : list candidate :=
  filter_map build_candidate (Set_from (manifest_assets ++ static_build_files))
  ++ filter_map public_candidate public_files
  ++ filter_map additional_candidate (additionalManifestEntries opts).

(** The candidates that are the first with their URL, given the URLs seen
    before. *)
Fixpoint first_occurrences_from (seen : list jsstring) (cs : list candidate)
  : list candidate :=
  match cs with
  | [] => []
  | c :: rest =>
      if Set_has seen (fst c) then first_occurrences_from seen rest
      else c :: first_occurrences_from (Set_add seen (fst c)) rest
  end.

Definition first_occurrences (cs : list candidate) : list candidate :=
  first_occurrences_from [] cs.

(** The revision of a file: the first eight digits of the MD5 of its
    bytes, or of the clock reading number [tick] when it cannot be read. *)
Definition file_revision (path : jsstring) (tick : nat) : jsstring :=
  match read_file fs path with
  | Some bytes => md5_8 bytes
  | None => md5_8 (N_to_js (clock fs tick))
  end.

(** The entry made from a candidate. *)
Definition entry_from (c : candidate) (e : PrecacheEntry) : Prop :=
  url e = fst c
  /\ match snd c with
     | FromBuild asset =>
         if needsRevision (fst c) then
           exists tick,
             revision e
             = Some (file_revision
                       (path_join [buildDir opts; strip_next_prefix asset])
                       tick)
         else revision e = None
     | FromPublic file =>
         exists tick,
           revision e
           = Some (file_revision
                     (path_join [publicDir opts; List.skipn 1 file]) tick)
     | FromAdditional entry => revision e = revision entry
     end.

End Candidates.

(** *** Facts on sets and first occurrences *)

Lemma Set_has_app members more x :
  Set_has (members ++ more) x = Set_has members x || Set_has more x.
Proof. apply List.existsb_app. Qed.

Lemma Set_has_add_same members x : Set_has (Set_add members x) x = true.
Proof.
  unfold Set_add. destruct (Set_has members x) eqn:E; [exact E|].
  rewrite Set_has_app. cbn. now rewrite str_eqb_refl, orb_true_r.
Qed.

Lemma Set_has_add_mono members x y :
  Set_has members y = true → Set_has (Set_add members x) y = true.
Proof.
  intros H. unfold Set_add. destruct (Set_has members x); [exact H|].
  now rewrite Set_has_app, H.
Qed.

Lemma Set_add_present members x :
  Set_has members x = true → Set_add members x = members.
Proof. unfold Set_add. now intros ->. Qed.

Section FirstOccurrences.

Variable fs : filesystem.
Variable opts : ManifestGeneratorOptions.

Lemma first_occurrences_from_app seen (cs1 cs2 : list candidate) :
  first_occurrences_from seen (cs1 ++ cs2)
  = first_occurrences_from seen cs1
    ++ first_occurrences_from
         (List.fold_left Set_add (List.map fst cs1) seen) cs2.
Proof.
  revert seen. induction cs1 as [|c cs1 IH]; intros seen; [reflexivity|].
  cbn [app first_occurrences_from List.map List.fold_left].
  destruct (Set_has seen (fst c)) eqn:E.
  - now rewrite (Set_add_present _ _ E), IH.
  - cbn [app]. now rewrite IH.
Qed.

(** A kept candidate was not seen before, ... *)
Lemma first_occurrences_from_unseen seen (cs : list candidate) c :
  In c (first_occurrences_from seen cs) → Set_has seen (fst c) = false.
Proof.
  revert seen. induction cs as [|c0 cs IH]; intros seen; [intros []|].
  cbn [first_occurrences_from]. destruct (Set_has seen (fst c0)) eqn:E.
  - apply IH.
  - intros [<- | Hin]; [exact E|]. specialize (IH _ Hin).
    destruct (Set_has seen (fst c)) eqn:E'; [|reflexivity].
    now rewrite (Set_has_add_mono _ (fst c0) _ E') in IH.
Qed.

(** ... so the kept candidates have pairwise distinct URLs. *)
Lemma first_occurrences_from_NoDup seen (cs : list candidate) :
  List.NoDup (List.map fst (first_occurrences_from seen cs)).
Proof.
  revert seen. induction cs as [|c cs IH]; intros seen; [constructor|].
  cbn [first_occurrences_from]. destruct (Set_has seen (fst c)); [apply IH|].
  cbn [List.map]. constructor; [|apply IH].
  intros Hin. apply List.in_map_iff in Hin as (c' & Heq & Hin).
  apply first_occurrences_from_unseen in Hin.
  now rewrite Heq, Set_has_add_same in Hin.
Qed.

(** A candidate is kept exactly when no candidate before it has its URL:
    the kept entry is the first one in phase order. *)
Lemma first_occurrences_from_first seen (cs : list candidate) c :
  In c (first_occurrences_from seen cs) →
  ∃ before after,
    cs = before ++ c :: after
    ∧ ∀ c', In c' before → fst c' ≠ fst c.
Proof.
  revert seen. induction cs as [|c0 cs IH]; intros seen; [intros []|].
  cbn [first_occurrences_from]. destruct (Set_has seen (fst c0)) eqn:E.
  - intros Hin. pose proof (first_occurrences_from_unseen _ _ _ Hin) as Hun.
    destruct (IH _ Hin) as (before & after & -> & Hb).
    exists (c0 :: before), after. split; [reflexivity|].
    intros c' [<- | Hc']; [congruence | auto].
  - intros [<- | Hin]; [exists [], cs; split; [reflexivity | intros ? []]|].
    pose proof (first_occurrences_from_unseen _ _ _ Hin) as Hun.
    destruct (IH _ Hin) as (before & after & -> & Hb).
    exists (c0 :: before), after. split; [reflexivity|].
    intros c' [<- | Hc']; [|auto].
    intros Heq. now rewrite <- Heq, Set_has_add_same in Hun.
Qed.

(** *** The values of the helpers *)

Lemma generateRevisionHash_value path w :
  ∃ tick, fst (generateRevisionHash fs path w) = file_revision fs path tick.
Proof.
  unfold generateRevisionHash, file_revision, readFile, mbind, IO_bind, mret,
    IO_ret. cbn. destruct (read_file fs path); [now exists 0|].
  cbn. eauto.
Qed.

Lemma filter_traversal_value warning files w :
  fst (filter_traversal warning files w) = no_traversal files.
Proof.
  revert w. induction files as [|file files IH]; intros w; [reflexivity|].
  cbn [filter_traversal no_traversal List.filter].
  destruct (hasPathTraversal file); cbn [negb].
  - unfold mbind, IO_bind. cbn. apply IH.
  - unfold mbind, IO_bind, mret, IO_ret. specialize (IH w).
    destruct (filter_traversal warning files w) as [kept w']. cbn in *.
    now rewrite IH.
Qed.

Lemma getStaticBuildFiles_value root w :
  fst (getStaticBuildFiles fs (buildDir opts) root w)
  = static_build_files fs opts.
Proof.
  unfold getStaticBuildFiles, static_build_files, stat, globby, mbind, IO_bind,
    mret, IO_ret. cbn.
  destruct (stat_ok fs _); [|reflexivity]. cbn.
  destruct (glob_files fs _ _); [reflexivity|]. apply filter_traversal_value.
Qed.

Lemma getPublicFiles_value w :
  fst (getPublicFiles fs (publicDir opts) (projectRoot opts)
         (publicExcludes opts) w)
  = public_files fs opts.
Proof.
  unfold getPublicFiles, public_files, stat, globby, mbind, IO_bind, mret,
    IO_ret. cbn.
  destruct (stat_ok fs _); [|reflexivity]. cbn.
  destruct (isPathWithinProject _ _); [|reflexivity]. cbn.
  destruct (glob_files fs _ _); [reflexivity|]. apply filter_traversal_value.
Qed.

(** *** The three loops *)

(** What one turn of a loop does to [entries] and [seenUrls], for a loop
    whose items give the candidates [f]. *)
Definition turn_spec {A : Type} (f : A → option candidate)
  (body : loop_state → A → IO loop_state) : Prop :=
  ∀ entries seen item w,
    match f item with
    | None => fst (body (entries, seen) item w) = (entries, seen)
    | Some c =>
        if Set_has seen (fst c)
        then fst (body (entries, seen) item w) = (entries, seen)
        else ∃ e, fst (body (entries, seen) item w)
                  = (entries ++ [e], Set_add seen (fst c))
                  ∧ entry_from fs opts c e
    end.

Lemma for_each_spec {A : Type} (f : A → option candidate) body :
  turn_spec f body →
  ∀ items entries seen w,
    ∃ new,
      fst (for_each body items (entries, seen) w)
      = (entries ++ new,
         List.fold_left Set_add (List.map fst (filter_map f items)) seen)
      ∧ List.Forall2 (entry_from fs opts)
          (first_occurrences_from seen (filter_map f items)) new.
Proof.
  intros Hbody items.
  induction items as [|item items IH]; intros entries seen w.
  { exists []. cbn. rewrite app_nil_r. split; [reflexivity | constructor]. }
  cbn [for_each filter_map]. unfold mbind, IO_bind.
  specialize (Hbody entries seen item w).
  destruct (body (entries, seen) item w) as [st' w'] eqn:Eb. cbn [fst] in Hbody.
  destruct (f item) as [c|].
  - cbn [List.map List.fold_left first_occurrences_from].
    destruct (Set_has seen (fst c)) eqn:Es.
    + subst st'. rewrite (Set_add_present _ _ Es). apply IH.
    + destruct Hbody as (e & -> & He).
      destruct (IH (entries ++ [e]) (Set_add seen (fst c)) w')
        as (new & Hrun & Hnew).
      exists (e :: new). rewrite Hrun, <- app_assoc. split; [reflexivity|].
      now constructor.
  - subst st'. apply IH.
Qed.

Lemma process_build_asset_turn :
  turn_spec (build_candidate opts) (process_build_asset fs opts).
Proof.
  intros entries seen asset w. unfold build_candidate, process_build_asset.
  destruct (_ && _); [reflexivity|].
  destruct (matchesExclusion _ _); [reflexivity|]. cbn [fst].
  destruct (Set_has seen _); [reflexivity|].
  unfold entry_from. cbn [fst snd].
  destruct (needsRevision _) eqn:En.
  - unfold mbind, IO_bind, mret, IO_ret.
    destruct (generateRevisionHash_value
                (path_join [buildDir opts; strip_next_prefix asset]) w)
      as [tick Ht].
    destruct (generateRevisionHash fs _ w) as [r w']. cbn [fst] in *.
    eexists. split; [reflexivity|]. cbn [url revision]. subst r. eauto.
  - eexists. split; [reflexivity|]. now split.
Qed.

Lemma process_public_file_turn :
  turn_spec (public_candidate opts) (process_public_file fs opts).
Proof.
  intros entries seen file w. unfold public_candidate, process_public_file.
  cbn [fst]. destruct (Set_has seen _); [reflexivity|].
  unfold entry_from, mbind, IO_bind, mret, IO_ret. cbn [fst snd].
  destruct (generateRevisionHash_value
              (path_join [publicDir opts; List.skipn 1 file]) w) as [tick Ht].
  destruct (generateRevisionHash fs _ w) as [r w']. cbn [fst] in *.
  eexists. split; [reflexivity|]. cbn [url revision]. subst r. eauto.
Qed.

Lemma process_additional_entry_turn :
  turn_spec (additional_candidate opts) (process_additional_entry opts).
Proof.
  intros entries seen entry w.
  unfold additional_candidate, process_additional_entry.
  destruct (str_eqb (url entry) []); [reflexivity|].
  destruct (hasPathTraversal _); [reflexivity|]. cbn [fst].
  destruct (Set_has seen _); [reflexivity|].
  eexists. split; [reflexivity|]. now split.
Qed.

Lemma readBuildManifest_value dir w :
  fst (readBuildManifest fs dir w)
  = read_build_manifest fs (path_join [dir; js "build-manifest.json"]).
Proof.
  unfold readBuildManifest, mbind, IO_bind, mret, IO_ret. cbn.
  now destruct (read_build_manifest fs _).
Qed.

(** A run that passes the two containment tests returns, and what it
    returns is made from the first occurrences of the candidates. *)
Lemma generatePrecacheManifest_returns w :
  isPathWithinProject (buildDir opts) (projectRoot opts) = true →
  isPathWithinProject (publicDir opts) (projectRoot opts) = true →
  ∃ entries w',
    generatePrecacheManifest fs opts w = (Returned entries, w')
    ∧ List.Forall2 (entry_from fs opts)
        (first_occurrences (candidates fs opts)) entries.
Proof.
  intros Hb Hp. unfold generatePrecacheManifest. rewrite Hb, Hp. cbn [negb].
  unfold mbind, IO_bind, mret, IO_ret.
  destruct (logger_info _ w) as [[] w1].
  pose proof (readBuildManifest_value (buildDir opts) w1) as Hm.
  destruct (readBuildManifest fs (buildDir opts) w1) as [bm w2].
  cbn [fst] in Hm.
  set (assets_step := match bm with Some _ => _ | None => _ end).
  assert (Ha : fst (assets_step w2) = manifest_assets fs opts).
  { unfold assets_step, manifest_assets. rewrite <- Hm.
    destruct bm; [|reflexivity]. now destruct (logger_info _ w2) as [[] ?]. }
  destruct (assets_step w2) as [manifestAssets w3]. cbn [fst] in Ha.
  pose proof (getStaticBuildFiles_value (projectRoot opts) w3) as Hs.
  destruct (getStaticBuildFiles fs (buildDir opts) (projectRoot opts) w3)
    as [staticFiles w4]. cbn [fst] in Hs.
  destruct (logger_info _ w4) as [[] w5].
  destruct (for_each_spec _ _ process_build_asset_turn
              (Set_from (manifestAssets ++ staticFiles)) [] [] w5)
    as (new1 & H1 & F1).
  destruct (for_each (process_build_asset fs opts) _ _ w5)
    as [[entries1 seen1] w6].
  cbn [fst app] in H1. injection H1 as -> Hseen1.
  pose proof (getPublicFiles_value w6) as Hpub.
  destruct (getPublicFiles fs _ _ _ w6) as [publicFiles w7].
  cbn [fst] in Hpub.
  destruct (logger_info _ w7) as [[] w8].
  destruct (for_each_spec _ _ process_public_file_turn publicFiles
              new1 seen1 w8) as (new2 & H2 & F2).
  destruct (for_each (process_public_file fs opts) _ _ w8)
    as [[entries2 seen2] w9].
  cbn [fst] in H2. injection H2 as -> Hseen2.
  destruct (for_each_spec _ _ process_additional_entry_turn
              (additionalManifestEntries opts) (new1 ++ new2) seen2 w9)
    as (new3 & H3 & F3).
  destruct (for_each (process_additional_entry opts) _ _ w9)
    as [[entries3 seen3] w10].
  cbn [fst] in H3. injection H3 as -> Hseen3.
  destruct (logger_info _ w10) as [[] w11]. cbn [fst].
  eexists _, _. split; [reflexivity|].
  unfold first_occurrences, candidates.
  rewrite !first_occurrences_from_app, <- app_assoc. subst.
  repeat apply List.Forall2_app; assumption.
Qed.

End FirstOccurrences.

(** *** A project on disk, for the examples *)

Definition example_asset_bytes : list N := js "console.log(1)".
Definition example_robots_bytes : list N := js "User-agent: *".

(** [/proj/.next/static/chunks/abcdef1234.js] and [/proj/public/robots.txt];
    no [build-manifest.json]. *)
Definition example_fs : filesystem :=
  {| read_file := fun path =>
       if str_eqb path (js "/proj/.next/static/chunks/abcdef1234.js")
       then Some example_asset_bytes
       else if str_eqb path (js "/proj/public/robots.txt")
       then Some example_robots_bytes
       else None;
     read_build_manifest := fun _ => None;
     stat_ok := fun path =>
       str_eqb path (js "/proj/.next/static")
       || str_eqb path (js "/proj/public");
     glob_files := fun cwd _ =>
       if str_eqb cwd (js "/proj/.next/static")
       then inr [js "chunks/abcdef1234.js"]
       else if str_eqb cwd (js "/proj/public") then inr [js "robots.txt"]
       else inr [];
     clock := fun _ => 1700000000000%N |}.

Definition example_options : ManifestGeneratorOptions :=
  {| buildDir := js "/proj/.next";
     publicDir := js "/proj/public";
     basePath := js "/app";
     publicExcludes := [];
     buildExcludes := [];
     additionalManifestEntries := [];
     modifyURLPrefix := [];
     projectRoot := js "/proj" |}.

(** The same project, with extra entries and a rewrite that make several
    candidates meet on one URL. *)
Definition example_options_colliding : ManifestGeneratorOptions :=
  {| buildDir := js "/proj/.next";
     publicDir := js "/proj/public";
     basePath := js "/app";
     publicExcludes := [];
     buildExcludes := [ExGlob (js "*.map")];
     additionalManifestEntries :=
       [{| url := js "/robots.txt"; revision := Some (js "extra001") |};
        {| url := js "/offline"; revision := None |};
        {| url := js "https://cdn.example/app/offline";
           revision := Some (js "extra003") |}];
     modifyURLPrefix := [(js "https://cdn.example", js "")];
     projectRoot := js "/proj" |}.

Definition initial_world : world := {| trace := []; clock_reads := 0 |}.

(** *** The claims on [generatePrecacheManifest] *)

(** C1: the URLs of a returned manifest are pairwise distinct; its entries
    are made, in order, from the candidates that are the first with their
    final URL in phase order (build assets, public files, extra entries),
    each such candidate having no candidate with the same URL before it. *)
Theorem generatePrecacheManifest_first_write_wins
    (fs : filesystem) (opts : ManifestGeneratorOptions) (w : world)
    (entries : list PrecacheEntry) :
  fst (generatePrecacheManifest fs opts w) = Returned entries →
  List.NoDup (List.map url entries)
  ∧ List.Forall2 (entry_from fs opts)
      (first_occurrences (candidates fs opts)) entries
  ∧ ∀ c, In c (first_occurrences (candidates fs opts)) →
         ∃ before after,
           candidates fs opts = before ++ c :: after
           ∧ ∀ c', In c' before → fst c' ≠ fst c.
Proof.
  intros Hrun.
  assert (Hchecks :
    isPathWithinProject (buildDir opts) (projectRoot opts) = true
    ∧ isPathWithinProject (publicDir opts) (projectRoot opts) = true).
  { unfold generatePrecacheManifest in Hrun.
    destruct (isPathWithinProject (buildDir opts) _); [|discriminate].
    destruct (isPathWithinProject (publicDir opts) _); [|discriminate].
    now split. }
  destruct Hchecks as [Hb Hp].
  destruct (generatePrecacheManifest_returns fs opts w Hb Hp)
    as (entries' & w' & Hrun' & Hkept).
  rewrite Hrun' in Hrun. cbn [fst] in Hrun. injection Hrun as ->.
  split; [|split].
  - replace (List.map url entries)
      with (List.map fst (first_occurrences (candidates fs opts))).
    + apply first_occurrences_from_NoDup.
    + clear Hrun'. induction Hkept as [|c e cs es [He _] _ IH];
        [reflexivity|]. cbn [List.map]. now rewrite He, IH.
  - exact Hkept.
  - intros c Hin. exact (first_occurrences_from_first _ _ _ Hin).
Qed.

Lemma generatePrecacheManifest_first_write_wins_witness :
  let entries :=
    [{| url := js "/app/_next/static/chunks/abcdef1234.js";
        revision := Some (md5_8 example_asset_bytes) |};
     {| url := js "/app/robots.txt";
        revision := Some (md5_8 example_robots_bytes) |};
     {| url := js "/app/offline"; revision := None |}] in
  fst (generatePrecacheManifest example_fs example_options_colliding
         initial_world) = Returned entries
  ∧ List.NoDup (List.map url entries)
  ∧ List.Forall2 (entry_from example_fs example_options_colliding)
      (first_occurrences (candidates example_fs example_options_colliding))
      entries.
Proof.
  intros entries.
  assert (H : fst (generatePrecacheManifest example_fs
                     example_options_colliding initial_world)
              = Returned entries) by (vm_compute; reflexivity).
  split; [exact H|].
  destruct (generatePrecacheManifest_first_write_wins _ _ _ _ H)
    as (Hnodup & Hkept & _).
  split; assumption.
Defined.

(** C9: when the build directory or the public directory fails the
    containment test, the call throws, and the world is as it was: nothing
    has been read, listed or logged, and no entry exists. *)
Theorem generatePrecacheManifest_containment_is_fatal
    (fs : filesystem) (opts : ManifestGeneratorOptions) (w : world) :
  isPathWithinProject (buildDir opts) (projectRoot opts) = false
  ∨ isPathWithinProject (publicDir opts) (projectRoot opts) = false →
  ∃ message, generatePrecacheManifest fs opts w = (Threw message, w).
Proof.
  unfold generatePrecacheManifest. intros [H | H].
  - rewrite H. cbn [negb]. eauto.
  - rewrite H. destruct (isPathWithinProject (buildDir opts) _);
      cbn [negb]; eauto.
Qed.

Definition example_options_outside : ManifestGeneratorOptions :=
  {| buildDir := js "/proj/../etc/.next";
     publicDir := js "/proj/public";
     basePath := js "";
     publicExcludes := [];
     buildExcludes := [];
     additionalManifestEntries := [];
     modifyURLPrefix := [];
     projectRoot := js "/proj" |}.

Lemma generatePrecacheManifest_containment_is_fatal_witness :
  ∃ message,
    generatePrecacheManifest example_fs example_options_outside initial_world
    = (Threw message, initial_world).
Proof.
  apply (generatePrecacheManifest_containment_is_fatal example_fs
           example_options_outside initial_world).
  left. vm_compute. reflexivity.
Defined.


(** C6, as stated, fails: for the project of the scenario the first
    entry has a revision, the first eight digits of the MD5 of the asset's
    bytes, and not [null]; [abcdef1234.js] has no [.hash.] part before its
    extension and no [hash-] prefix, so [needsRevision] answers [true]. *)
Lemma scenario_build_asset_has_revision :
  needsRevision (js "/app/_next/static/chunks/abcdef1234.js") = true
  ∧ fst (generatePrecacheManifest example_fs example_options initial_world)
    = Returned
        [{| url := js "/app/_next/static/chunks/abcdef1234.js";
            revision := Some (js "6114f5ad") |};
         {| url := js "/app/robots.txt"; revision := Some (js "ca121b5d") |}]
  ∧ fst (generatePrecacheManifest example_fs example_options initial_world)
    ≠ Returned
        [{| url := js "/app/_next/static/chunks/abcdef1234.js";
            revision := None |};
         {| url := js "/app/robots.txt";
            revision := Some (md5_8 example_robots_bytes) |}].
Proof.
  split; [reflexivity|]. split; [vm_compute; reflexivity|].
  vm_compute. discriminate.
Qed.

(** C6 (amended): with [basePath] [/app], no exclusion, no rewrite, no
    extra entry and no build manifest, a build directory whose static
    listing is [chunks/abcdef1234.js] and a public directory whose listing
    is [robots.txt], both files readable, the manifest is exactly the two
    entries [/app/_next/static/chunks/abcdef1234.js] and [/app/robots.txt],
    each with the first eight hexadecimal digits of the MD5 of its file's
    bytes as revision. *)
Theorem scenario_manifest
    (fs : filesystem) (opts : ManifestGeneratorOptions) (w : world)
    (assetBytes robotsBytes : list N) :
  basePath opts = js "/app" →
  buildExcludes opts = [] → publicExcludes opts = [] →
  additionalManifestEntries opts = [] → modifyURLPrefix opts = [] →
  isPathWithinProject (buildDir opts) (projectRoot opts) = true →
  isPathWithinProject (publicDir opts) (projectRoot opts) = true →
  read_build_manifest fs (path_join [buildDir opts; js "build-manifest.json"])
  = None →
  stat_ok fs (path_join [buildDir opts; js "static"]) = true →
  glob_files fs (path_join [buildDir opts; js "static"]) []
  = inr [js "chunks/abcdef1234.js"] →
  stat_ok fs (publicDir opts) = true →
  glob_files fs (publicDir opts) [] = inr [js "robots.txt"] →
  read_file fs (path_join [buildDir opts; js "static/chunks/abcdef1234.js"])
  = Some assetBytes →
  read_file fs (path_join [publicDir opts; js "robots.txt"])
  = Some robotsBytes →
  fst (generatePrecacheManifest fs opts w)
  = Returned
      [{| url := js "/app/_next/static/chunks/abcdef1234.js";
          revision := Some (md5_8 assetBytes) |};
       {| url := js "/app/robots.txt";
          revision := Some (md5_8 robotsBytes) |}].
Proof.
  intros Hbase Hbe Hpe Hadd Hmod Hb Hp Hman Hst Hgl Hpst Hpgl Hra Hrr.
  destruct (generatePrecacheManifest_returns fs opts w Hb Hp)
    as (entries & w' & -> & Hkept). cbn [fst]. f_equal.
  assert (Hc : candidates fs opts
    = [(js "/app/_next/static/chunks/abcdef1234.js",
        FromBuild (js "/_next/static/chunks/abcdef1234.js"));
       (js "/app/robots.txt", FromPublic (js "/robots.txt"))]).
  { unfold candidates, manifest_assets, static_build_files, public_files.
    rewrite Hman, Hst, Hgl, Hpst, Hp, Hpe, Hpgl, Hadd.
    unfold build_candidate, public_candidate, build_url, public_url,
      with_basePath.
    rewrite Hbe, Hmod, Hbase. reflexivity. }
  rewrite Hc in Hkept.
  inversion Hkept as [|c1 e1 cs1 es1 [Hu1 Hr1] Hrest]; subst.
  inversion Hrest as [|c2 e2 cs2 es2 [Hu2 Hr2] Hnil]; subst.
  inversion Hnil; subst.
  destruct e1 as [u1 r1], e2 as [u2 r2]. cbn [url revision fst snd] in *.
  change (needsRevision (js "/app/_next/static/chunks/abcdef1234.js"))
    with true in Hr1. cbn iota in Hr1.
  destruct Hr1 as [t1 Hr1], Hr2 as [t2 Hr2].
  unfold file_revision in Hr1, Hr2.
  change (strip_next_prefix (js "/_next/static/chunks/abcdef1234.js"))
    with (js "static/chunks/abcdef1234.js") in Hr1.
  change (List.skipn 1 (js "/robots.txt")) with (js "robots.txt") in Hr2.
  match type of Hr1 with context [read_file fs ?p] =>
    replace (read_file fs p) with (Some assetBytes) in Hr1
      by (symmetry; exact Hra)
  end.
  match type of Hr2 with context [read_file fs ?p] =>
    replace (read_file fs p) with (Some robotsBytes) in Hr2
      by (symmetry; exact Hrr)
  end.
  now subst.
Qed.

Lemma scenario_manifest_witness :
  fst (generatePrecacheManifest example_fs example_options initial_world)
  = Returned
      [{| url := js "/app/_next/static/chunks/abcdef1234.js";
          revision := Some (md5_8 example_asset_bytes) |};
       {| url := js "/app/robots.txt";
          revision := Some (md5_8 example_robots_bytes) |}].
Proof.
  apply (scenario_manifest example_fs example_options initial_world
           example_asset_bytes example_robots_bytes);
    vm_compute; reflexivity.
Defined.

Example needsRevision_hashed :
  needsRevision (js "/_next/static/css/app.3f9a1b2c.css") = false.
Proof. reflexivity. Qed.

Example needsRevision_chunk :
  needsRevision (js "/_next/static/chunks/0123abcd4567-main.js") = false.
Proof. reflexivity. Qed.

Example needsRevision_bare_hash_name :
  needsRevision (js "/app/_next/static/chunks/abcdef1234.js") = true.
Proof. reflexivity. Qed.

Example needsRevision_plain :
  needsRevision (js "/robots.txt") = true.
Proof. reflexivity. Qed.

Example glob_match_star :
  glob_match (js "/_next/static/*.map") (js "/_next/static/chunks/a.js.map")
  = true.
Proof. reflexivity. Qed.

Example glob_match_literal_dot :
  glob_match (js "a.js") (js "axjs") = false.
Proof. reflexivity. Qed.

(** *** Exclusion patterns *)

(** A glob without wildcard: no [*] and no [?]. *)
Definition literal_glob (pattern : jsstring) : Prop :=
  List.Forall (fun c => c <> 42%N /\ c <> 63%N) pattern.

Lemma glob_match_literal pattern value :
  literal_glob pattern -> glob_match pattern value = str_eqb pattern value.
Proof.
  intros H. revert value.
  induction H as [|c pattern [H42 H63] _ IH]; intros value.
  - now destruct value.
  - cbn [glob_match str_eqb].
    destruct (N.eqb_spec c 42) as [|_]; [contradiction|].
    destruct value as [|d value]; [reflexivity|].
    destruct (N.eqb_spec c 63) as [|_]; [contradiction|]. now rewrite IH.
Qed.

Lemma glob_match_star_step pattern value :
  glob_match (42%N :: pattern) value
  = glob_match pattern value
    || match value with
       | d :: value' =>
           negb (is_line_terminator d) && glob_match (42%N :: pattern) value'
       | [] => false
       end.
Proof. now destruct value. Qed.

Lemma glob_match_star_literal pattern value :
  literal_glob pattern ->
  glob_match (42%N :: pattern) value = true
  <-> exists before,
        value = before ++ pattern
        /\ List.forallb (fun d => negb (is_line_terminator d)) before = true.
Proof.
  intros Hp. induction value as [|d value IH]; rewrite glob_match_star_step.
  - rewrite orb_false_r, (glob_match_literal _ _ Hp). split.
    + intros H. exists []. split; [|reflexivity].
      now destruct (str_eqb_spec pattern []) as [->|].
    + intros (before & H & _). symmetry in H.
      apply app_eq_nil in H as [_ ->]. reflexivity.
  - rewrite orb_true_iff, andb_true_iff, IH, (glob_match_literal _ _ Hp).
    split.
    + intros [H | [Hd (before & -> & Hb)]].
      * exists []. split; [|reflexivity].
        now destruct (str_eqb_spec pattern (d :: value)) as [->|].
      * exists (d :: before). cbn [app List.forallb]. now rewrite Hd, Hb.
    + intros (before & H & Hb). destruct before as [|e before].
      * left. cbn [app] in H. rewrite H. apply str_eqb_refl.
      * right. cbn [app List.forallb] in *. injection H as -> ->.
        apply andb_true_iff in Hb as [He Hb]. split; [exact He|].
        now exists before.
Qed.

(** How the glob strings of [buildExcludes] are read.  A glob without [*]
    and [?] excludes the asset that is equal to it, and no other; so a
    list of such globs excludes exactly its members.  A [*] followed by
    such a glob excludes whatever ends with it, slashes included, as long
    as no line terminator stands before. *)
Theorem matchesExclusion_globs (value : jsstring) (globs : list jsstring)
    (suffix : jsstring) :
  (List.Forall literal_glob globs ->
   matchesExclusion value (List.map ExGlob globs) = true <-> In value globs)
  /\ (literal_glob suffix ->
      matchesExclusion value [ExGlob (js "*" ++ suffix)] = true
      <-> exists before,
            value = before ++ suffix
            /\ List.forallb (fun d => negb (is_line_terminator d)) before
               = true).
Proof.
  split.
  - intros H. unfold matchesExclusion.
    rewrite List.existsb_exists. split.
    + intros (p & Hin & Hm). apply List.in_map_iff in Hin as (g & <- & Hin).
      rewrite List.Forall_forall in H.
      rewrite (glob_match_literal _ _ (H g Hin)) in Hm.
      now destruct (str_eqb_spec g value) as [<-|].
    + intros Hin. exists (ExGlob value). split; [now apply List.in_map|].
      rewrite List.Forall_forall in H.
      rewrite (glob_match_literal _ _ (H value Hin)). apply str_eqb_refl.
  - intros H. unfold matchesExclusion. cbn [List.existsb app].
    rewrite orb_false_r. now apply glob_match_star_literal.
Qed.

Lemma matchesExclusion_globs_witness :
  matchesExclusion (js "/_next/static/chunks/app.js.map")
    [ExGlob (js "*.map")] = true.
Proof.
  apply (proj2 (matchesExclusion_globs (js "/_next/static/chunks/app.js.map")
                  [] (js ".map"))).
  - repeat constructor; discriminate.
  - exists (js "/_next/static/chunks/app.js"). split; reflexivity.
Defined.

(** *** URL prefix rewriting *)

(** The rewrite table is read in order and applied once: the first key
    that is a prefix of the URL is replaced, whatever the keys after it and
    whatever the rewritten URL starts with; a URL that no key is a prefix
    of is returned as it is. *)
Theorem applyURLPrefixModifications_first_match
    (url : jsstring) (before after : list (jsstring * jsstring))
    (originalPrefix newPrefix : jsstring) :
  (forall kv, In kv before -> startsWith url (fst kv) = false) ->
  (applyURLPrefixModifications url before = url)
  /\ (startsWith url originalPrefix = true ->
      applyURLPrefixModifications url
        (before ++ (originalPrefix, newPrefix) :: after)
      = newPrefix ++ List.skipn (length originalPrefix) url).
Proof.
  intros H. induction before as [|[k v] before IH].
  - split; [reflexivity|]. intros Hk. cbn [app applyURLPrefixModifications].
    now rewrite Hk.
  - cbn [app applyURLPrefixModifications].
    pose proof (H (k, v) (or_introl eq_refl)) as Hk. cbn [fst] in Hk.
    rewrite Hk. apply IH.
    intros kv Hin. apply H. now right.
Qed.

Lemma applyURLPrefixModifications_first_match_witness :
  applyURLPrefixModifications (js "/_next/static/a.js")
    [(js "/static", js "/s"); (js "/_next", js "https://cdn.example");
     (js "https://cdn", js "x")]
  = js "https://cdn.example/static/a.js".
Proof.
  assert (H : forall kv, In kv [(js "/static", js "/s")] ->
                         startsWith (js "/_next/static/a.js") (fst kv) = false)
    by (intros kv [<- | []]; reflexivity).
  apply (proj2 (applyURLPrefixModifications_first_match
                  (js "/_next/static/a.js") [(js "/static", js "/s")]
                  [(js "https://cdn", js "x")] (js "/_next")
                  (js "https://cdn.example") H)).
  reflexivity.
Defined.

(** *** [needsRevision] *)

Definition is_hex (c : char16) : bool :=
  is_digit c || ((97 <=? c) && (c <=? 102))%N || ((65 <=? c) && (c <=? 70))%N.

Lemma to_lower_hex (c : char16) :
  is_hex c = true -> is_hex_lower (to_lower c) = true.
Proof.
  unfold is_hex, is_hex_lower, to_lower, is_upper, is_digit. intros H.
  assert (R : (48 <= c <= 57 \/ 97 <= c <= 102 \/ 65 <= c <= 70)%N).
  { apply orb_true_iff in H as [H | H];
      [apply orb_true_iff in H as [H | H]|];
      apply andb_true_iff in H as [H1 H2];
      apply N.leb_le in H1; apply N.leb_le in H2; lia. }
  assert (T : forall d, (48 <= d <= 57 \/ 97 <= d <= 102)%N ->
    ((48 <=? d)%N && (d <=? 57)%N || (97 <=? d)%N && (d <=? 102)%N) = true).
  { intros d [Hd | Hd]; apply orb_true_iff; [left | right];
      apply andb_true_iff; split; apply N.leb_le; lia. }
  destruct ((65 <=? c)%N && (c <=? 90)%N) eqn:Eu; apply T.
  - apply andb_true_iff in Eu as [E1 E2].
    apply N.leb_le in E1. apply N.leb_le in E2. lia.
  - apply andb_false_iff in Eu as [E | E]; apply N.leb_gt in E; lia.
Qed.

Lemma hex_run_full (digits rest : jsstring) :
  List.forallb is_hex_lower digits = true ->
  startsWith rest [c_dot] = true ->
  hex_run (digits ++ rest) = length digits.
Proof.
  intros Hd Hr. induction digits as [|c digits IH].
  - destruct rest as [|d rest]; [discriminate|]. rewrite startsWith_1 in Hr.
    apply N.eqb_eq in Hr. now subst d.
  - cbn [List.forallb] in Hd. apply andb_true_iff in Hd as [Hc Hd].
    cbn [app hex_run length]. now rewrite Hc, IH.
Qed.

Lemma hashed_extensions_lower (ext : jsstring) :
  In ext hashed_extensions -> List.map to_lower ext = ext.
Proof.
  unfold hashed_extensions. cbn [In].
  intros H. repeat destruct H as [<- | H]; try reflexivity. destruct H.
Qed.

Lemma hashPattern_test_hashed (stem digits ext : jsstring) :
  8 <= length digits -> List.forallb is_hex digits = true ->
  In ext hashed_extensions ->
  hashPattern_test (stem ++ [c_dot] ++ digits ++ [c_dot] ++ ext) = true.
Proof.
  intros Hlen Hd Hext. unfold hashPattern_test.
  apply List.existsb_exists. exists ext. split; [exact Hext|].
  rewrite !List.map_app, (hashed_extensions_lower _ Hext).
  change (List.map to_lower [c_dot]) with [c_dot].
  rewrite !rev_app_distr. cbn [rev app].
  set (digits' := rev (List.map to_lower digits)).
  set (stem' := rev (List.map to_lower stem)).
  assert (Hd' : List.forallb is_hex_lower digits' = true).
  { unfold digits'. apply List.forallb_forall. intros c Hc.
    apply List.in_rev, List.in_map_iff in Hc as (d & <- & Hin).
    rewrite List.forallb_forall in Hd. apply to_lower_hex, Hd, Hin. }
  assert (Hl' : length digits' = length digits).
  { unfold digits'. now rewrite length_rev, List.length_map. }
  rewrite <- !app_assoc. cbn [app].
  replace (startsWith (rev ext ++ c_dot :: digits' ++ c_dot :: stem')
             (rev ext ++ [c_dot])) with true
    by (symmetry; apply startsWith_prefix;
        exists (digits' ++ c_dot :: stem'); now rewrite <- app_assoc).
  replace (List.skipn (S (length ext))
             (rev ext ++ c_dot :: digits' ++ c_dot :: stem'))
    with (digits' ++ c_dot :: stem').
  2: { change (rev ext ++ c_dot :: digits' ++ c_dot :: stem')
         with (rev ext ++ [c_dot] ++ digits' ++ c_dot :: stem').
       rewrite app_assoc.
       rewrite List.skipn_app, List.skipn_all2
         by (rewrite List.length_app, length_rev; cbn [length]; lia).
       rewrite List.length_app, length_rev. cbn [length app].
       now replace (S (length ext) - (length ext + 1)) with 0 by lia. }
  rewrite (hex_run_full digits' (c_dot :: stem') Hd')
    by reflexivity.
  rewrite List.skipn_app, List.skipn_all, Nat.sub_diag. cbn [app List.skipn].
  cbn [startsWith]. rewrite N.eqb_refl, Hl'. cbn [andb].
  rewrite andb_true_r. apply Nat.leb_le, Hlen.
Qed.

Lemma chunkHashPattern_from_mono (run run' : nat) (s : jsstring) :
  run <= run' ->
  chunkHashPattern_from run s = true -> chunkHashPattern_from run' s = true.
Proof.
  revert run run'. induction s as [|c s IH]; intros run run' Hle;
    [discriminate|].
  cbn [chunkHashPattern_from]. destruct (is_hex_lower c).
  - apply IH. lia.
  - destruct (c =? 45)%N; cbn [andb]; [|trivial].
    destruct (Nat.leb_spec 8 run) as [H8|H8].
    + intros _. destruct (Nat.leb_spec 8 run'); [reflexivity | lia].
    + intros H. now destruct (8 <=? run')%nat.
Qed.

Lemma chunkHashPattern_from_digits (run : nat) (digits rest : jsstring) :
  List.forallb is_hex_lower digits = true -> 8 <= run + length digits ->
  chunkHashPattern_from run (digits ++ 45%N :: rest) = true.
Proof.
  revert run. induction digits as [|c digits IH]; intros run Hd Hlen.
  - cbn [app chunkHashPattern_from is_hex_lower is_digit N.leb N.compare
         Pos.compare Pos.compare_cont andb orb N.eqb Pos.eqb].
    cbn [length] in Hlen. destruct (Nat.leb_spec 8 run); [reflexivity | lia].
  - cbn [List.forallb] in Hd. apply andb_true_iff in Hd as [Hc Hd].
    cbn [app chunkHashPattern_from]. rewrite Hc. apply IH; [exact Hd|].
    cbn [length] in Hlen. lia.
Qed.

Lemma chunkHashPattern_from_later (run : nat) (before s : jsstring) :
  chunkHashPattern_from 0 s = true ->
  chunkHashPattern_from run (before ++ s) = true.
Proof.
  intros H. revert run. induction before as [|c before IH]; intros run.
  - exact (chunkHashPattern_from_mono 0 run s ltac:(lia) H).
  - cbn [app chunkHashPattern_from]. destruct (is_hex_lower c); [apply IH|].
    destruct ((c =? 45)%N && (8 <=? run)%nat); [reflexivity | apply IH].
Qed.

(** A URL whose name carries a content hash gets no revision: eight or
    more hexadecimal digits (of either case) between two dots before one
    of the thirteen extensions, or eight or more lower-case hexadecimal
    digits before a dash anywhere in the URL. *)
Theorem needsRevision_hashed_names (before digits after ext : jsstring) :
  8 <= length digits ->
  (List.forallb is_hex digits = true -> In ext hashed_extensions ->
   needsRevision (before ++ js "." ++ digits ++ js "." ++ ext) = false)
  /\ (List.forallb is_hex_lower digits = true ->
      needsRevision (before ++ digits ++ js "-" ++ after) = false).
Proof.
  intros Hlen. split.
  - intros Hd Hext. unfold needsRevision.
    pose proof (hashPattern_test_hashed before digits ext Hlen Hd Hext) as H.
    unfold c_dot in H. now rewrite H.
  - intros Hd. unfold needsRevision.
    destruct (hashPattern_test _); [reflexivity|].
    unfold chunkHashPattern_test.
    rewrite (chunkHashPattern_from_later 0 before); [reflexivity|].
    apply chunkHashPattern_from_digits; [exact Hd | lia].
Qed.

Lemma needsRevision_hashed_names_witness :
  needsRevision (js "/_next/static/css/app.3F9A1B2C.css") = false
  /\ needsRevision (js "/_next/static/chunks/0123abcd4567-main.js") = false.
Proof.
  split.
  - apply (proj1 (needsRevision_hashed_names (js "/_next/static/css/app")
                    (js "3F9A1B2C") [] (js "css") ltac:(cbn; lia)));
      [reflexivity | cbn; tauto].
  - apply (proj2 (needsRevision_hashed_names (js "/_next/static/chunks/")
                    (js "0123abcd4567") (js "main.js") [] ltac:(cbn; lia))).
    reflexivity.
Defined.

(** *** The assets of the build manifest *)

Lemma Set_has_In (members : list jsstring) (x : jsstring) :
  Set_has members x = true <-> In x members.
Proof.
  unfold Set_has. rewrite List.existsb_exists. split.
  - intros (y & Hin & Heq). now destruct (str_eqb_spec x y) as [->|].
  - intros Hin. exists x. split; [exact Hin | apply str_eqb_refl].
Qed.

Lemma Set_add_spec (members : list jsstring) (x : jsstring) :
  List.NoDup members ->
  List.NoDup (Set_add members x)
  /\ forall y, In y (Set_add members x) <-> In y members \/ y = x.
Proof.
  intros Hn. unfold Set_add. destruct (Set_has members x) eqn:E.
  - apply Set_has_In in E. split; [exact Hn|]. intros y. split; [tauto|].
    intros [H | ->]; assumption.
  - split.
    + apply List.NoDup_app; [exact Hn | repeat constructor; intros [] |].
      intros y Hy [<- | []]. apply Set_has_In in Hy. congruence.
    + intros y. rewrite List.in_app_iff. cbn [In]. intuition congruence.
Qed.

Lemma Set_from_spec (items : list jsstring) :
  List.NoDup (Set_from items) /\ forall y, In y (Set_from items) <-> In y items.
Proof.
  unfold Set_from.
  assert (G : forall acc, List.NoDup acc ->
    List.NoDup (List.fold_left Set_add items acc)
    /\ forall y, In y (List.fold_left Set_add items acc)
                 <-> In y acc \/ In y items).
  { induction items as [|x items IH]; intros acc Hacc.
    - split; [exact Hacc|]. intros y. cbn. tauto.
    - cbn [List.fold_left]. destruct (Set_add_spec acc x Hacc) as [Hn Hin].
      destruct (IH _ Hn) as [Hn' Hin']. split; [exact Hn'|].
      intros y. rewrite Hin', Hin. cbn [In]. intuition congruence. }
  destruct (G [] (List.NoDup_nil _)) as [Hn Hin]. split; [exact Hn|].
  intros y. rewrite Hin. cbn [In]. tauto.
Qed.

(** [extractAssetsFromManifest] returns each file once: the files of
    [polyfillFiles], [rootMainFiles], [lowPriorityFiles] and of every page,
    and nothing else. *)
Theorem extractAssetsFromManifest_files (manifest : NextBuildManifest) :
  List.NoDup (extractAssetsFromManifest manifest)
  /\ forall file,
       In file (extractAssetsFromManifest manifest)
       <-> In file (files_of (polyfillFiles manifest))
           \/ In file (files_of (rootMainFiles manifest))
           \/ In file (files_of (lowPriorityFiles manifest))
           \/ exists table page assets,
                pages manifest = Some table
                /\ In (page, assets) table /\ In file assets.
Proof.
  unfold extractAssetsFromManifest.
  destruct (Set_from_spec
              (files_of (polyfillFiles manifest)
               ++ files_of (rootMainFiles manifest)
               ++ files_of (lowPriorityFiles manifest)
               ++ match pages manifest with
                  | Some table => List.concat (List.map snd table)
                  | None => []
                  end)) as [Hn Hin].
  split; [exact Hn|]. intros file. rewrite Hin, !List.in_app_iff.
  do 3 apply or_iff_compat_l.
  destruct (pages manifest) as [table|].
  - rewrite List.in_concat. split.
    + intros (assets & Ha & Hf).
      apply List.in_map_iff in Ha as ([page assets'] & <- & Hin').
      exists table, page, assets'. now repeat split.
    + intros (table' & page & assets & [= <-] & Hin' & Hf).
      exists assets. split; [|exact Hf].
      apply List.in_map_iff. now exists (page, assets).
  - split; [intros [] | intros (? & ? & ? & [=] & _)].
Qed.

(** *** The revisions of a manifest *)

Lemma hex_digit_lower (n : N) :
  (n < 16)%N -> is_hex_lower (hex_digit n) = true.
Proof.
  intros H. unfold hex_digit, is_hex_lower, is_digit.
  destruct (N.ltb_spec n 10); apply orb_true_iff; [left | right];
    apply andb_true_iff; split; apply N.leb_le; lia.
Qed.

Lemma byte_digits (x : N) :
  is_hex_lower (hex_digit (N.land x 255 / 16)) = true
  /\ is_hex_lower (hex_digit (N.land x 255 mod 16)) = true.
Proof.
  assert (H : (N.land x 255 < 256)%N).
  { change 255%N with (N.ones 8). rewrite N.land_ones.
    now apply N.mod_lt. }
  split; apply hex_digit_lower.
  - apply N.Div0.div_lt_upper_bound. exact H.
  - now apply N.mod_lt.
Qed.

(** [createHash("md5")...digest("hex").slice(0, 8)] is eight lower-case
    hexadecimal digits, whatever is hashed. *)
Lemma md5_8_shape (bytes : list N) :
  length (md5_8 bytes) = 8
  /\ List.forallb is_hex_lower (md5_8 bytes) = true.
Proof.
  unfold md5_8, md5_hex, md5.
  destruct (md5_blocks _ _ _) as [[[a b] c] d].
  cbn [le_bytes app hex List.flat_map List.firstn]. split; [reflexivity|].
  cbn [List.forallb].
  destruct (byte_digits a) as [-> ->].
  destruct (byte_digits (N.shiftr a 8)) as [-> ->].
  destruct (byte_digits (N.shiftr (N.shiftr a 8) 8)) as [-> ->].
  destruct (byte_digits (N.shiftr (N.shiftr (N.shiftr a 8) 8) 8))
    as [-> ->].
  reflexivity.
Qed.

Lemma first_occurrences_from_subset seen (cs : list candidate) c :
  In c (first_occurrences_from seen cs) -> In c cs.
Proof.
  revert seen. induction cs as [|c0 cs IH]; intros seen; [intros []|].
  cbn [first_occurrences_from]. destruct (Set_has seen (fst c0)).
  - intros H. right. exact (IH _ H).
  - intros [<- | H]; [now left | right; exact (IH _ H)].
Qed.

Lemma filter_map_In {A B} (f : A -> option B) (l : list A) (b : B) :
  In b (filter_map f l) <-> exists a, In a l /\ f a = Some b.
Proof.
  induction l as [|x l IH]; cbn [filter_map In].
  - split; [intros [] | intros (? & [] & _)].
  - destruct (f x) as [y|] eqn:E; cbn [In]; rewrite IH; split.
    + intros [<- | (a & Ha & Hf)]; eauto.
    + intros (a & [<- | Ha] & Hf); [left; congruence | eauto].
    + intros (a & Ha & Hf). eauto.
    + intros (a & [<- | Ha] & Hf); [congruence | eauto].
Qed.

(** What a run returns, read off its result alone. *)
Lemma returned_entries (fs : filesystem) (opts : ManifestGeneratorOptions)
    (w : world) (entries : list PrecacheEntry) :
  fst (generatePrecacheManifest fs opts w) = Returned entries ->
  List.Forall2 (entry_from fs opts)
    (first_occurrences (candidates fs opts)) entries.
Proof.
  intros Hrun.
  assert (Hchecks :
    isPathWithinProject (buildDir opts) (projectRoot opts) = true
    /\ isPathWithinProject (publicDir opts) (projectRoot opts) = true).
  { unfold generatePrecacheManifest in Hrun.
    destruct (isPathWithinProject (buildDir opts) _); [|discriminate].
    destruct (isPathWithinProject (publicDir opts) _); [|discriminate].
    now split. }
  destruct Hchecks as [Hb Hp].
  destruct (generatePrecacheManifest_returns fs opts w Hb Hp)
    as (entries' & w' & Hrun' & Hkept).
  rewrite Hrun' in Hrun. cbn [fst] in Hrun. now injection Hrun as <-.
Qed.

Definition is_revision_hash (r : jsstring) : bool :=
  (length r =? 8)%nat && List.forallb is_hex_lower r.

(** Every revision of a returned manifest is [null], eight lower-case
    hexadecimal digits, or the revision that came with one of the
    additional entries. *)
Theorem generatePrecacheManifest_revisions
    (fs : filesystem) (opts : ManifestGeneratorOptions) (w : world)
    (entries : list PrecacheEntry) (e : PrecacheEntry) :
  fst (generatePrecacheManifest fs opts w) = Returned entries ->
  In e entries ->
  revision e = None
  \/ (exists r, revision e = Some r /\ is_revision_hash r = true)
  \/ (exists extra, In extra (additionalManifestEntries opts)
                    /\ revision e = revision extra).
Proof.
  intros Hrun Hin. apply returned_entries in Hrun.
  assert (Hhash : forall path tick,
    is_revision_hash (file_revision fs path tick) = true).
  { intros path tick. unfold is_revision_hash, file_revision.
    destruct (read_file fs path) as [bytes|];
      [destruct (md5_8_shape bytes) as [-> ->]
      |destruct (md5_8_shape (N_to_js (clock fs tick))) as [-> ->]];
      reflexivity. }
  assert (Hc : exists c, In c (first_occurrences (candidates fs opts))
                         /\ entry_from fs opts c e).
  { clear Hhash. induction Hrun as [|c e' cs es He _ IH]; [destruct Hin|].
    destruct Hin as [<- | Hin].
    - exists c. split; [now left | exact He].
    - destruct (IH Hin) as (c' & Hc' & He'). exists c'. split; [now right|].
      exact He'. }
  destruct Hc as ([u src] & Hcin & _ & Hrev). cbn [fst snd] in Hrev.
  destruct src as [asset|file|extra].
  - destruct (needsRevision u); [|now left].
    destruct Hrev as [tick ->]. right. left. eauto.
  - destruct Hrev as [tick ->]. right. left. eauto.
  - right. right. exists extra. split; [|exact Hrev].
    apply first_occurrences_from_subset in Hcin. unfold candidates in Hcin.
    rewrite !List.in_app_iff, !filter_map_In in Hcin.
    destruct Hcin as [(a & _ & Ha) | [(a & _ & Ha) | (a & Hin' & Ha)]].
    + unfold build_candidate in Ha.
      destruct (_ && _); [discriminate|].
      destruct (matchesExclusion _ _); discriminate.
    + discriminate.
    + unfold additional_candidate in Ha.
      destruct (str_eqb _ _); [discriminate|].
      destruct (hasPathTraversal _); [discriminate|].
      now injection Ha as _ <-.
Qed.

(** The manifest of the example project. *)
Definition example_manifest : list PrecacheEntry :=
  [{| url := js "/app/_next/static/chunks/abcdef1234.js";
      revision := Some (md5_8 example_asset_bytes) |};
   {| url := js "/app/robots.txt";
      revision := Some (md5_8 example_robots_bytes) |}].

Lemma generatePrecacheManifest_revisions_witness :
  exists r, Some (md5_8 example_robots_bytes) = Some r
            /\ is_revision_hash r = true.
Proof.
  destruct (generatePrecacheManifest_revisions example_fs example_options
              initial_world example_manifest
              {| url := js "/app/robots.txt";
                 revision := Some (md5_8 example_robots_bytes) |}
              ltac:(vm_compute; reflexivity)
              ltac:(right; left; reflexivity))
    as [H | [H | (extra & [] & _)]]; [discriminate | exact H].
Defined.

(** *** Failures of the file system *)

(** Failures of the file system are not fatal.  When
    [build-manifest.json] cannot be read or parsed, a run whose
    directories are inside the project root returns a manifest whatever
    [stat], [globby] and [readFile] answer (a directory that is missing,
    a listing that fails, a file that cannot be read), and a run that
    throws has thrown one of the two containment violations. *)
Theorem generatePrecacheManifest_survives_file_errors
    (fs : filesystem) (opts : ManifestGeneratorOptions) (w : world) :
  read_build_manifest fs (path_join [buildDir opts; js "build-manifest.json"])
  = None ->
  (isPathWithinProject (buildDir opts) (projectRoot opts) = true ->
   isPathWithinProject (publicDir opts) (projectRoot opts) = true ->
   exists entries, fst (generatePrecacheManifest fs opts w) = Returned entries)
  /\ (forall message,
        fst (generatePrecacheManifest fs opts w) = Threw message ->
        message
        = js "Build directory is outside project root - security violation"
        \/ message
           = js "Public directory is outside project root - security violation").
Proof.
  intros _. split.
  - intros Hb Hp.
    destruct (generatePrecacheManifest_returns fs opts w Hb Hp)
      as (entries & w' & -> & _). now exists entries.
  - intros message.
    destruct (isPathWithinProject (buildDir opts) (projectRoot opts)) eqn:Hb.
    + destruct (isPathWithinProject (publicDir opts) (projectRoot opts))
        eqn:Hp.
      * destruct (generatePrecacheManifest_returns fs opts w Hb Hp)
          as (entries & w' & -> & _). discriminate.
      * unfold generatePrecacheManifest. rewrite Hb, Hp. cbn.
        intros [= <-]. now right.
    + unfold generatePrecacheManifest. rewrite Hb. cbn.
      intros [= <-]. now left.
Qed.

(** A file system on which nothing can be found, listed or read. *)
Definition failing_fs : filesystem :=
  {| read_file := fun _ => None;
     read_build_manifest := fun _ => None;
     stat_ok := fun path => str_eqb path (js "/proj/public");
     glob_files := fun _ _ => inl (js "Error: EACCES");
     clock := fun _ => 0%N |}.

Lemma generatePrecacheManifest_survives_file_errors_witness :
  exists entries,
    fst (generatePrecacheManifest failing_fs example_options_colliding
           initial_world) = Returned entries.
Proof.
  apply (proj1 (generatePrecacheManifest_survives_file_errors
                  failing_fs example_options_colliding initial_world
                  eq_refl));
    vm_compute; reflexivity.
Defined.


(** *** The containment test *)

Lemma path_join_single (p : jsstring) :
  p <> [] -> path_join [p] = path_normalize p.
Proof. destruct p; [contradiction | reflexivity]. Qed.

Lemma path_normalize_absolute (p : jsstring) :
  startsWith p (js "/") = true ->
  path_normalize p
  = match join_with (js "/")
            (normalize_segments false [] (split_on c_slash p)) with
    | [] => js "/"
    | body => js "/" ++ (if endsWith p (js "/") then body ++ js "/" else body)
    end.
Proof.
  intros H. destruct p as [|c p]; [discriminate|].
  unfold path_normalize. rewrite H. cbn [negb].
  now destruct (join_with _ _).
Qed.

(** A path under the root is inside it: for an absolute root that does
    not end with a slash, and a relative path none of whose segments is
    [..], the root followed by [/] and the relative path passes the
    containment test. *)
Theorem isPathWithinProject_below_root (root sub : jsstring) :
  startsWith root (js "/") = true -> endsWith root (js "/") = false ->
  List.Forall (fun seg => str_eqb seg (js "..") = false)
    (split_on c_slash sub) ->
  isPathWithinProject (root ++ js "/" ++ sub) root = true.
Proof.
  intros Habs Hend Hsub. unfold isPathWithinProject.
  assert (Hroot : root <> []) by (intros ->; discriminate).
  assert (Hfull : startsWith (root ++ js "/" ++ sub) (js "/") = true).
  { destruct root; [contradiction | exact Habs]. }
  assert (Hne : root ++ js "/" ++ sub <> [])
    by (destruct root; [contradiction | discriminate]).
  cbv zeta. rewrite (path_join_single _ Hroot), (path_join_single _ Hne).
  rewrite (path_normalize_absolute _ Habs), (path_normalize_absolute _ Hfull).
  rewrite Hend. change (js "/" ++ sub) with (c_slash :: sub).
  rewrite split_on_app, normalize_segments_app.
  set (kept := normalize_segments false [] (split_on c_slash root)).
  destruct (normalize_segments_grows false (rev kept) _ Hsub) as [more ->].
  rewrite rev_involutive.
  destruct (join_with (js "/") kept) as [|c body] eqn:Ekept.
  { now destruct (join_with (js "/") (kept ++ more)). }
  assert (Hkept : kept <> []) by (intros E; now rewrite E in Ekept).
  rewrite (join_with_app _ _ more Hkept), Ekept.
  cbn [app]. apply startsWith_prefix.
  destruct (endsWith (root ++ c_slash :: sub) (js "/")); cbn [app];
    eexists; rewrite <- ?app_assoc; reflexivity.
Qed.

Lemma isPathWithinProject_below_root_witness :
  isPathWithinProject (js "/proj/./.next//static") (js "/proj") = true.
Proof.
  apply (isPathWithinProject_below_root (js "/proj") (js "./.next//static"));
    [reflexivity | reflexivity | repeat constructor].
Defined.

Lemma plain_segment_extended (seg suffix : jsstring) :
  plain_segment seg -> slash_free suffix -> plain_segment (seg ++ suffix).
Proof.
  intros (H0 & H1 & H2 & Hs) Hsuffix. repeat split.
  - destruct seg; [discriminate | reflexivity].
  - destruct seg as [|c [|d seg]]; try discriminate.
    + destruct suffix; [exact H1|]. cbn. now rewrite andb_false_r.
    + cbn. now rewrite andb_false_r.
  - destruct seg as [|c [|d [|e seg]]]; try discriminate.
    + destruct suffix as [|x [|y suffix]]; try exact H2.
      * cbn in *. rewrite andb_true_r in H1. now rewrite H1.
      * cbn. now rewrite !andb_false_r.
    + destruct suffix; [exact H2|]. cbn. now rewrite !andb_false_r.
    + cbn. now rewrite !andb_false_r.
  - now apply List.Forall_app.
Qed.

(** The containment test compares strings, not segments: a directory
    beside the root whose name starts with the name of the root passes
    it.  For a root made of plain segments, whatever follows its last
    segment without a slash is accepted as inside. *)
Theorem isPathWithinProject_is_a_string_prefix
    (segs : list jsstring) (suffix : jsstring) :
  segs <> [] -> List.Forall plain_segment segs -> slash_free suffix ->
  isPathWithinProject (js "/" ++ join_with (js "/") segs ++ suffix)
    (js "/" ++ join_with (js "/") segs) = true.
Proof.
  intros Hne Hsegs Hsuffix. unfold isPathWithinProject. cbv zeta.
  rewrite !path_join_single by discriminate.
  rewrite (path_normalize_plain segs Hne Hsegs).
  destruct segs as [|last init] using rev_ind; [contradiction|]. clear IHinit.
  assert (E : js "/" ++ join_with (js "/") (init ++ [last]) ++ suffix
              = js "/" ++ join_with (js "/") (init ++ [last ++ suffix])).
  { rewrite !join_with_last. destruct init; [reflexivity|].
    now rewrite <- !app_assoc. }
  rewrite E, path_normalize_plain.
  - rewrite <- E. apply startsWith_prefix. exists suffix.
    now rewrite <- !app_assoc.
  - now destruct init.
  - apply List.Forall_app in Hsegs as [Hinit Hlast].
    apply List.Forall_app. split; [exact Hinit|].
    inversion Hlast; subst. constructor; [|constructor].
    now apply plain_segment_extended.
Qed.

Lemma isPathWithinProject_is_a_string_prefix_witness :
  isPathWithinProject (js "/srv/proj-backup") (js "/srv/proj") = true.
Proof.
  apply (isPathWithinProject_is_a_string_prefix [js "srv"; js "proj"]
           (js "-backup")).
  - discriminate.
  - repeat constructor; discriminate.
  - repeat constructor; discriminate.
Defined.

End ManifestGenerator.

(* ===================================================================== *)
(** ** JSON: [JSON.stringify] and [JSON.parse] on the values above *)
(* ===================================================================== *)

Module Json.

(** *** [JSON.stringify] *)

Definition is_high_surrogate (c : char16) : bool :=
  ((55296 <=? c) && (c <=? 56319))%N.
Definition is_low_surrogate (c : char16) : bool :=
  ((56320 <=? c) && (c <=? 57343))%N.

(** Four lower-case hexadecimal digits. *)
Definition hex4 (c : char16) : jsstring :=
  [hex_digit (c / 4096); hex_digit ((c / 256) mod 16);
   hex_digit ((c / 16) mod 16); hex_digit (c mod 16)].

Definition unicode_escape (c : char16) : jsstring := js "\u" ++ hex4 c.

(** One code unit that is not a surrogate, as [QuoteJSONString] writes
    it. *)
Definition quote_unit (c : char16) : jsstring :=
  if (c =? 8)%N then js "\b"
  else if (c =? 9)%N then js "\t"
  else if (c =? 10)%N then js "\n"
  else if (c =? 12)%N then js "\f"
  else if (c =? 13)%N then js "\r"
  else if (c =? 34)%N then [92; 34]%N
  else if (c =? 92)%N then js "\\"
  else if (c <? 32)%N then unicode_escape c
  else [c].

(** The characters between the quotes: a surrogate pair is kept, a lone
    surrogate is escaped. *)
Fixpoint quote_chars (s : jsstring) : jsstring :=
  match s with
  | [] => []
  | c :: s1 =>
      if is_high_surrogate c then
        match s1 with
        | d :: s2 =>
            if is_low_surrogate d then c :: d :: quote_chars s2
            else unicode_escape c ++ quote_chars s1
        | [] => unicode_escape c
        end
      else if is_low_surrogate c then unicode_escape c ++ quote_chars s1
      else quote_unit c ++ quote_chars s1
  end.

Definition QuoteJSONString (s : jsstring) : jsstring :=
  34%N :: quote_chars s ++ [34%N].

(** [Number::toString] for a non-zero finite number given by its decimal
    digits [digits] (no zero at either end) and the position [n] of the
    decimal point after the first digit of [digits]. *)
Definition zeros (count : nat) : jsstring := List.repeat 48%N count.

Definition digits_to_string (digits : jsstring) (n : Z) : jsstring :=
  let k := Z.of_nat (length digits) in
  if ((k <=? n) && (n <=? 21))%Z then digits ++ zeros (Z.to_nat (n - k))
  else if ((0 <? n) && (n <=? 21))%Z then
    List.firstn (Z.to_nat n) digits ++ js "."
    ++ List.skipn (Z.to_nat n) digits
  else if ((-6 <? n) && (n <=? 0))%Z then
    js "0." ++ zeros (Z.to_nat (- n)) ++ digits
  else
    let exponent :=
      (if (n - 1 <? 0)%Z then js "-" else js "+")
      ++ N_to_js (Z.abs_N (n - 1)) in
    match digits with
    | [d] => [d] ++ js "e" ++ exponent
    | d :: more => [d] ++ js "." ++ more ++ js "e" ++ exponent
    | [] => []
    end.

(** The digits of a positive integer without its trailing zeros. *)
Fixpoint drop_zeros (s : jsstring) : jsstring :=
  match s with
  | c :: s' => if (c =? 48)%N then drop_zeros s' else s
  | [] => []
  end.

Definition strip_trailing_zeros (digits : jsstring) : jsstring :=
  rev (drop_zeros (rev digits)).

Definition sign_of (z : Z) : jsstring :=
  if (z <? 0)%Z then js "-" else [].

(** [Number::toString] on a finite number. *)
Definition Number_toString (n : jsnumber) : jsstring :=
  match n with
  | NInt z =>
      if (z =? 0)%Z then js "0"
      else
        let digits := N_to_js (Z.abs_N z) in
        sign_of z
        ++ digits_to_string (strip_trailing_zeros digits)
             (Z.of_nat (length digits))
  | NDec m e =>
      let digits := N_to_js (Z.abs_N m) in
      sign_of m ++ digits_to_string digits (Z.of_nat (length digits) + e)
  | NNaN => js "NaN"
  | NInfinity negative =>
      if negative then js "-Infinity" else js "Infinity"
  end.

Definition is_finite (n : jsnumber) : bool :=
  match n with NInt _ | NDec _ _ => true | _ => false end.

(** The finite numbers in their one representation: an integer as [NInt],
    any other as [NDec m e] with [e] negative and [m] not a multiple of
    ten. *)
Definition json_number (n : jsnumber) : bool :=
  match n with
  | NInt _ => true
  | NDec m e => (e <? 0)%Z && negb (Z.abs_N m mod 10 =? 0)%N
  | _ => false
  end.

(** How [JSON.stringify] ends on a value: it throws a [TypeError], it
    returns [undefined], or it returns a text. *)
Inductive serialized : Type :=
  | Throws
  | Undefined
  | Text (text : jsstring).

(** [SerializeJSONProperty] for a value that has [depth] enclosing objects
    on the stack of the serialisation.  A reference to one of them is the
    cycle that makes [JSON.stringify] throw. *)
Fixpoint SerializeJSONProperty (depth : nat) (v : jsval) : serialized :=
  match v with
  | VNull => Text (js "null")
  | VBool b => Text (if b then js "true" else js "false")
  | VString s => Text (QuoteJSONString s)
  | VNumber n => Text (if is_finite n then Number_toString n else js "null")
  | VBigInt _ => Throws
  | VUndefined | VSymbol _ | VFunction _ => Undefined
  | VRegExp _ _ => Text (js "{}")
  | VBack up => if (up <? depth)%nat then Throws else Undefined
  | VArray items =>
      match
        (fix elements (items : list jsval) : option (list jsstring) :=
           match items with
           | [] => Some []
           | item :: rest =>
               match SerializeJSONProperty (S depth) item with
               | Throws => None
               | Undefined => option_map (cons (js "null")) (elements rest)
               | Text t => option_map (cons t) (elements rest)
               end
           end) items
      with
      | Some texts => Text (js "[" ++ join_with (js ",") texts ++ js "]")
      | None => Throws
      end
  | VObject props =>
      match
        (fix members (props : list (jsstring * jsval))
           : option (list jsstring) :=
           match props with
           | [] => Some []
           | (key, value) :: rest =>
               match SerializeJSONProperty (S depth) value with
               | Throws => None
               | Undefined => members rest
               | Text t =>
                   option_map (cons (QuoteJSONString key ++ js ":" ++ t))
                              (members rest)
               end
           end) props
      with
      | Some texts => Text (js "{" ++ join_with (js ",") texts ++ js "}")
      | None => Throws
      end
  end.

Definition JSON_stringify (v : jsval) : serialized :=
  SerializeJSONProperty 0 v.

(** *** [JSON.parse] *)

Definition is_json_ws (c : char16) : bool :=
  ((c =? 32) || (c =? 9) || (c =? 10) || (c =? 13))%N.

Fixpoint skip_ws (s : jsstring) : jsstring :=
  match s with
  | c :: s' => if is_json_ws c then skip_ws s' else s
  | [] => []
  end.

Definition hex_value (c : char16) : option N :=
  if is_digit c then Some (c - 48)%N
  else if ((97 <=? c) && (c <=? 102))%N then Some (c - 87)%N
  else if ((65 <=? c) && (c <=? 70))%N then Some (c - 55)%N
  else None.

(** The character an escape [\e] stands for, [\u] apart. *)
Definition simple_escape (e : char16) : option char16 :=
  if (e =? 34)%N then Some 34%N
  else if (e =? 92)%N then Some 92%N
  else if (e =? 47)%N then Some 47%N
  else if (e =? 98)%N then Some 8%N
  else if (e =? 102)%N then Some 12%N
  else if (e =? 110)%N then Some 10%N
  else if (e =? 114)%N then Some 13%N
  else if (e =? 116)%N then Some 9%N
  else None.

Definition prepend (c : char16) (r : option (jsstring * jsstring))
  : option (jsstring * jsstring) :=
  match r with
  | Some (chars, rest) => Some (c :: chars, rest)
  | None => None
  end.

(** A string, after its opening quote: the characters up to the closing
    quote, and what follows it. *)
Fixpoint parse_string_chars (s : jsstring) : option (jsstring * jsstring) :=
  match s with
  | [] => None
  | c :: s1 =>
      if (c =? 34)%N then Some ([], s1)
      else if (c =? 92)%N then
        match s1 with
        | [] => None
        | e :: s2 =>
            if (e =? 117)%N then
              match s2 with
              | h1 :: h2 :: h3 :: h4 :: s3 =>
                  match hex_value h1, hex_value h2, hex_value h3,
                        hex_value h4 with
                  | Some d1, Some d2, Some d3, Some d4 =>
                      prepend (((d1 * 16 + d2) * 16 + d3) * 16 + d4)%N
                              (parse_string_chars s3)
                  | _, _, _, _ => None
                  end
              | _ => None
              end
            else
              match simple_escape e with
              | Some c' => prepend c' (parse_string_chars s2)
              | None => None
              end
        end
      else if (c <? 32)%N then None
      else prepend c (parse_string_chars s1)
  end.

(** The longest run of decimal digits at the head of a string. *)
Fixpoint read_digits (s : jsstring) : jsstring * jsstring :=
  match s with
  | c :: s' =>
      if is_digit c
      then let '(digits, rest) := read_digits s' in (c :: digits, rest)
      else ([], s)
  | [] => ([], [])
  end.

Fixpoint js_to_uint (digits : jsstring) : Decimal.uint :=
  match digits with
  | [] => Decimal.Nil
  | c :: rest =>
      let d := js_to_uint rest in
      if (c =? 48)%N then Decimal.D0 d else if (c =? 49)%N then Decimal.D1 d
      else if (c =? 50)%N then Decimal.D2 d
      else if (c =? 51)%N then Decimal.D3 d
      else if (c =? 52)%N then Decimal.D4 d
      else if (c =? 53)%N then Decimal.D5 d
      else if (c =? 54)%N then Decimal.D6 d
      else if (c =? 55)%N then Decimal.D7 d
      else if (c =? 56)%N then Decimal.D8 d else Decimal.D9 d
  end.

Definition digits_value (digits : jsstring) : N :=
  N.of_uint (js_to_uint digits).

(** The number [± m * 10^e], [m] an integer: an integer value as [NInt],
    any other as [NDec] with the trailing zeros of [m] removed. *)
Fixpoint reduce_decimal (fuel : nat) (m : N) (e : Z) : N * Z :=
  match fuel with
  | O => (m, e)
  | S fuel' =>
      if ((e <? 0)%Z && (m mod 10 =? 0)%N)
      then reduce_decimal fuel' (m / 10)%N (e + 1)%Z
      else (m, e)
  end.

Definition make_number (negative : bool) (m : N) (e : Z) : jsnumber :=
  if (m =? 0)%N then NInt 0
  else
    let '(m', e') := reduce_decimal (N.to_nat (N.log2 m) + 1) m e in
    let signed := if negative then (- Z.of_N m')%Z else Z.of_N m' in
    if (0 <=? e')%Z then NInt (signed * 10 ^ e')%Z else NDec signed e'.

(** [frac ?]: a dot and at least one digit, or nothing. *)
Definition parse_fraction (s : jsstring) : option (jsstring * jsstring) :=
  match s with
  | c :: r =>
      if (c =? 46)%N then
        let '(frac_digits, rest) := read_digits r in
        match frac_digits with
        | [] => None
        | _ => Some (frac_digits, rest)
        end
      else Some ([], s)
  | [] => Some ([], s)
  end.

(** [exp ?]: [e] or [E], an optional sign and at least one digit, or
    nothing. *)
Definition parse_exponent (s : jsstring) : option (Z * jsstring) :=
  match s with
  | c :: r =>
      if (c =? 101)%N || (c =? 69)%N then
        let '(exp_negative, r') :=
          match r with
          | g :: r1 =>
              if (g =? 45)%N then (true, r1)
              else if (g =? 43)%N then (false, r1)
              else (false, r)
          | [] => (false, r)
          end in
        let '(exp_digits, rest) := read_digits r' in
        match exp_digits with
        | [] => None
        | _ =>
            let x := Z.of_N (digits_value exp_digits) in
            Some (if exp_negative then (- x)%Z else x, rest)
        end
      else Some (0%Z, s)
  | [] => Some (0%Z, s)
  end.

(** [int frac ? exp ?], the sign being read. *)
Definition parse_unsigned (negative : bool) (s : jsstring)
  : option (jsnumber * jsstring) :=
  let '(int_digits, s2) := read_digits s in
  match int_digits with
  | [] => None
  | d :: more =>
      if (d =? 48)%N && negb (str_eqb more []) then None
      else
        match parse_fraction s2 with
        | None => None
        | Some (frac_digits, s3) =>
            match parse_exponent s3 with
            | None => None
            | Some (x, rest) =>
                Some (make_number negative
                        (digits_value (int_digits ++ frac_digits))
                        (x - Z.of_nat (length frac_digits)), rest)
            end
        end
  end.

(** [- ? int frac ? exp ?] *)
Definition parse_number (s : jsstring) : option (jsnumber * jsstring) :=
  match s with
  | c :: r =>
      if (c =? 45)%N then parse_unsigned true r else parse_unsigned false s
  | [] => None
  end.

(** [CreateDataProperty] while an object is built: a key already there
    keeps its place and takes the new value. *)
Fixpoint set_prop (props : list (jsstring * jsval)) (key : jsstring)
  (v : jsval) : list (jsstring * jsval) :=
  match props with
  | [] => [(key, v)]
  | (k, old) :: rest =>
      if str_eqb k key then (k, v) :: rest
      else (k, old) :: set_prop rest key v
  end.

(** A value, the elements of an array after its opening bracket, the
    members of an object after its opening brace; each call hands a
    smaller [fuel] on, and [JSON_parse] starts with more than the length of
    the text.  The order in which the engine lists integer-like keys is not
    modelled: keys stay in the order of the text. *)
Fixpoint parse_value (fuel : nat) (s : jsstring) : option (jsval * jsstring) :=
  match fuel with
  | O => None
  | S fuel' =>
      match skip_ws s with
      | [] => None
      | c :: r =>
          if (c =? 34)%N then
            match parse_string_chars r with
            | Some (chars, rest) => Some (VString chars, rest)
            | None => None
            end
          else if (c =? 91)%N then
            match skip_ws r with
            | d :: r' =>
                if (d =? 93)%N then Some (VArray [], r')
                else
                  match parse_elements fuel' r with
                  | Some (items, rest) => Some (VArray items, rest)
                  | None => None
                  end
            | [] => None
            end
          else if (c =? 123)%N then
            match skip_ws r with
            | d :: r' =>
                if (d =? 125)%N then Some (VObject [], r')
                else
                  match parse_members fuel' r [] with
                  | Some (props, rest) => Some (VObject props, rest)
                  | None => None
                  end
            | [] => None
            end
          else if startsWith (c :: r) (js "true")
          then Some (VBool true, List.skipn 4 (c :: r))
          else if startsWith (c :: r) (js "false")
          then Some (VBool false, List.skipn 5 (c :: r))
          else if startsWith (c :: r) (js "null")
          then Some (VNull, List.skipn 4 (c :: r))
          else
            match parse_number (c :: r) with
            | Some (n, rest) => Some (VNumber n, rest)
            | None => None
            end
      end
  end
with parse_elements (fuel : nat) (s : jsstring)
  : option (list jsval * jsstring) :=
  match fuel with
  | O => None
  | S fuel' =>
      match parse_value fuel' s with
      | None => None
      | Some (v, r) =>
          match skip_ws r with
          | c :: r' =>
              if (c =? 44)%N then
                match parse_elements fuel' r' with
                | Some (items, rest) => Some (v :: items, rest)
                | None => None
                end
              else if (c =? 93)%N then Some ([v], r')
              else None
          | [] => None
          end
      end
  end
with parse_members (fuel : nat) (s : jsstring)
  (props : list (jsstring * jsval))
  : option (list (jsstring * jsval) * jsstring) :=
  match fuel with
  | O => None
  | S fuel' =>
      match skip_ws s with
      | q :: r0 =>
          if (q =? 34)%N then
            match parse_string_chars r0 with
            | None => None
            | Some (key, r1) =>
                match skip_ws r1 with
                | colon :: r2 =>
                    if (colon =? 58)%N then
                      match parse_value fuel' r2 with
                      | None => None
                      | Some (v, r3) =>
                          match skip_ws r3 with
                          | c :: r4 =>
                              if (c =? 44)%N
                              then parse_members fuel' r4 (set_prop props key v)
                              else if (c =? 125)%N
                              then Some (set_prop props key v, r4)
                              else None
                          | [] => None
                          end
                      end
                    else None
                | [] => None
                end
            end
          else None
      | [] => None
      end
  end.

(** [JSON.parse(text)]; [None] is a [SyntaxError]. *)
Definition JSON_parse (text : jsstring) : option jsval :=
  match parse_value (S (length text)) text with
  | Some (v, rest) =>
      match skip_ws rest with
      | [] => Some v
      | _ => None
      end
  | None => None
  end.

(** *** Reading back what [JSON.stringify] wrote: strings *)

(** Code units are below [2^16]. *)
Definition utf16 (s : jsstring) : bool :=
  List.forallb (fun c => (c <? 65536)%N) s.

Lemma hex_value_hex_digit k :
  (k < 16)%N -> hex_value (hex_digit k) = Some k.
Proof.
  intros H.
  assert (C : In k [0; 1; 2; 3; 4; 5; 6; 7; 8; 9; 10; 11; 12; 13; 14; 15]%N).
  { cbn. lia. }
  cbn in C. decompose [or] C; subst; try reflexivity. contradiction.
Qed.

Lemma hex4_digits c :
  (c < 65536)%N ->
  (c / 4096 < 16 /\ (c / 256) mod 16 < 16 /\ (c / 16) mod 16 < 16
   /\ c mod 16 < 16
   /\ ((c / 4096 * 16 + (c / 256) mod 16) * 16 + (c / 16) mod 16) * 16
      + c mod 16 = c)%N.
Proof.
  intros H.
  pose proof (N.div_mod c 16 ltac:(lia)) as H0.
  pose proof (N.div_mod (c / 16) 16 ltac:(lia)) as H1.
  pose proof (N.div_mod (c / 16 / 16) 16 ltac:(lia)) as H2.
  pose proof (N.mod_lt c 16 ltac:(lia)).
  pose proof (N.mod_lt (c / 16) 16 ltac:(lia)).
  pose proof (N.mod_lt (c / 16 / 16) 16 ltac:(lia)).
  replace (c / 256)%N with (c / 16 / 16)%N
    by (rewrite N.Div0.div_div; reflexivity).
  replace (c / 4096)%N with (c / 16 / 16 / 16)%N
    by (rewrite !N.Div0.div_div; reflexivity).
  assert (c / 16 / 16 / 16 < 16)%N.
  { rewrite !N.Div0.div_div. apply N.Div0.div_lt_upper_bound; lia. }
  repeat split; try assumption. lia.
Qed.

Lemma parse_unicode_escape c s :
  (c < 65536)%N ->
  parse_string_chars (unicode_escape c ++ s)
  = prepend c (parse_string_chars s).
Proof.
  intros H. destruct (hex4_digits c H) as (H1 & H2 & H3 & H4 & Hc).
  unfold unicode_escape, hex4. cbn [app parse_string_chars].
  change (92 =? 34)%N with false. change (92 =? 92)%N with true.
  change (117 =? 117)%N with true. cbv iota.
  rewrite !hex_value_hex_digit by assumption. now rewrite Hc.
Qed.

Lemma parse_literal_unit c s :
  (32 <= c)%N -> c <> 34%N -> c <> 92%N ->
  parse_string_chars (c :: s) = prepend c (parse_string_chars s).
Proof.
  intros H1 H2 H3. cbn [parse_string_chars].
  destruct (N.eqb_spec c 34); [contradiction|].
  destruct (N.eqb_spec c 92); [contradiction|].
  destruct (N.ltb_spec c 32); [lia | reflexivity].
Qed.

Lemma parse_quote_unit c s :
  (c < 65536)%N ->
  parse_string_chars (quote_unit c ++ s) = prepend c (parse_string_chars s).
Proof.
  intros H. unfold quote_unit.
  destruct (N.eqb_spec c 8); [subst; reflexivity|].
  destruct (N.eqb_spec c 9); [subst; reflexivity|].
  destruct (N.eqb_spec c 10); [subst; reflexivity|].
  destruct (N.eqb_spec c 12); [subst; reflexivity|].
  destruct (N.eqb_spec c 13); [subst; reflexivity|].
  destruct (N.eqb_spec c 34); [subst; reflexivity|].
  destruct (N.eqb_spec c 92); [subst; reflexivity|].
  destruct (N.ltb_spec c 32); [now apply parse_unicode_escape|].
  now apply parse_literal_unit.
Qed.

Lemma parse_quote_chars s rest :
  utf16 s = true ->
  parse_string_chars (quote_chars s ++ 34%N :: rest) = Some (s, rest).
Proof.
  induction s as [|c|c d s IH1 IH2] using PathGuard.list_pair_ind.
  - reflexivity.
  - cbn [utf16 List.forallb]. rewrite andb_true_r. intros Hc.
    apply N.ltb_lt in Hc. cbn [quote_chars].
    destruct (is_high_surrogate c);
      [|destruct (is_low_surrogate c)];
      rewrite <- ?app_assoc, ?parse_unicode_escape, ?parse_quote_unit
        by assumption; reflexivity.
  - cbn [utf16 List.forallb]. intros H.
    apply andb_true_iff in H as [Hc H]. pose proof H as Hds.
    apply andb_true_iff in H as [Hd Hs].
    apply N.ltb_lt in Hc. pose proof Hd as Hd'. apply N.ltb_lt in Hd'.
    specialize (IH1 Hs). specialize (IH2 Hds).
    change (quote_chars (c :: d :: s))
      with (if is_high_surrogate c then
              if is_low_surrogate d then c :: d :: quote_chars s
              else unicode_escape c ++ quote_chars (d :: s)
            else if is_low_surrogate c
                 then unicode_escape c ++ quote_chars (d :: s)
                 else quote_unit c ++ quote_chars (d :: s)).
    destruct (is_high_surrogate c) eqn:Ehc;
      [destruct (is_low_surrogate d) eqn:Eld | destruct (is_low_surrogate c)].
    + unfold is_high_surrogate in Ehc. unfold is_low_surrogate in Eld.
      apply andb_true_iff in Ehc as [Ehc _]. apply N.leb_le in Ehc.
      apply andb_true_iff in Eld as [Eld _]. apply N.leb_le in Eld.
      cbn [app]. rewrite (parse_literal_unit c) by lia.
      rewrite (parse_literal_unit d) by lia. now rewrite IH1.
    + rewrite <- app_assoc, parse_unicode_escape by assumption.
      now rewrite IH2.
    + rewrite <- app_assoc, parse_unicode_escape by assumption.
      now rewrite IH2.
    + rewrite <- app_assoc, parse_quote_unit by assumption.
      now rewrite IH2.
Qed.

(** *** Reading back what [JSON.stringify] wrote: numbers *)

Lemma uint_to_js_digits d : List.forallb is_digit (uint_to_js d) = true.
Proof.
  induction d as [|d IH|d IH|d IH|d IH|d IH|d IH|d IH|d IH|d IH|d IH];
    cbn [uint_to_js List.forallb]; [reflexivity | exact IH ..].
Qed.

Lemma js_to_uint_uint_to_js d : js_to_uint (uint_to_js d) = d.
Proof.
  induction d as [|d IH|d IH|d IH|d IH|d IH|d IH|d IH|d IH|d IH|d IH];
    [reflexivity | cbn; now rewrite IH ..].
Qed.

Lemma digits_value_N_to_js n : digits_value (N_to_js n) = n.
Proof.
  unfold digits_value, N_to_js. rewrite js_to_uint_uint_to_js.
  apply DecimalN.Unsigned.of_to.
Qed.

(** What follows a number must not continue it. *)
Definition ends_number (rest : jsstring) : bool :=
  match rest with
  | [] => true
  | c :: _ =>
      negb (is_digit c || (c =? 46)%N || (c =? 101)%N || (c =? 69)%N)
  end.

(** What follows a run of digits must not be a digit. *)
Definition not_digit_head (rest : jsstring) : bool :=
  match rest with
  | [] => true
  | c :: _ => negb (is_digit c)
  end.

Lemma ends_number_not_digit rest :
  ends_number rest = true -> not_digit_head rest = true.
Proof.
  destruct rest as [|c rest]; [reflexivity|]. cbn [ends_number not_digit_head].
  intros H. apply negb_true_iff in H.
  repeat (apply orb_false_iff in H as [H ?]). now rewrite H.
Qed.

Lemma read_digits_stop digits rest :
  List.forallb is_digit digits = true -> not_digit_head rest = true ->
  read_digits (digits ++ rest) = (digits, rest).
Proof.
  intros Hd Hr. induction digits as [|c digits IH].
  - destruct rest as [|c rest]; [reflexivity|]. cbn in *.
    destruct (is_digit c); [discriminate | reflexivity].
  - cbn [List.forallb] in Hd. apply andb_true_iff in Hd as [Hc Hd].
    cbn [app read_digits]. now rewrite Hc, (IH Hd).
Qed.

(** The decimal text of [n]: [0], or digits that do not start with [0]. *)
Lemma N_to_js_shape n :
  (n = 0%N /\ N_to_js n = js "0")
  \/ (n <> 0%N /\ exists c more,
        N_to_js n = c :: more /\ c <> 48%N /\ is_digit c = true).
Proof.
  destruct (N.eq_dec n 0%N) as [->|Hn]; [left; now split|]. right.
  split; [exact Hn|]. unfold N_to_js.
  pose proof (DecimalN.Unsigned.to_of (N.to_uint n)) as H.
  rewrite DecimalN.Unsigned.of_to in H.
  assert (Hnz : Decimal.nzhead (N.to_uint n) <> Decimal.Nil).
  { intros E. apply DecimalFacts.unorm_0 in E. rewrite E in H.
    apply Hn. rewrite <- (DecimalN.Unsigned.of_to n), H. reflexivity. }
  rewrite (DecimalFacts.unorm_nzhead _ Hnz) in H.
  pose proof (DecimalFacts.nzhead_nonzero (N.to_uint n)) as Hz.
  rewrite <- H in Hz, Hnz.
  destruct (N.to_uint n) as [|d|d|d|d|d|d|d|d|d|d];
    try contradiction; try (now destruct (Hz d));
    cbn [uint_to_js]; eexists _, _; repeat split; discriminate.
Qed.

Lemma drop_zeros_spec s :
  exists count, s = zeros count ++ drop_zeros s
                /\ length s = count + length (drop_zeros s).
Proof.
  induction s as [|c s (count & Hs & Hl)]; [exists 0; now split|].
  cbn [drop_zeros]. destruct (N.eqb_spec c 48) as [->|_].
  - exists (S count). cbn [zeros List.repeat app length]. split.
    + now f_equal.
    + now rewrite Hl.
  - exists 0. now split.
Qed.

Lemma rev_zeros count : rev (zeros count) = zeros count.
Proof.
  unfold zeros. induction count as [|count IH]; [reflexivity|].
  cbn [List.repeat rev]. rewrite IH.
  change [48%N] with (List.repeat 48%N 1).
  rewrite <- List.repeat_app. now rewrite Nat.add_1_r.
Qed.

Lemma strip_trailing_zeros_spec digits :
  strip_trailing_zeros digits
  ++ zeros (length digits - length (strip_trailing_zeros digits))
  = digits
  /\ length (strip_trailing_zeros digits) <= length digits.
Proof.
  unfold strip_trailing_zeros.
  destruct (drop_zeros_spec (rev digits)) as (count & Hs & Hl).
  rewrite length_rev in *.
  replace (length digits - length (drop_zeros (rev digits))) with count
    by lia.
  split; [|lia].
  rewrite <- (rev_involutive digits) at 2. rewrite Hs at 2.
  now rewrite rev_app_distr, rev_zeros.
Qed.

Lemma parse_fraction_none rest :
  ends_number rest = true -> parse_fraction rest = Some ([], rest).
Proof.
  destruct rest as [|c rest]; [reflexivity|]. cbn [ends_number parse_fraction].
  intros H. apply negb_true_iff in H.
  repeat (apply orb_false_iff in H as [H ?]). now replace (c =? 46)%N with false.
Qed.

Lemma parse_exponent_none rest :
  ends_number rest = true -> parse_exponent rest = Some (0%Z, rest).
Proof.
  destruct rest as [|c rest]; [reflexivity|]. cbn [ends_number parse_exponent].
  intros H. apply negb_true_iff in H.
  repeat (apply orb_false_iff in H as [H ?]).
  now replace (c =? 101)%N with false; replace (c =? 69)%N with false.
Qed.

Ltac split_digit_chain :=
  repeat match goal with
         | |- context [if ?b then _ else _] => destruct b
         end.

(** The value of a digit string followed by zeros, and of zeros followed
    by a digit string. *)
Lemma of_uint_acc_append_zero s acc :
  Pos.of_uint_acc (js_to_uint (s ++ [48%N])) acc
  = (10 * Pos.of_uint_acc (js_to_uint s) acc)%positive.
Proof.
  revert acc. induction s as [|c s IH]; intros acc; [reflexivity|].
  cbn [app js_to_uint]. split_digit_chain; cbn [Pos.of_uint_acc]; apply IH.
Qed.

Lemma digits_value_append_zero s :
  digits_value (s ++ [48%N]) = (10 * digits_value s)%N.
Proof.
  unfold digits_value, N.of_uint.
  induction s as [|c s IH]; [reflexivity|].
  cbn [app js_to_uint]. split_digit_chain; cbn [Pos.of_uint];
    try exact IH; now rewrite of_uint_acc_append_zero.
Qed.

Lemma digits_value_zeros s count :
  digits_value (s ++ zeros count) = (digits_value s * 10 ^ N.of_nat count)%N.
Proof.
  induction count as [|count IH].
  - cbn [zeros List.repeat]. rewrite app_nil_r. cbn. lia.
  - replace (zeros (S count)) with (zeros count ++ [48%N]).
    + rewrite app_assoc, digits_value_append_zero, IH, Nat2N.inj_succ,
        N.pow_succ_r'. lia.
    + unfold zeros. change [48%N] with (List.repeat 48%N 1).
      rewrite <- List.repeat_app. f_equal. lia.
Qed.

Lemma digits_value_leading_zeros s count :
  digits_value (zeros count ++ s) = digits_value s.
Proof. induction count as [|count IH]; [reflexivity | exact IH]. Qed.

Definition signed (negative : bool) (m : N) : Z :=
  if negative then (- Z.of_N m)%Z else Z.of_N m.

Lemma make_number_integral negative m e :
  (0 <= e)%Z -> make_number negative m e = NInt (signed negative m * 10 ^ e).
Proof.
  intros He. unfold make_number, signed.
  destruct (N.eqb_spec m 0) as [->|Hm]; [now destruct negative|].
  rewrite Nat.add_1_r. cbn [reduce_decimal].
  destruct (Z.ltb_spec e 0); [lia|]. cbn [andb].
  destruct (Z.leb_spec 0 e); [reflexivity | lia].
Qed.

Lemma make_number_decimal negative m e :
  (e < 0)%Z -> (m mod 10 <> 0)%N ->
  make_number negative m e = NDec (signed negative m) e.
Proof.
  intros He Hm. unfold make_number, signed.
  destruct (N.eqb_spec m 0) as [->|_]; [now contradiction Hm|].
  rewrite Nat.add_1_r. cbn [reduce_decimal].
  destruct (N.eqb_spec (m mod 10) 0); [contradiction|].
  rewrite andb_false_r. destruct (Z.leb_spec 0 e); [lia | reflexivity].
Qed.

Lemma N_to_js_digits n : List.forallb is_digit (N_to_js n) = true.
Proof. apply uint_to_js_digits. Qed.

Lemma N_to_js_nonempty n : exists c more, N_to_js n = c :: more.
Proof.
  destruct (N_to_js_shape n) as [[_ ->] | [_ (c & more & -> & _)]]; eauto.
Qed.

(** The exponent part as [Number::toString] writes it. *)
Lemma parse_exponent_text x rest :
  not_digit_head rest = true ->
  parse_exponent
    (js "e" ++ (if (x <? 0)%Z then js "-" else js "+")
     ++ N_to_js (Z.abs_N x) ++ rest)
  = Some (x, rest).
Proof.
  intros Hrest. cbn [app parse_exponent N.eqb Pos.eqb orb].
  destruct (N_to_js_nonempty (Z.abs_N x)) as (c & more & E).
  destruct (Z.ltb_spec x 0); cbn [app N.eqb Pos.eqb];
    rewrite read_digits_stop by (exact Hrest || apply N_to_js_digits);
    rewrite E, <- E, digits_value_N_to_js; do 2 f_equal; lia.
Qed.

Definition head_nonzero (digits : jsstring) : Prop :=
  exists c more, digits = c :: more /\ c <> 48%N.

Lemma skipn_nonempty {A} (n : nat) (l : list A) :
  n < length l -> exists x r, List.skipn n l = x :: r.
Proof.
  revert l. induction n as [|n IH]; intros [|x l] H; cbn in *; try lia.
  - eauto.
  - apply IH. lia.
Qed.

Lemma forallb_firstn {A} (f : A -> bool) n l :
  List.forallb f l = true -> List.forallb f (List.firstn n l) = true.
Proof.
  revert l. induction n as [|n IH]; intros [|x l]; cbn; try reflexivity.
  intros H. apply andb_true_iff in H as [-> H]. now apply IH.
Qed.

Lemma forallb_skipn {A} (f : A -> bool) n l :
  List.forallb f l = true -> List.forallb f (List.skipn n l) = true.
Proof.
  revert l. induction n as [|n IH]; intros [|x l]; cbn; try reflexivity.
  - trivial.
  - intros H. apply andb_true_iff in H as [_ H]. now apply IH.
Qed.

Lemma forallb_zeros count : List.forallb is_digit (zeros count) = true.
Proof. induction count as [|count IH]; [reflexivity | exact IH]. Qed.

(** The parser on what [digits_to_string] writes, in each of its four
    layouts: the digits [ds] with the decimal point after position [n]
    are read as [ds * 10^(n - length ds)]. *)
Lemma parse_unsigned_digits negative ds n rest :
  List.forallb is_digit ds = true -> head_nonzero ds ->
  ends_number rest = true ->
  parse_unsigned negative (digits_to_string ds n ++ rest)
  = Some (make_number negative (digits_value ds)
            (n - Z.of_nat (length ds)), rest).
Proof.
  intros Hds (c & more & Hhead & Hc) Hend.
  pose proof (ends_number_not_digit _ Hend) as Hstop.
  assert (Hcd : is_digit c = true).
  { rewrite Hhead in Hds. cbn in Hds. now apply andb_true_iff in Hds. }
  assert (Hc48 : (c =? 48)%N = false) by now apply N.eqb_neq.
  unfold digits_to_string, parse_unsigned.
  destruct ((Z.of_nat (length ds) <=? n) && (n <=? 21))%Z eqn:E1.
  { (* digits and zeros *)
    apply andb_true_iff in E1 as [E1 _]. apply Z.leb_le in E1.
    rewrite read_digits_stop;
      [| rewrite List.forallb_app, Hds; apply forallb_zeros | exact Hstop].
    assert (Hhd : ds ++ zeros (Z.to_nat (n - Z.of_nat (length ds)))
                  = c :: more ++ zeros (Z.to_nat (n - Z.of_nat (length ds))))
      by now rewrite Hhead at 1.
    rewrite Hhd, Hc48. cbn [andb]. rewrite <- Hhd.
    rewrite (parse_fraction_none _ Hend), (parse_exponent_none _ Hend).
    rewrite app_nil_r, digits_value_zeros. cbn [length Z.of_nat Z.sub Z.opp].
    rewrite !make_number_integral by lia. do 3 f_equal.
    change (0 - Z.of_nat 0)%Z with 0%Z. rewrite Z.pow_0_r, Z.mul_1_r.
    assert (Hpow :
      Z.of_N (digits_value ds
              * 10 ^ N.of_nat (Z.to_nat (n - Z.of_nat (length ds))))
      = (Z.of_N (digits_value ds) * 10 ^ (n - Z.of_nat (length ds)))%Z).
    { rewrite N2Z.inj_mul, N2Z.inj_pow, nat_N_Z, Z2Nat.id by lia.
      reflexivity. }
    unfold signed. destruct negative; rewrite Hpow; ring. }
  destruct ((0 <? n) && (n <=? 21))%Z eqn:E2.
  { (* digits, point, digits *)
    apply andb_true_iff in E2 as [E2 E2']. apply Z.ltb_lt in E2.
    apply Z.leb_le in E2'.
    assert (Hn : Z.to_nat n < length ds).
    { apply andb_false_iff in E1 as [E1 | E1];
        [apply Z.leb_gt in E1 | apply Z.leb_gt in E1]; lia. }
    rewrite <- !app_assoc.
    rewrite read_digits_stop by (reflexivity || now apply forallb_firstn).
    assert (Hfirst : exists more', List.firstn (Z.to_nat n) ds = c :: more').
    { rewrite Hhead. destruct (Z.to_nat n) as [|n'] eqn:En; [lia|].
      cbn [List.firstn]. eauto. }
    destruct Hfirst as [more' Hfirst]. rewrite Hfirst, Hc48. cbn [andb].
    rewrite <- Hfirst.
    cbn [app parse_fraction N.eqb Pos.eqb].
    rewrite read_digits_stop by (exact Hstop || now apply forallb_skipn).
    destruct (skipn_nonempty _ _ Hn) as (x & r & Hskip).
    rewrite Hskip. rewrite <- Hskip. rewrite (parse_exponent_none _ Hend).
    rewrite List.firstn_skipn, List.length_skipn. do 3 f_equal. lia. }
  destruct ((-6 <? n) && (n <=? 0))%Z eqn:E3.
  { (* zero, point, zeros, digits *)
    apply andb_true_iff in E3 as [E3 E3']. apply Z.ltb_lt in E3.
    apply Z.leb_le in E3'.
    cbn [app read_digits is_digit N.leb N.compare Pos.compare
         Pos.compare_cont andb]. cbn [N.eqb Pos.eqb str_eqb negb andb].
    cbn [parse_fraction N.eqb Pos.eqb].
    rewrite <- app_assoc, app_assoc.
    rewrite read_digits_stop;
      [| rewrite List.forallb_app, forallb_zeros; exact Hds | exact Hstop].
    assert (Hne : exists x r, zeros (Z.to_nat (- n)) ++ ds = x :: r).
    { rewrite Hhead. destruct (zeros _); cbn [app]; eauto. }
    destruct Hne as (x & r & Hne). rewrite Hne. rewrite <- Hne.
    rewrite (parse_exponent_none _ Hend).
    change (48%N :: zeros (Z.to_nat (- n)) ++ ds)
      with (zeros (S (Z.to_nat (- n))) ++ ds).
    rewrite digits_value_leading_zeros, List.length_app.
    unfold zeros at 1. rewrite List.repeat_length. do 3 f_equal. lia. }
  (* exponent notation *)
  subst ds. destruct more as [|d more].
  - cbn [app read_digits]. rewrite Hcd.
    cbn [read_digits is_digit N.leb N.compare Pos.compare Pos.compare_cont
         andb]. rewrite Hc48. cbn [andb].
    cbn [parse_fraction N.eqb Pos.eqb].
    change (101%N :: ?x) with (js "e" ++ x).
    rewrite <- app_assoc.
    rewrite (parse_exponent_text (n - 1) rest Hstop).
    cbn [app length Z.of_nat]. do 3 f_equal. lia.
  - cbn [app read_digits]. rewrite Hcd.
    cbn [read_digits is_digit N.leb N.compare Pos.compare Pos.compare_cont
         andb]. rewrite Hc48. cbn [andb].
    cbn [parse_fraction N.eqb Pos.eqb].
    cbn [List.forallb] in Hds. apply andb_true_iff in Hds as [_ Hds].
    rewrite <- !app_assoc.
    change (d :: more ++ (101%N :: ?x) ++ rest)
      with ((d :: more) ++ js "e" ++ x ++ rest).
    rewrite <- !app_assoc.
    rewrite read_digits_stop by (reflexivity || exact Hds).
    rewrite (parse_exponent_text (n - 1) rest Hstop).
    cbn [app length]. do 3 f_equal. rewrite !Nat2Z.inj_succ. lia.
Qed.

Lemma zeros_head count c more : zeros count = c :: more -> c = 48%N.
Proof. destruct count; [discriminate|]. cbn. now intros [= <- _]. Qed.

Lemma strip_trailing_zeros_digits digits :
  List.forallb is_digit digits = true ->
  List.forallb is_digit (strip_trailing_zeros digits) = true.
Proof.
  intros H. destruct (strip_trailing_zeros_spec digits) as [Hs _].
  rewrite <- Hs, List.forallb_app in H. now apply andb_true_iff in H.
Qed.

Lemma strip_trailing_zeros_head digits :
  head_nonzero digits -> head_nonzero (strip_trailing_zeros digits).
Proof.
  intros (c & more & Hhead & Hc).
  destruct (strip_trailing_zeros_spec digits) as [Hs _]. rewrite Hhead in Hs.
  destruct (strip_trailing_zeros (c :: more)) as [|x r] eqn:E.
  - cbn [app] in Hs. apply zeros_head in Hs. now contradiction Hc.
  - cbn [app] in Hs. injection Hs as -> _. rewrite Hhead, E.
    now exists c, r.
Qed.

Lemma strip_trailing_zeros_value digits :
  (digits_value (strip_trailing_zeros digits)
   * 10 ^ N.of_nat (length digits - length (strip_trailing_zeros digits)))%N
  = digits_value digits.
Proof.
  destruct (strip_trailing_zeros_spec digits) as [Hs _].
  rewrite <- digits_value_zeros. now rewrite Hs.
Qed.

(** What [digits_to_string] writes starts with a digit. *)
Lemma digits_to_string_head digits n :
  List.forallb is_digit digits = true -> head_nonzero digits ->
  exists c t, digits_to_string digits n = c :: t /\ is_digit c = true.
Proof.
  intros Hds (c & more & -> & _).
  cbn [List.forallb] in Hds. apply andb_true_iff in Hds as [Hc _].
  unfold digits_to_string.
  destruct ((Z.of_nat (length (c :: more)) <=? n) && (n <=? 21))%Z;
    [cbn [app]; eauto|].
  destruct ((0 <? n) && (n <=? 21))%Z eqn:E2.
  { apply andb_true_iff in E2 as [E2 _]. apply Z.ltb_lt in E2.
    destruct (Z.to_nat n) as [|k] eqn:En; [lia|].
    cbn [List.firstn app]. eauto. }
  destruct ((-6 <? n) && (n <=? 0))%Z; [cbn [app]; eauto|].
  destruct more; cbn [app]; eauto.
Qed.

Lemma N_to_js_head_nonzero n : n <> 0%N -> head_nonzero (N_to_js n).
Proof.
  intros Hn.
  destruct (N_to_js_shape n) as [[? _] | [_ (c & more & E & Hc & _)]];
    [contradiction|]. now exists c, more.
Qed.

Lemma signed_abs z : signed (z <? 0)%Z (Z.abs_N z) = z.
Proof. unfold signed. destruct (Z.ltb_spec z 0); lia. Qed.

(** The text of a number is its sign and a body that starts with a digit
    and that the parser reads back as the number. *)
Lemma number_text n :
  json_number n = true ->
  exists (negative : bool) c t,
    Number_toString n = (if negative then js "-" else []) ++ c :: t
    /\ is_digit c = true
    /\ forall rest, ends_number rest = true ->
         parse_unsigned negative ((c :: t) ++ rest) = Some (n, rest).
Proof.
  destruct n as [z|m e| |]; try discriminate; cbn [json_number]; intros Hn.
  - (* integers *)
    unfold Number_toString. destruct (Z.eqb_spec z 0) as [->|Hz].
    { exists false, 48%N, []. repeat split.
      intros rest Hend. unfold parse_unsigned.
      rewrite (read_digits_stop (js "0") rest eq_refl
                 (ends_number_not_digit _ Hend)).
      cbn [N.eqb Pos.eqb str_eqb negb andb].
      now rewrite (parse_fraction_none _ Hend), (parse_exponent_none _ Hend). }
    set (digits := N_to_js (Z.abs_N z)).
    assert (Hhead : head_nonzero digits)
      by (apply N_to_js_head_nonzero; lia).
    pose proof (N_to_js_digits (Z.abs_N z)) as Hds. fold digits in Hds.
    destruct (digits_to_string_head (strip_trailing_zeros digits)
                (Z.of_nat (length digits))
                (strip_trailing_zeros_digits _ Hds)
                (strip_trailing_zeros_head _ Hhead))
      as (c & t & Htext & Hc).
    exists (z <? 0)%Z, c, t. rewrite Htext. repeat split; [exact Hc|].
    intros rest Hend. rewrite <- Htext.
    rewrite parse_unsigned_digits
      by (exact Hend || now apply strip_trailing_zeros_digits
          || now apply strip_trailing_zeros_head).
    destruct (strip_trailing_zeros_spec digits) as [_ Hle].
    rewrite make_number_integral by lia. do 3 f_equal.
    pose proof (strip_trailing_zeros_value digits) as Hv.
    assert (Hdv : digits_value digits = Z.abs_N z)
      by apply digits_value_N_to_js.
    rewrite Hdv in Hv.
    transitivity (signed (z <? 0)%Z (Z.abs_N z)); [|apply signed_abs].
    rewrite <- Hv. unfold signed.
    rewrite N2Z.inj_mul, N2Z.inj_pow, nat_N_Z, Nat2Z.inj_sub by exact Hle.
    change (Z.of_N 10) with 10%Z. destruct (z <? 0)%Z; ring.
  - (* decimals *)
    apply andb_true_iff in Hn as [He Hm]. apply Z.ltb_lt in He.
    apply negb_true_iff, N.eqb_neq in Hm.
    assert (Hm0 : Z.abs_N m <> 0%N) by (intros E; now rewrite E in Hm).
    unfold Number_toString. set (digits := N_to_js (Z.abs_N m)).
    pose proof (N_to_js_head_nonzero _ Hm0) as Hhead. fold digits in Hhead.
    pose proof (N_to_js_digits (Z.abs_N m)) as Hds. fold digits in Hds.
    destruct (digits_to_string_head digits (Z.of_nat (length digits) + e)
                Hds Hhead) as (c & t & Htext & Hc).
    exists (m <? 0)%Z, c, t. rewrite Htext. repeat split; [exact Hc|].
    intros rest Hend. rewrite <- Htext.
    rewrite parse_unsigned_digits by assumption.
    unfold digits. rewrite digits_value_N_to_js.
    replace (Z.of_nat (length (N_to_js (Z.abs_N m))) + e
             - Z.of_nat (length (N_to_js (Z.abs_N m))))%Z with e by lia.
    rewrite make_number_decimal by assumption. now rewrite signed_abs.
Qed.

Lemma parse_number_text n rest :
  json_number n = true -> ends_number rest = true ->
  parse_number (Number_toString n ++ rest) = Some (n, rest).
Proof.
  intros Hn Hend.
  destruct (number_text n Hn) as (negative & c & t & -> & Hc & H).
  unfold parse_number. destruct negative; cbn [app N.eqb Pos.eqb].
  - now apply H.
  - assert (H45 : (c =? 45)%N = false).
    { destruct (N.eqb_spec c 45); [subst; discriminate | reflexivity]. }
    rewrite H45. now apply H.
Qed.

Lemma json_number_finite n : json_number n = true -> is_finite n = true.
Proof. now destruct n. Qed.

Lemma number_text_head n :
  json_number n = true ->
  exists c t, Number_toString n = c :: t /\ (c = 45%N \/ is_digit c = true).
Proof.
  intros Hn. destruct (number_text n Hn) as (negative & c & t & -> & Hc & _).
  destruct negative; cbn [app]; eauto.
Qed.

(** The two loops of [SerializeJSONProperty], by name. *)
Fixpoint serialize_elements (depth : nat) (items : list jsval)
  : option (list jsstring) :=
  match items with
  | [] => Some []
  | item :: rest =>
      match SerializeJSONProperty (S depth) item with
      | Throws => None
      | Undefined =>
          option_map (cons (js "null")) (serialize_elements depth rest)
      | Text t => option_map (cons t) (serialize_elements depth rest)
      end
  end.

Fixpoint serialize_members (depth : nat) (props : list (jsstring * jsval))
  : option (list jsstring) :=
  match props with
  | [] => Some []
  | (key, value) :: rest =>
      match SerializeJSONProperty (S depth) value with
      | Throws => None
      | Undefined => serialize_members depth rest
      | Text t =>
          option_map (cons (QuoteJSONString key ++ js ":" ++ t))
                     (serialize_members depth rest)
      end
  end.

Lemma SerializeJSONProperty_array depth items :
  SerializeJSONProperty depth (VArray items)
  = match serialize_elements depth items with
    | Some texts => Text (js "[" ++ join_with (js ",") texts ++ js "]")
    | None => Throws
    end.
Proof.
  cbn [SerializeJSONProperty].
  match goal with
  | |- match ?f items with _ => _ end = _ =>
      replace (f items) with (serialize_elements depth items);
        [reflexivity|]
  end.
  induction items as [|item rest IH]; [reflexivity|].
  cbn [serialize_elements]. now rewrite IH.
Qed.

Lemma SerializeJSONProperty_object depth props :
  SerializeJSONProperty depth (VObject props)
  = match serialize_members depth props with
    | Some texts => Text (js "{" ++ join_with (js ",") texts ++ js "}")
    | None => Throws
    end.
Proof.
  cbn [SerializeJSONProperty].
  match goal with
  | |- match ?f props with _ => _ end = _ =>
      replace (f props) with (serialize_members depth props);
        [reflexivity|]
  end.
  induction props as [|[key value] rest IH]; [reflexivity|].
  cbn [serialize_members]. now rewrite IH.
Qed.

(** Induction on values, through the lists of arrays and objects. *)
Section ValueInduction.

Variable P : jsval -> Prop.
Hypothesis P_undefined : P VUndefined.
Hypothesis P_null : P VNull.
Hypothesis P_bool : forall b, P (VBool b).
Hypothesis P_number : forall n, P (VNumber n).
Hypothesis P_bigint : forall z, P (VBigInt z).
Hypothesis P_string : forall s, P (VString s).
Hypothesis P_symbol : forall d, P (VSymbol d).
Hypothesis P_function : forall t, P (VFunction t).
Hypothesis P_regexp : forall s f, P (VRegExp s f).
Hypothesis P_array : forall items, List.Forall P items -> P (VArray items).
Hypothesis P_object :
  forall props, List.Forall (fun kv => P (snd kv)) props -> P (VObject props).
Hypothesis P_back : forall up, P (VBack up).

Fixpoint jsval_nested_ind (v : jsval) : P v :=
  match v with
  | VUndefined => P_undefined
  | VNull => P_null
  | VBool b => P_bool b
  | VNumber n => P_number n
  | VBigInt z => P_bigint z
  | VString s => P_string s
  | VSymbol d => P_symbol d
  | VFunction t => P_function t
  | VRegExp s f => P_regexp s f
  | VArray items =>
      P_array items
        ((fix all (l : list jsval) : List.Forall P l :=
            match l with
            | [] => @List.Forall_nil _ P
            | x :: r => @List.Forall_cons _ P x r (jsval_nested_ind x) (all r)
            end) items)
  | VObject props =>
      P_object props
        ((fix all (l : list (jsstring * jsval))
            : List.Forall (fun kv => P (snd kv)) l :=
            match l with
            | [] => @List.Forall_nil _ (fun kv => P (snd kv))
            | x :: r =>
                @List.Forall_cons _ (fun kv => P (snd kv)) x r
                  (jsval_nested_ind (snd x)) (all r)
            end) props)
  | VBack up => P_back up
  end.

End ValueInduction.

(** *** Reading back what [JSON.stringify] wrote: values *)

Fixpoint distinct (keys : list jsstring) : bool :=
  match keys with
  | [] => true
  | key :: rest => negb (Set_has rest key) && distinct rest
  end.

(** JSON-representable data: [null], booleans, finite numbers, strings,
    arrays of such data, and objects with such data under distinct keys. *)
Fixpoint json_data (v : jsval) : bool :=
  match v with
  | VNull | VBool _ => true
  | VNumber n => json_number n
  | VString s => utf16 s
  | VArray items => List.forallb json_data items
  | VObject props =>
      List.forallb (fun kv => utf16 (fst kv) && json_data (snd kv)) props
      && distinct (List.map fst props)
  | _ => false
  end.

Lemma distinct_NoDup keys : distinct keys = true -> List.NoDup keys.
Proof.
  induction keys as [|key keys IH]; [constructor|]. cbn [distinct].
  intros H. apply andb_true_iff in H as [H1 H2]. constructor; [|auto].
  intros Hin. apply negb_true_iff in H1. unfold Set_has in H1.
  assert (T : List.existsb (str_eqb key) keys = true); [|congruence].
  apply List.existsb_exists. exists key. split; [exact Hin|].
  apply str_eqb_refl.
Qed.

Lemma set_prop_fresh props key v :
  ~ In key (List.map fst props) -> set_prop props key v = props ++ [(key, v)].
Proof.
  induction props as [|[k old] props IH]; [reflexivity|].
  cbn [List.map fst In set_prop app]. intros H.
  destruct (str_eqb_spec k key) as [->|_]; [tauto|].
  rewrite IH; tauto.
Qed.

Lemma fold_set_prop props acc :
  List.NoDup (List.map fst (acc ++ props)) ->
  List.fold_left (fun a kv => set_prop a (fst kv) (snd kv)) props acc
  = acc ++ props.
Proof.
  revert acc. induction props as [|[k v] props IH]; intros acc H.
  - now rewrite app_nil_r.
  - cbn [List.fold_left fst snd]. rewrite set_prop_fresh.
    + rewrite IH; rewrite <- app_assoc; [reflexivity | exact H].
    + rewrite List.map_app in H. cbn [List.map fst] in H.
      apply List.NoDup_remove_2 in H. intros Hin. apply H.
      apply List.in_app_iff. now left.
Qed.

(** The first code unit of the text of a number: a digit or the sign. *)
Definition starts_number (c : char16) : Prop := c = 45%N \/ is_digit c = true.

Lemma starts_number_facts c :
  starts_number c ->
  is_json_ws c = false /\ (c =? 34)%N = false /\ (c =? 91)%N = false
  /\ (c =? 123)%N = false /\ (c =? 93)%N = false
  /\ (116 =? c)%N = false /\ (102 =? c)%N = false /\ (110 =? c)%N = false.
Proof.
  unfold starts_number, is_digit, is_json_ws. intros [-> | H].
  - repeat split; reflexivity.
  - apply andb_true_iff in H as [H1 H2].
    apply N.leb_le in H1. apply N.leb_le in H2.
    repeat split; repeat (apply orb_false_iff; split);
      apply N.eqb_neq; lia.
Qed.

Lemma join_with_cons sep t texts :
  join_with sep (t :: texts)
  = match texts with
    | [] => t
    | _ => t ++ sep ++ join_with sep texts
    end.
Proof. now destruct texts. Qed.

(** What is proved of each value by induction: it has a text; the text
    does not start with white space or a closing bracket; and the parser,
    given more fuel than the text is long, reads the value back and stops
    where the text stops. *)
Definition reads_back (v : jsval) : Prop :=
  json_data v = true ->
  forall depth,
    exists c t,
      SerializeJSONProperty depth v = Text (c :: t)
      /\ is_json_ws c = false /\ (c =? 93)%N = false
      /\ forall fuel rest,
           length (c :: t) < fuel -> ends_number rest = true ->
           parse_value fuel ((c :: t) ++ rest) = Some (v, rest).

Lemma reads_back_elements depth items :
  List.Forall reads_back items ->
  List.forallb json_data items = true ->
  items <> [] ->
  exists texts,
    serialize_elements depth items = Some texts
    /\ (exists c t, join_with (js ",") texts = c :: t
                    /\ is_json_ws c = false /\ (c =? 93)%N = false)
    /\ forall fuel rest,
         length (join_with (js ",") texts) + 1 < fuel ->
         parse_elements fuel (join_with (js ",") texts ++ 93%N :: rest)
         = Some (items, rest).
Proof.
  induction 1 as [|v items Hv _ IH]; [congruence|].
  cbn [List.forallb]. intros Hd _.
  apply andb_true_iff in Hd as [Hdv Hd].
  destruct (Hv Hdv (S depth)) as (c & t & Hser & Hws & Hbr & Hparse).
  cbn [serialize_elements]. rewrite Hser.
  destruct items as [|v' items].
  - exists [c :: t]. cbn [serialize_elements option_map join_with].
    split; [reflexivity|]. split; [eauto|].
    intros fuel rest Hfuel. destruct fuel as [|fuel]; [lia|].
    cbn [parse_elements].
    rewrite Hparse by (reflexivity || cbn [length] in *; lia).
    reflexivity.
  - destruct (IH Hd ltac:(discriminate))
      as (texts & Hsers & (c' & t' & Hjoin & Hws' & Hbr') & Hparses).
    exists ((c :: t) :: texts). rewrite Hsers. cbn [option_map].
    split; [reflexivity|].
    assert (Htexts : texts <> []).
    { intros ->. discriminate. }
    rewrite join_with_cons.
    destruct texts as [|t0 texts]; [contradiction|].
    split; [cbn [app]; eauto|].
    intros fuel rest Hfuel. destruct fuel as [|fuel]; [lia|].
    cbn [parse_elements]. rewrite <- !app_assoc.
    rewrite !List.length_app in Hfuel. cbn [length] in Hfuel.
    rewrite Hparse by (reflexivity || cbn [length] in *; lia).
    cbn [app skip_ws is_json_ws N.eqb Pos.eqb orb].
    rewrite Hparses by (unfold jsstring, char16 in *; lia). reflexivity.
Qed.


Lemma reads_back_members depth props :
  List.Forall (fun kv => reads_back (snd kv)) props ->
  List.forallb (fun kv => utf16 (fst kv) && json_data (snd kv)) props = true ->
  props <> [] ->
  exists texts,
    serialize_members depth props = Some texts
    /\ (exists t, join_with (js ",") texts = 34%N :: t)
    /\ forall fuel rest acc,
         length (join_with (js ",") texts) + 1 < fuel ->
         parse_members fuel (join_with (js ",") texts ++ 125%N :: rest) acc
         = Some (List.fold_left (fun a kv => set_prop a (fst kv) (snd kv))
                   props acc, rest).
Proof.
  induction 1 as [|[key v] props Hv _ IH]; [congruence|].
  cbn [List.forallb fst snd]. intros Hd _.
  apply andb_true_iff in Hd as [Hkv Hd].
  apply andb_true_iff in Hkv as [Hkey Hdv]. cbn [snd] in Hv.
  destruct (Hv Hdv (S depth)) as (c & t & Hser & Hws & Hbr & Hparse).
  cbn [serialize_members]. rewrite Hser.
  assert (Hmember : forall fuel tail acc,
    length (QuoteJSONString key ++ js ":" ++ c :: t) < fuel ->
    ends_number tail = true ->
    match skip_ws ((QuoteJSONString key ++ js ":" ++ c :: t) ++ tail) with
    | q :: r0 =>
        if (q =? 34)%N then
          match parse_string_chars r0 with
          | None => None
          | Some (key', r1) =>
              match skip_ws r1 with
              | colon :: r2 =>
                  if (colon =? 58)%N then
                    match parse_value fuel r2 with
                    | None => None
                    | Some (v', r3) =>
                        match skip_ws r3 with
                        | c' :: r4 =>
                            if (c' =? 44)%N
                            then parse_members fuel r4 (set_prop acc key' v')
                            else if (c' =? 125)%N
                            then Some (set_prop acc key' v', r4)
                            else None
                        | [] => None
                        end
                    end
                  else None
              | [] => None
              end
          end
        else None
    | [] => None
    end
    = match skip_ws tail with
      | c' :: r4 =>
          if (c' =? 44)%N then parse_members fuel r4 (set_prop acc key v)
          else if (c' =? 125)%N then Some (set_prop acc key v, r4)
          else None
      | [] => None
      end).
  { intros fuel tail acc Hfuel Htail. unfold QuoteJSONString.
    cbn [app skip_ws is_json_ws N.eqb Pos.eqb orb].
    rewrite <- !app_assoc. cbn [app].
    rewrite (parse_quote_chars key _ Hkey).
    cbn [skip_ws is_json_ws N.eqb Pos.eqb orb].
    change (c :: t ++ tail) with ((c :: t) ++ tail).
    rewrite Hparse; [reflexivity | | exact Htail].
    unfold QuoteJSONString in Hfuel. cbn [length app] in Hfuel.
    rewrite !List.length_app in Hfuel. cbn [length] in *. lia. }
  destruct props as [|kv' props].
  - exists [QuoteJSONString key ++ js ":" ++ c :: t].
    cbn [serialize_members option_map join_with].
    split; [reflexivity|]. split; [unfold QuoteJSONString; cbn [app]; eauto|].
    intros fuel rest acc Hfuel. destruct fuel as [|fuel]; [lia|].
    cbn [parse_members List.fold_left fst snd].
    rewrite Hmember by (reflexivity || lia). reflexivity.
  - destruct (IH Hd ltac:(discriminate))
      as (texts & Hsers & (t' & Hjoin) & Hparses).
    exists ((QuoteJSONString key ++ js ":" ++ c :: t) :: texts).
    rewrite Hsers. cbn [option_map]. split; [reflexivity|].
    assert (Htexts : texts <> []) by (intros ->; discriminate).
    rewrite join_with_cons.
    destruct texts as [|t0 texts]; [contradiction|].
    split; [unfold QuoteJSONString; cbn [app]; eauto|].
    intros fuel rest acc Hfuel. destruct fuel as [|fuel]; [lia|].
    cbn [parse_members List.fold_left fst snd].
    rewrite <- (app_assoc _ _ (125%N :: rest)).
    rewrite !List.length_app in Hfuel. cbn [length] in Hfuel.
    rewrite Hmember
      by (reflexivity
          || (rewrite ?List.length_app; cbn [length];
              unfold jsstring, char16 in *; lia)).
    rewrite <- app_assoc. cbn [app skip_ws is_json_ws N.eqb Pos.eqb orb].
    rewrite Hparses by (unfold jsstring, char16 in *; lia). reflexivity.
Qed.

(** Every JSON-representable value is read back. *)
Lemma json_data_reads_back v : reads_back v.
Proof.
  induction v as [| |b|n|z|s|d|t|s f|items IH|props IH|up]
    using jsval_nested_ind; intros Hd depth; try discriminate.
  - (* null *)
    eexists _, _. split; [reflexivity|]. repeat split.
    intros [|fuel] rest Hfuel _; [cbn in Hfuel; lia | reflexivity].
  - (* booleans *)
    destruct b; eexists _, _; (split; [reflexivity|]); repeat split;
      intros [|fuel] rest Hfuel _; (cbn in Hfuel; lia) || reflexivity.
  - (* numbers *)
    cbn [json_data] in Hd.
    destruct (number_text_head n Hd) as (c & t & Htext & Hc).
    destruct (starts_number_facts c Hc)
      as (Hws & H34 & H91 & H123 & H93 & H116 & H102 & H110).
    exists c, t. cbn [SerializeJSONProperty].
    rewrite (json_number_finite n Hd), Htext.
    split; [reflexivity|]. repeat split; try assumption.
    intros [|fuel] rest Hfuel Hrest; [cbn in Hfuel; lia|].
    cbn [parse_value app skip_ws]. rewrite Hws, H34, H91, H123.
    cbn [startsWith]. rewrite H116, H102, H110. cbn [andb].
    change (c :: t ++ rest) with ((c :: t) ++ rest). rewrite <- Htext.
    now rewrite (parse_number_text n rest Hd Hrest).
  - (* strings *)
    cbn [json_data] in Hd. eexists _, _.
    split; [reflexivity|]. repeat split.
    intros [|fuel] rest Hfuel _; [cbn in Hfuel; lia|].
    cbn [parse_value app skip_ws is_json_ws N.eqb Pos.eqb orb].
    rewrite <- app_assoc. cbn [app].
    pose proof (parse_quote_chars s rest Hd) as E.
    unfold jsstring, char16 in *. now rewrite E.
  - (* arrays *)
    cbn [json_data] in Hd. rewrite SerializeJSONProperty_array.
    destruct items as [|v items].
    + eexists _, _. split; [reflexivity|]. repeat split.
      intros [|fuel] rest Hfuel _; [cbn in Hfuel; lia | reflexivity].
    + destruct (reads_back_elements depth (v :: items) IH Hd
                  ltac:(discriminate))
        as (texts & -> & (c & t & Hjoin & Hws & Hbr) & Hparse).
      eexists _, _. split; [reflexivity|]. repeat split.
      intros [|fuel] rest Hfuel _; [cbn in Hfuel; lia|].
      cbn [app length] in Hfuel. rewrite List.length_app in Hfuel.
      cbn [length] in Hfuel.
      cbn [parse_value app skip_ws is_json_ws N.eqb Pos.eqb orb].
      rewrite <- app_assoc. cbn [app]. rewrite Hjoin at 1.
      cbn [app skip_ws]. rewrite Hws, Hbr.
      rewrite Hparse by (unfold jsstring, char16 in *; lia). reflexivity.
  - (* objects *)
    cbn [json_data] in Hd. apply andb_true_iff in Hd as [Hd Hkeys].
    rewrite SerializeJSONProperty_object.
    destruct props as [|kv props].
    + eexists _, _. split; [reflexivity|]. repeat split.
      intros [|fuel] rest Hfuel _; [cbn in Hfuel; lia | reflexivity].
    + destruct (reads_back_members depth (kv :: props) IH Hd
                  ltac:(discriminate))
        as (texts & -> & (t & Hjoin) & Hparse).
      eexists _, _. split; [reflexivity|]. repeat split.
      intros [|fuel] rest Hfuel _; [cbn in Hfuel; lia|].
      cbn [app length] in Hfuel. rewrite List.length_app in Hfuel.
      cbn [length] in Hfuel.
      cbn [parse_value app skip_ws is_json_ws N.eqb Pos.eqb orb].
      rewrite <- app_assoc. cbn [app]. rewrite Hjoin at 1.
      cbn [app skip_ws is_json_ws N.eqb Pos.eqb orb].
      rewrite Hparse by (unfold jsstring, char16 in *; lia).
      rewrite fold_set_prop by (cbn [app]; now apply distinct_NoDup).
      reflexivity.
Qed.

Example Number_toString_layouts :
  Number_toString (NInt (-120)) = js "-120"
  /\ Number_toString (NDec 123456 (-3)) = js "123.456"
  /\ Number_toString (NDec 1 (-6)) = js "0.000001"
  /\ Number_toString (NDec (-15) (-8)) = js "-1.5e-7"
  /\ Number_toString (NInt (10 ^ 21)) = js "1e+21".
Proof. repeat split; vm_compute; reflexivity. Qed.

(** [JSON.parse(JSON.stringify(v))] is [v] on JSON-representable data. *)
Lemma JSON_parse_stringify v :
  json_data v = true ->
  exists text, JSON_stringify v = Text text /\ JSON_parse text = Some v.
Proof.
  intros Hd. destruct (json_data_reads_back v Hd 0)
    as (c & t & Hser & _ & _ & Hparse).
  exists (c :: t). split; [exact Hser|]. unfold JSON_parse.
  specialize (Hparse (S (length (c :: t))) [] ltac:(lia) eq_refl).
  rewrite app_nil_r in Hparse. now rewrite Hparse.
Qed.

End Json.

Import Json.

(* ===================================================================== *)
(** ** Escaper: [escapeForServiceWorker] *)
(* ===================================================================== *)

Module Escaper.

(** [s.replace(/pattern/g, replacement)] for a pattern that is a fixed
    text of [width] code units, recognised at the head of a string by
    [matches]: a match is replaced and the scan resumes after it.  [skip]
    counts the code units of the current match still to pass. *)
Fixpoint replace_all_from (matches : jsstring -> bool) (width : nat)
  (replacement : jsstring) (skip : nat) (s : jsstring) : jsstring :=
  match s with
  | [] => []
  | c :: s' =>
      match skip with
      | S skip' => replace_all_from matches width replacement skip' s'
      | O =>
          if matches s
          then replacement
               ++ replace_all_from matches width replacement (width - 1) s'
          else c :: replace_all_from matches width replacement 0 s'
      end
  end.

Definition replace_all (pattern replacement s : jsstring) : jsstring :=
  replace_all_from (fun t => startsWith t pattern) (length pattern)
    replacement 0 s.

(** The same with the [i] flag, for an ASCII pattern. *)
Definition replace_all_ci (pattern replacement s : jsstring) : jsstring :=
  replace_all_from
    (fun t => startsWith (List.map to_lower t) (List.map to_lower pattern))
    (length pattern) replacement 0 s.

(** The seven replacements, in the order of the source. *)
Definition escape_text (serialized : jsstring) : jsstring :=
  replace_all [8233%N] (js "\u2029")
    (replace_all [8232%N] (js "\u2028")
       (replace_all (js "<!--") (js "<\!--")
          (replace_all_ci (js "</script>") (js "<\/script>")
             (replace_all (js "${") (js "\${")
                (replace_all (js "`") (js "\`")
                   (replace_all (js "\") (js "\\") serialized)))))).

(** [BigInt.prototype.toString]. *)
Definition BigInt_toString (z : Z) : jsstring :=
  sign_of z ++ N_to_js (Z.abs_N z).

Definition escapeForServiceWorker (value : jsval) : jsstring :=
  match value with
  | VUndefined => js "undefined"
  | VFunction _ => js "null"
  | VSymbol _ => js "null"
  | VBigInt z => [34%N] ++ BigInt_toString z ++ [34%N]
  | _ =>
      match JSON_stringify value with
      | Throws => js "null"
      | Undefined => js "null"
      | Text serialized => escape_text serialized
      end
  end.

(** *** When the replacements change nothing *)

Fixpoint never_matches (matches : jsstring -> bool) (s : jsstring) : bool :=
  match s with
  | [] => true
  | _ :: s' => negb (matches s) && never_matches matches s'
  end.

Lemma replace_all_from_id matches width replacement s :
  never_matches matches s = true ->
  replace_all_from matches width replacement 0 s = s.
Proof.
  induction s as [|c s IH]; [reflexivity|].
  cbn [never_matches replace_all_from]. intros H.
  apply andb_true_iff in H as [H1 H2]. apply negb_true_iff in H1.
  now rewrite H1, IH.
Qed.

Lemma never_matches_includes s pattern :
  includes s pattern = false ->
  never_matches (fun t => startsWith t pattern) s = true.
Proof.
  induction s as [|c s IH]; [reflexivity|]. cbn [includes never_matches].
  intros H. apply orb_false_iff in H as [H1 H2]. now rewrite H1, IH.
Qed.

Lemma never_matches_includes_ci s pattern :
  includes_ci s pattern = false ->
  never_matches
    (fun t => startsWith (List.map to_lower t) (List.map to_lower pattern)) s
  = true.
Proof.
  unfold includes_ci. induction s as [|c s IH]; [reflexivity|].
  cbn [List.map includes never_matches].
  intros H. apply orb_false_iff in H as [H1 H2]. now rewrite H1, IH.
Qed.

Lemma replace_all_id pattern replacement s :
  includes s pattern = false -> replace_all pattern replacement s = s.
Proof. intros H. apply replace_all_from_id, never_matches_includes, H. Qed.

(** The serialised text holds nothing that the seven replacements
    rewrite. *)
Definition escape_free (text : jsstring) : bool :=
  negb (includes text (js "\"))
  && negb (includes text (js "`"))
  && negb (includes text (js "${"))
  && negb (includes_ci text (js "</script>"))
  && negb (includes text (js "<!--"))
  && negb (includes text [8232%N])
  && negb (includes text [8233%N]).

Lemma escape_text_id text : escape_free text = true -> escape_text text = text.
Proof.
  unfold escape_free, escape_text. intros H.
  repeat (apply andb_true_iff in H as [H ?]).
  repeat match goal with
         | H : negb _ = true |- _ => apply negb_true_iff in H
         end.
  rewrite (replace_all_id (js "\")) by assumption.
  rewrite (replace_all_id (js "`")) by assumption.
  rewrite (replace_all_id (js "${")) by assumption.
  unfold replace_all_ci.
  rewrite replace_all_from_id by now apply never_matches_includes_ci.
  rewrite (replace_all_id (js "<!--")) by assumption.
  rewrite (replace_all_id [8232%N]) by assumption.
  now rewrite (replace_all_id [8233%N]) by assumption.
Qed.

(** *** Cycles *)

(** A reference to an enclosing object occurs in the value, [depth] being
    the number of objects that enclose the value itself. *)
Fixpoint has_cycle (depth : nat) (v : jsval) : bool :=
  match v with
  | VBack up => (up <? depth)%nat
  | VArray items => List.existsb (has_cycle (S depth)) items
  | VObject props =>
      List.existsb (fun kv => has_cycle (S depth) (snd kv)) props
  | _ => false
  end.

(** A cyclic object: an object or array that holds, at some depth, a
    reference to itself or to an object between itself and the
    reference. *)
Definition cyclic (v : jsval) : bool := has_cycle 0 v.

Lemma has_cycle_throws v :
  forall depth, has_cycle depth v = true ->
                SerializeJSONProperty depth v = Throws.
Proof.
  induction v as [| | | | | | | | |items IH|props IH|up]
    using jsval_nested_ind; intros depth; try discriminate.
  - cbn [has_cycle]. intros H. rewrite SerializeJSONProperty_array.
    replace (serialize_elements depth items) with (@None (list jsstring));
      [reflexivity|].
    symmetry. induction IH as [|item rest Hitem _ IHrest];
      [discriminate|].
    cbn [List.existsb serialize_elements] in *.
    destruct (has_cycle (S depth) item) eqn:E.
    + now rewrite (Hitem _ E).
    + cbn [orb] in H. rewrite (IHrest H).
      now destruct (SerializeJSONProperty (S depth) item).
  - cbn [has_cycle]. intros H. rewrite SerializeJSONProperty_object.
    replace (serialize_members depth props) with (@None (list jsstring));
      [reflexivity|].
    symmetry. induction IH as [|[key value] rest Hvalue _ IHrest];
      [discriminate|].
    cbn [List.existsb serialize_members snd] in *.
    destruct (has_cycle (S depth) value) eqn:E.
    + now rewrite (Hvalue _ E).
    + cbn [orb] in H. rewrite (IHrest H).
      now destruct (SerializeJSONProperty (S depth) value).
  - cbn [has_cycle SerializeJSONProperty]. now intros ->.
Qed.

Lemma escape_cyclic_is_null v :
  cyclic v = true -> escapeForServiceWorker v = js "null".
Proof.
  intros H. pose proof (has_cycle_throws v 0 H) as Ht.
  unfold escapeForServiceWorker, JSON_stringify.
  destruct v; try discriminate; now rewrite Ht.
Qed.

Example escape_script :
  escapeForServiceWorker (VString (js "</SCRIPT><!--`${x}\"))
  = [34%N] ++ js "<\/script><\!--\`\${x}\\\\" ++ [34%N].
Proof. vm_compute. reflexivity. Qed.

Example escape_object :
  escapeForServiceWorker
    (VObject [(js "key", VString (js "value"));
              (js "n", VArray [VNumber (NInt 1); VNumber (NInt (-23))])])
  = js "{" ++ [34%N] ++ js "key" ++ [34%N] ++ js ":" ++ [34%N] ++ js "value"
    ++ [34%N] ++ js "," ++ [34%N] ++ js "n" ++ [34%N] ++ js ":[1,-23]}".
Proof. vm_compute. reflexivity. Qed.

Example escape_line_separator :
  escapeForServiceWorker (VString [116; 8232; 8233]%N)
  = [34%N] ++ js "t\u2028\u2029" ++ [34%N].
Proof. vm_compute. reflexivity. Qed.

Example escape_bigint :
  escapeForServiceWorker (VBigInt (-123)) = [34%N] ++ js "-123" ++ [34%N].
Proof. reflexivity. Qed.

(** *** The claim on [escapeForServiceWorker] *)

(** C4, as stated, fails on strings: the backslash that [JSON.stringify]
    writes before a quote or a backslash is doubled by the first
    replacement, and the backslash put before a back-tick is no JSON
    escape.  The string [a\b] comes back as [a\\b]; the string made of one
    back-tick gives a text that [JSON.parse] refuses. *)
Lemma escape_breaks_round_trip :
  json_data (VString (js "a\b")) = true
  /\ JSON_parse (escapeForServiceWorker (VString (js "a\b")))
     = Some (VString (js "a\\b"))
  /\ JSON_parse (escapeForServiceWorker (VString (js "a\b")))
     <> Some (VString (js "a\b"))
  /\ json_data (VString (js "`")) = true
  /\ JSON_parse (escapeForServiceWorker (VString (js "`"))) = None.
Proof.
  repeat split; try (vm_compute; reflexivity). vm_compute. discriminate.
Qed.


(** *** What the escaped text never holds *)

Lemma never_matches_none (f : jsstring -> bool) (s : jsstring) :
  (forall t, f t = false) -> never_matches f s = true.
Proof.
  intros H. induction s as [|c s IH]; [reflexivity|].
  cbn [never_matches]. now rewrite H, IH.
Qed.

Lemma never_matches_weaken (f g : jsstring -> bool) (s : jsstring) :
  never_matches f s = true -> never_matches (fun t => f t && g t) s = true.
Proof.
  induction s as [|c s IH]; [reflexivity|]. cbn [never_matches].
  intros H. apply andb_true_iff in H as [H1 H2].
  apply negb_true_iff in H1. now rewrite H1, IH.
Qed.

Section Clearing.

(** The text that must not occur is [p0 :: q], compared after [fold]
    (the identity, or [to_lower] for a pattern with the [i] flag); the
    pass replaces what [matched] recognises by [e :: r]. *)
Variable fold : char16 -> char16.
Variables (p0 : char16) (q : jsstring).
Variable matched : jsstring -> bool.
Variable width : nat.
Variables (e : char16) (r : jsstring).

Definition starts (t pattern : jsstring) : bool :=
  startsWith (List.map fold t) (List.map fold pattern).

Definition forbidden (t : jsstring) : bool := starts t (p0 :: q).

(** The replacement does not start like a later part of the text, and
    the text does not start inside the replacement. *)
Hypothesis replacement_head : List.Forall (fun d => fold d <> fold e) q.
Hypothesis replacement_clean :
  forall x, never_matches forbidden x = true ->
            never_matches forbidden ((e :: r) ++ x) = true.

Lemma starts_cons c t d pattern :
  starts (c :: t) (d :: pattern) = (fold d =? fold c)%N && starts t pattern.
Proof. reflexivity. Qed.

(** A later part of the text that is read at the head of the result was
    at the head of the input. *)
Lemma reads_through (s q' : jsstring) :
  (exists q0, q = q0 ++ q') ->
  starts (replace_all_from matched width (e :: r) 0 s) q' = true ->
  starts s q' = true.
Proof using replacement_head.
  revert q'. induction s as [|c s IH]; intros q' Hq; [trivial|].
  destruct q' as [|d q'']; [reflexivity|].
  cbn [replace_all_from]. destruct (matched (c :: s)).
  - cbn [app]. rewrite starts_cons. intros H.
    apply andb_true_iff in H as [H _]. apply N.eqb_eq in H.
    destruct Hq as [q0 ->]. rewrite List.Forall_app in replacement_head.
    destruct replacement_head as [_ Hd]. inversion Hd; subst. contradiction.
  - rewrite !starts_cons. intros H. apply andb_true_iff in H as [-> H].
    apply IH; [|exact H]. destruct Hq as [q0 ->]. exists (q0 ++ [d]).
    now rewrite <- app_assoc.
Qed.

(** When every occurrence of the text in the input is one that the pass
    replaces, the result holds no occurrence. *)
Lemma clears (s : jsstring) (skip : nat) :
  never_matches (fun t => forbidden t && negb (matched t)) s = true ->
  never_matches forbidden (replace_all_from matched width (e :: r) skip s)
  = true.
Proof using replacement_head replacement_clean.
  revert skip. induction s as [|c s IH]; intros skip H; [reflexivity|].
  cbn [never_matches] in H. apply andb_true_iff in H as [H1 H2].
  cbn [replace_all_from]. destruct skip as [|skip]; [|now apply IH].
  destruct (matched (c :: s)) eqn:Em.
  - apply replacement_clean, IH, H2.
  - cbn [never_matches]. rewrite (IH 0 H2), andb_true_r.
    cbn [negb] in H1. rewrite andb_true_r in H1.
    apply negb_true_iff in H1. apply negb_true_iff.
    destruct (forbidden (c :: replace_all_from matched width (e :: r) 0 s))
      eqn:Ef; [|reflexivity].
    unfold forbidden in Ef, H1. rewrite starts_cons in Ef, H1.
    apply andb_true_iff in Ef as [E0 Ef].
    rewrite (reads_through s q (ex_intro _ [] eq_refl) Ef), E0 in H1.
    discriminate.
Qed.

Lemma never_matches_includes_fold (s : jsstring) :
  never_matches forbidden s = true ->
  includes (List.map fold s) (List.map fold (p0 :: q)) = false.
Proof.
  induction s as [|c s IH]; [reflexivity|].
  cbn [never_matches]. intros H. apply andb_true_iff in H as [H1 H2].
  apply negb_true_iff in H1. change (List.map fold (c :: s))
    with (fold c :: List.map fold s).
  cbn [includes]. unfold forbidden, starts in H1.
  change (List.map fold (c :: s)) with (fold c :: List.map fold s) in H1.
  now rewrite H1, (IH H2).
Qed.

End Clearing.

Definition same (c : char16) : char16 := c.

Lemma map_same (s : jsstring) : List.map same s = s.
Proof. apply List.map_id. Qed.

(** The four texts, as the passes and the checks read them. *)
Definition script_end (t : jsstring) : bool :=
  forbidden to_lower 60%N (js "/script>") t.
Definition comment_start (t : jsstring) : bool :=
  forbidden same 60%N (js "!--") t.
Definition line_separator (t : jsstring) : bool :=
  forbidden same 8232%N [] t.
Definition paragraph_separator (t : jsstring) : bool :=
  forbidden same 8233%N [] t.

Ltac clean_replacement :=
  let x := fresh "x" in
  let H := fresh "H" in
  intros x H; cbn [app never_matches];
  unfold forbidden, starts; cbn [List.map same];
  rewrite ?map_same; cbn [startsWith];
  repeat match goal with
         | |- context [(?a =? ?b)%N] =>
             let v := eval vm_compute in (a =? b)%N in
             change (a =? b)%N with v
         end;
  cbn [andb negb]; exact H.

Lemma exact_matcher (pattern t : jsstring) :
  startsWith t pattern = starts same t pattern.
Proof. unfold starts. now rewrite !map_same. Qed.

(** Each pass removes its own text ... *)
Lemma clears_own fold p0 q width e r s :
  List.Forall (fun d => fold d <> fold e) q ->
  (forall x, never_matches (forbidden fold p0 q) x = true ->
             never_matches (forbidden fold p0 q) ((e :: r) ++ x) = true) ->
  never_matches (forbidden fold p0 q)
    (replace_all_from (forbidden fold p0 q) width (e :: r) 0 s) = true.
Proof.
  intros H1 H2. apply clears; [exact H1 | exact H2 |].
  apply never_matches_none. intros t. now destruct (forbidden _ _ _ t).
Qed.

(** ... and leaves no other text behind that a pass before it had
    removed. *)
Lemma clears_other fold p0 q matched width e r s :
  List.Forall (fun d => fold d <> fold e) q ->
  (forall x, never_matches (forbidden fold p0 q) x = true ->
             never_matches (forbidden fold p0 q) ((e :: r) ++ x) = true) ->
  never_matches (forbidden fold p0 q) s = true ->
  never_matches (forbidden fold p0 q)
    (replace_all_from matched width (e :: r) 0 s) = true.
Proof.
  intros H1 H2 H. apply clears; [exact H1 | exact H2 |].
  now apply never_matches_weaken.
Qed.

Lemma replace_all_exact (pattern replacement s : jsstring) :
  replace_all pattern replacement s
  = replace_all_from (fun t => starts same t pattern) (length pattern)
      replacement 0 s.
Proof.
  unfold replace_all. generalize 0.
  induction s as [|c s IH]; intros skip; [reflexivity|].
  cbn [replace_all_from]. rewrite exact_matcher.
  destruct skip; [now rewrite !IH | apply IH].
Qed.

Lemma distinct_heads (fold : char16 -> char16) (e : char16) (q : jsstring) :
  List.forallb (fun d => negb (fold d =? fold e)%N) q = true ->
  List.Forall (fun d => fold d <> fold e) q.
Proof.
  intros H. apply List.Forall_forall. intros d Hd.
  rewrite List.forallb_forall in H. specialize (H d Hd).
  apply negb_true_iff in H. now apply N.eqb_neq.
Qed.

Lemma escape_text_clean (text : jsstring) :
  never_matches script_end (escape_text text) = true
  /\ never_matches comment_start (escape_text text) = true
  /\ never_matches line_separator (escape_text text) = true
  /\ never_matches paragraph_separator (escape_text text) = true.
Proof.
  unfold escape_text.
  set (t3 := replace_all (js "${") _ _).
  unfold replace_all_ci.
  change (fun t => startsWith (List.map to_lower t)
                     (List.map to_lower (js "</script>")))
    with (forbidden to_lower 60%N (js "/script>")).
  set (t4 := replace_all_from _ _ _ 0 t3).
  rewrite !replace_all_exact.
  change (fun t => starts same t (js "<!--"))
    with (forbidden same 60%N (js "!--")).
  change (fun t => starts same t [8232%N])
    with (forbidden same 8232%N []).
  change (fun t => starts same t [8233%N])
    with (forbidden same 8233%N []).
  set (t5 := replace_all_from _ _ _ 0 t4).
  set (t6 := replace_all_from _ _ _ 0 t5).
  assert (S4 : never_matches script_end t4 = true).
  { apply clears_own; [apply distinct_heads; reflexivity|clean_replacement]. }
  assert (S5 : never_matches script_end t5 = true).
  { apply clears_other;
      [apply distinct_heads; reflexivity | clean_replacement | exact S4]. }
  assert (S6 : never_matches script_end t6 = true).
  { apply clears_other;
      [apply distinct_heads; reflexivity | clean_replacement | exact S5]. }
  assert (C5 : never_matches comment_start t5 = true).
  { apply clears_own; [apply distinct_heads; reflexivity|clean_replacement]. }
  assert (C6 : never_matches comment_start t6 = true).
  { apply clears_other;
      [apply distinct_heads; reflexivity | clean_replacement | exact C5]. }
  assert (L6 : never_matches line_separator t6 = true).
  { apply clears_own; [constructor | clean_replacement]. }
  repeat split.
  - apply clears_other;
      [apply distinct_heads; reflexivity | clean_replacement | exact S6].
  - apply clears_other;
      [apply distinct_heads; reflexivity | clean_replacement | exact C6].
  - apply clears_other; [constructor | clean_replacement | exact L6].
  - apply clears_own; [constructor | clean_replacement].
Qed.

Definition unsafe_free (out : jsstring) : Prop :=
  includes_ci out (js "</script>") = false
  /\ includes out (js "<!--") = false
  /\ includes out [8232%N] = false
  /\ includes out [8233%N] = false.

Lemma clean_is_unsafe_free (out : jsstring) :
  never_matches script_end out = true ->
  never_matches comment_start out = true ->
  never_matches line_separator out = true ->
  never_matches paragraph_separator out = true ->
  unsafe_free out.
Proof.
  intros Hs Hc Hl Hp. repeat split.
  - exact (never_matches_includes_fold _ _ _ _ Hs).
  - pose proof (never_matches_includes_fold _ _ _ _ Hc) as H.
    now rewrite !map_same in H.
  - pose proof (never_matches_includes_fold _ _ _ _ Hl) as H.
    now rewrite !map_same in H.
  - pose proof (never_matches_includes_fold _ _ _ _ Hp) as H.
    now rewrite !map_same in H.
Qed.

Lemma plain_text_unsafe_free (out : jsstring) :
  List.forallb (fun c => (c <? 60)%N || ((96 <? c) && (c <? 128))%N) out
  = true ->
  unsafe_free out.
Proof.
  intros H.
  assert (Hne : forall c, (c = 60 \/ c = 8232 \/ c = 8233)%N ->
                          List.Forall (fun d => d <> c) out).
  { intros c Hc. apply List.Forall_forall. intros d Hd ->.
    rewrite List.forallb_forall in H. specialize (H _ Hd).
    apply orb_true_iff in H as [H | H].
    - apply N.ltb_lt in H. lia.
    - apply andb_true_iff in H as [H1 H2]. apply N.ltb_lt in H1.
      apply N.ltb_lt in H2. lia. }
  repeat split.
  - unfold includes_ci. apply (includes_without 60%N); [now left|].
    apply List.Forall_forall. intros d Hd Heq.
    apply List.in_map_iff in Hd as (c & Hc & Hin).
    rewrite List.forallb_forall in H. specialize (H _ Hin).
    unfold to_lower, is_upper in Hc.
    destruct ((65 <=? c)%N && (c <=? 90)%N) eqn:E.
    + apply andb_true_iff in E as [E1 E2]. apply N.leb_le in E1. lia.
    + subst. apply orb_true_iff in H as [H | H].
      * apply N.ltb_lt in H. lia.
      * apply andb_true_iff in H as [H1 H2]. apply N.ltb_lt in H1. lia.
  - apply (includes_without 60%N); [now left | apply Hne; lia].
  - apply (includes_without 8232%N); [now left | apply Hne; lia].
  - apply (includes_without 8233%N); [now left | apply Hne; lia].
Qed.

Lemma BigInt_toString_plain (z : Z) :
  List.forallb (fun c => (c <? 60)%N || ((96 <? c) && (c <? 128))%N)
    ([34%N] ++ BigInt_toString z ++ [34%N]) = true.
Proof.
  apply List.forallb_forall. intros c Hc.
  assert (Hlow : (c < 60)%N); [|apply orb_true_iff; left; now apply N.ltb_lt].
  unfold BigInt_toString, sign_of in Hc.
  rewrite !List.in_app_iff in Hc.
  destruct Hc as [[<-|[]] | [[Hc | Hc] | [<-|[]]]]; try lia.
  - destruct (z <? 0)%Z; [|destruct Hc]. destruct Hc as [<-|[]]. lia.
  - pose proof (uint_to_js_digits (N.to_uint (Z.abs_N z))) as H.
    rewrite List.forallb_forall in H. specialize (H c Hc).
    unfold is_digit in H. apply andb_true_iff in H as [_ H].
    apply N.leb_le in H. lia.
Qed.

(** Whatever the value, the text that [escapeForServiceWorker] returns
    holds no [</script>] in any letter case, no [<!--], no U+2028 and no
    U+2029. *)
Theorem escapeForServiceWorker_never_unsafe (value : jsval) :
  includes_ci (escapeForServiceWorker value) (js "</script>") = false
  /\ includes (escapeForServiceWorker value) (js "<!--") = false
  /\ includes (escapeForServiceWorker value) [8232%N] = false
  /\ includes (escapeForServiceWorker value) [8233%N] = false.
Proof.
  change (unsafe_free (escapeForServiceWorker value)).
  assert (Hnull : unsafe_free (js "null")) by (repeat split).
  assert (Htext : forall v,
    unsafe_free match JSON_stringify v with
                | Throws | Undefined => js "null"
                | Text serialized => escape_text serialized
                end).
  { intros v. destruct (JSON_stringify v) as [| |text]; try exact Hnull.
    destruct (escape_text_clean text) as (Hs & Hc & Hl & Hp).
    now apply clean_is_unsafe_free. }
  destruct value; try apply Htext; try (repeat split; reflexivity).
  apply plain_text_unsafe_free, BigInt_toString_plain.
Qed.

(** *** BigInt values *)

Lemma parse_literal_chars (s rest : jsstring) :
  List.Forall (fun c => (32 <= c)%N /\ c <> 34%N /\ c <> 92%N) s ->
  parse_string_chars (s ++ 34%N :: rest) = Some (s, rest).
Proof.
  induction 1 as [|c s (H1 & H2 & H3) _ IH]; [reflexivity|].
  cbn [app]. rewrite parse_literal_unit by assumption. now rewrite IH.
Qed.

Lemma BigInt_toString_literal (z : Z) :
  List.Forall (fun c => (32 <= c)%N /\ c <> 34%N /\ c <> 92%N)
    (BigInt_toString z).
Proof.
  apply List.Forall_forall. intros c Hc. unfold BigInt_toString in Hc.
  apply List.in_app_iff in Hc as [Hc | Hc].
  - unfold sign_of in Hc. destruct (z <? 0)%Z; [|destruct Hc].
    destruct Hc as [<-|[]]. lia.
  - pose proof (N_to_js_digits (Z.abs_N z)) as H.
    rewrite List.forallb_forall in H. specialize (H c Hc).
    unfold is_digit in H. apply andb_true_iff in H as [H1 H2].
    apply N.leb_le in H1. apply N.leb_le in H2. lia.
Qed.

(** A BigInt does not come back as a number: the text written for it is
    a JSON string, and [JSON.parse] reads the string of its decimal
    digits. *)
Theorem escapeForServiceWorker_bigint_is_a_string (z : Z) :
  JSON_parse (escapeForServiceWorker (VBigInt z))
  = Some (VString (BigInt_toString z))
  /\ typeof (VString (BigInt_toString z)) <> typeof (VBigInt z).
Proof.
  split; [|discriminate].
  unfold escapeForServiceWorker, JSON_parse. cbn [app].
  cbn [parse_value skip_ws is_json_ws N.eqb Pos.eqb orb].
  change (34 =? 34)%N with true. cbv iota.
  pose proof (parse_literal_chars _ [] (BigInt_toString_literal z)) as E.
  unfold jsstring, char16 in *. now rewrite E.
Qed.

(** A BigInt occurs in the value: the value is one, or is an array or an
    object that holds one at some depth. *)
Fixpoint has_bigint (v : jsval) : bool :=
  match v with
  | VBigInt _ => true
  | VArray items => List.existsb has_bigint items
  | VObject props => List.existsb (fun kv => has_bigint (snd kv)) props
  | _ => false
  end.

Lemma has_bigint_throws v :
  forall depth, has_bigint v = true ->
                SerializeJSONProperty depth v = Throws.
Proof.
  induction v as [| | | | | | | | |items IH|props IH|up]
    using jsval_nested_ind; intros depth; try discriminate.
  - reflexivity.
  - cbn [has_bigint]. intros H. rewrite SerializeJSONProperty_array.
    replace (serialize_elements depth items) with (@None (list jsstring));
      [reflexivity|].
    symmetry. induction IH as [|item rest Hitem _ IHrest];
      [discriminate|].
    cbn [List.existsb serialize_elements] in *.
    destruct (has_bigint item) eqn:E.
    + now rewrite (Hitem _ eq_refl).
    + cbn [orb] in H. rewrite (IHrest H).
      now destruct (SerializeJSONProperty (S depth) item).
  - cbn [has_bigint]. intros H. rewrite SerializeJSONProperty_object.
    replace (serialize_members depth props) with (@None (list jsstring));
      [reflexivity|].
    symmetry. induction IH as [|[key value] rest Hvalue _ IHrest];
      [discriminate|].
    cbn [List.existsb serialize_members snd] in *.
    destruct (has_bigint value) eqn:E.
    + now rewrite (Hvalue _ eq_refl).
    + cbn [orb] in H. rewrite (IHrest H).
      now destruct (SerializeJSONProperty (S depth) value).
Qed.

(** Only a BigInt that is the value itself is written: an array or an
    object that holds a BigInt at any depth is replaced, as a whole, by
    [null]. *)
Theorem escapeForServiceWorker_nested_bigint (v : jsval) :
  typeof v = TObject -> has_bigint v = true ->
  escapeForServiceWorker v = js "null".
Proof.
  intros Ht H. pose proof (has_bigint_throws v 0 H) as E.
  unfold escapeForServiceWorker, JSON_stringify.
  destruct v; try discriminate; now rewrite E.
Qed.

Lemma escapeForServiceWorker_nested_bigint_witness :
  escapeForServiceWorker
    (VObject [(js "name", VString (js "app"));
              (js "limits", VArray [VNumber (NInt 1); VBigInt 2])])
  = js "null".
Proof.
  apply escapeForServiceWorker_nested_bigint; reflexivity.
Defined.

(** *** The texts on which [JSON.parse] undoes the replacements *)

(** The pattern [/<\/script>/gi] at the head of a string. *)
Definition script_ci (t : jsstring) : bool :=
  startsWith (List.map to_lower t) (List.map to_lower (js "</script>")).

(** [</script>] in another letter case than the lower case of its
    replacement. *)
Definition other_case (t : jsstring) : bool :=
  script_ci t && negb (startsWith t (js "</script>")).

(** The serialised text holds no backslash, no back-tick, no [${] and no
    [<!--], and every [</script>] in it is in lower case.  It may hold
    [</script>], U+2028 and U+2029. *)
Definition round_trip_safe (text : jsstring) : bool :=
  negb (includes text (js "\"))
  && negb (includes text (js "`"))
  && negb (includes text (js "${"))
  && negb (includes text (js "<!--"))
  && never_matches other_case text.

(** The three replacements that are left on such a text. *)
Definition escape_rest (text : jsstring) : jsstring :=
  replace_all [8233%N] (js "\u2029")
    (replace_all [8232%N] (js "\u2028")
       (replace_all_ci (js "</script>") (js "<\/script>") text)).

Lemma never_matches_ext (f g : jsstring -> bool) (s : jsstring) :
  (forall t, f t = g t) -> never_matches f s = never_matches g s.
Proof.
  intros H. induction s as [|c s IH]; [reflexivity|].
  cbn [never_matches]. now rewrite H, IH.
Qed.

Lemma never_matches_suffix (f : jsstring -> bool) (a s : jsstring) :
  never_matches f (a ++ s) = true -> never_matches f s = true.
Proof.
  induction a as [|c a IH]; [trivial|]. cbn [app never_matches].
  intros H. apply andb_true_iff in H as [_ H]. now apply IH.
Qed.

Lemma escape_text_safe (text : jsstring) :
  round_trip_safe text = true -> escape_text text = escape_rest text.
Proof.
  unfold round_trip_safe, escape_text, escape_rest. intros H.
  repeat (apply andb_true_iff in H as [H ?]).
  repeat match goal with
         | H : negb _ = true |- _ => apply negb_true_iff in H
         end.
  rewrite (replace_all_id (js "\")) by assumption.
  rewrite (replace_all_id (js "`")) by assumption.
  rewrite (replace_all_id (js "${")) by assumption.
  do 2 f_equal. rewrite replace_all_exact.
  apply replace_all_from_id.
  change (fun t => starts same t (js "<!--"))
    with (forbidden same 60%N (js "!--")).
  unfold replace_all_ci. apply clears_other.
  - apply distinct_heads. reflexivity.
  - clean_replacement.
  - rewrite (never_matches_ext _ (fun t => startsWith t (js "<!--"))).
    + now apply never_matches_includes.
    + intros t. symmetry. apply exact_matcher.
Qed.

(** A replacement of one code unit works unit by unit. *)
Definition replace_unit (c : char16) (replacement : jsstring) (x : char16)
  : jsstring :=
  if (c =? x)%N then replacement else [x].

Lemma replace_all_unit (c : char16) (replacement s : jsstring) :
  replace_all [c] replacement s
  = List.flat_map (replace_unit c replacement) s.
Proof.
  unfold replace_all. change (length [c]) with 1.
  set (matches := fun t : jsstring => startsWith t [c]).
  induction s as [|x s IH]; [reflexivity|].
  cbn [replace_all_from Nat.sub List.flat_map]. rewrite IH.
  change (matches (x :: s)) with ((c =? x)%N && true).
  rewrite andb_true_r. unfold replace_unit.
  now destruct (c =? x)%N.
Qed.

Definition separators (text : jsstring) : jsstring :=
  List.flat_map (replace_unit 8233%N (js "\u2029"))
    (List.flat_map (replace_unit 8232%N (js "\u2028")) text).

Lemma escape_rest_passes (text : jsstring) :
  escape_rest text
  = separators (replace_all_from script_ci 9 (js "<\/script>") 0 text).
Proof. unfold escape_rest, separators. now rewrite !replace_all_unit. Qed.

Lemma separators_app (a b : jsstring) :
  separators (a ++ b) = separators a ++ separators b.
Proof. unfold separators. now rewrite !List.flat_map_app. Qed.

Lemma separators_cons (c : char16) (s : jsstring) :
  separators (c :: s) = separators [c] ++ separators s.
Proof. apply (separators_app [c] s). Qed.

Lemma separators_plain (c : char16) :
  c <> 8232%N -> c <> 8233%N -> separators [c] = [c].
Proof.
  intros H1 H2. unfold separators, replace_unit. cbn [List.flat_map].
  destruct (N.eqb_spec 8232 c) as [E|_]; [now destruct H1|].
  cbn [app List.flat_map].
  destruct (N.eqb_spec 8233 c) as [E|_]; [now destruct H2|]. reflexivity.
Qed.

Lemma to_lower_is (c d : char16) :
  to_lower c = d -> (d < 97 \/ 122 < d)%N -> c = d.
Proof.
  unfold to_lower, is_upper. intros H Hd.
  destruct ((65 <=? c) && (c <=? 90))%N eqn:E; [|exact H].
  apply andb_true_iff in E as [E1 E2].
  apply N.leb_le in E1. apply N.leb_le in E2. lia.
Qed.

Lemma script_ci_head (c : char16) (s : jsstring) :
  script_ci (c :: s) = true -> c = 60%N.
Proof.
  unfold script_ci.
  change (List.map to_lower (js "</script>")) with (js "</script>").
  cbn [List.map startsWith]. intros H. apply andb_true_iff in H as [H _].
  apply N.eqb_eq in H. apply to_lower_is; [now symmetry | lia].
Qed.

Lemma skipped (matches : jsstring -> bool) width replacement
    (a s : jsstring) :
  replace_all_from matches width replacement (length a) (a ++ s)
  = replace_all_from matches width replacement 0 s.
Proof. induction a as [|c a IH]; [reflexivity | exact IH]. Qed.

(** How [escape_rest] moves on, by the code unit at the head. *)
Lemma escape_rest_nil : escape_rest [] = [].
Proof. reflexivity. Qed.

Lemma escape_rest_unmatched (c : char16) (s : jsstring) :
  script_ci (c :: s) = false ->
  escape_rest (c :: s) = separators [c] ++ escape_rest s.
Proof.
  intros H. rewrite !escape_rest_passes. cbn [replace_all_from].
  rewrite H. apply separators_cons.
Qed.

Lemma escape_rest_plain (c : char16) (s : jsstring) :
  c <> 60%N -> c <> 8232%N -> c <> 8233%N ->
  escape_rest (c :: s) = c :: escape_rest s.
Proof.
  intros H1 H2 H3. rewrite escape_rest_unmatched.
  - now rewrite separators_plain.
  - destruct (script_ci (c :: s)) eqn:E; [|reflexivity].
    now apply script_ci_head in E.
Qed.

Lemma escape_rest_script (s : jsstring) :
  escape_rest (js "</script>" ++ s) = js "<\/script>" ++ escape_rest s.
Proof.
  rewrite !escape_rest_passes.
  change (js "</script>" ++ s) with (60%N :: js "/script>" ++ s).
  cbn [replace_all_from].
  assert (H : script_ci (60%N :: js "/script>" ++ s) = true) by reflexivity.
  rewrite H. change (9 - 1) with (length (js "/script>")).
  rewrite skipped, separators_app. reflexivity.
Qed.

Lemma escape_rest_line_separator (s : jsstring) :
  escape_rest (8232%N :: s) = js "\u2028" ++ escape_rest s.
Proof. now rewrite escape_rest_unmatched. Qed.

Lemma escape_rest_paragraph_separator (s : jsstring) :
  escape_rest (8233%N :: s) = js "\u2029" ++ escape_rest s.
Proof. now rewrite escape_rest_unmatched. Qed.

(** The head of the escaped text: a separator has become a backslash,
    any other code unit is still there. *)
Definition escaped_head (c : char16) : char16 :=
  if (c =? 8232)%N || (c =? 8233)%N then 92%N else c.

Lemma escape_rest_head (c : char16) (s : jsstring) :
  exists t, escape_rest (c :: s) = escaped_head c :: t.
Proof.
  unfold escaped_head.
  destruct (N.eqb_spec c 8232) as [->|H1];
    [rewrite escape_rest_line_separator; now eexists|].
  destruct (N.eqb_spec c 8233) as [->|H2];
    [rewrite escape_rest_paragraph_separator; now eexists|].
  cbn [orb]. destruct (script_ci (c :: s)) eqn:E.
  - rewrite escape_rest_passes. cbn [replace_all_from]. rewrite E.
    apply script_ci_head in E. subst c.
    rewrite separators_app. now eexists.
  - rewrite escape_rest_unmatched, separators_plain by assumption.
    now eexists.
Qed.

(** What the parser must not meet for the escaped text to read like the
    text: a backslash, or [</script>] in another letter case. *)
Definition loud (t : jsstring) : bool :=
  startsWith t (js "\") || other_case t.

Definition quiet (s : jsstring) : Prop := never_matches loud s = true.

Lemma quiet_cons (c : char16) (s : jsstring) :
  quiet (c :: s) -> c <> 92%N /\ other_case (c :: s) = false /\ quiet s.
Proof.
  unfold quiet. cbn [never_matches]. intros H.
  apply andb_true_iff in H as [H Hs]. apply negb_true_iff in H.
  unfold loud in H. apply orb_false_iff in H as [H1 H2].
  cbn [startsWith] in H1. rewrite andb_true_r in H1.
  apply N.eqb_neq in H1. repeat split; [congruence | exact H2 | exact Hs].
Qed.

Lemma quiet_suffix (a s : jsstring) : quiet (a ++ s) -> quiet s.
Proof. apply never_matches_suffix. Qed.

Lemma quiet_skip_ws (s : jsstring) : quiet s -> quiet (skip_ws s).
Proof.
  induction s as [|c s IH]; [trivial|]. intros H. cbn [skip_ws].
  destruct (is_json_ws c); [|exact H]. apply IH.
  now apply (quiet_suffix [c]).
Qed.

Lemma round_trip_safe_quiet (text : jsstring) :
  round_trip_safe text = true -> quiet text.
Proof.
  unfold round_trip_safe. intros H.
  apply andb_true_iff in H as [H Hcase].
  do 3 apply andb_true_iff in H as [H _].
  apply negb_true_iff in H. apply never_matches_includes in H.
  unfold quiet. revert H Hcase.
  induction text as [|c text IH]; [reflexivity|]. cbn [never_matches].
  intros H1 H2. apply andb_true_iff in H1 as [H1 H1'].
  apply andb_true_iff in H2 as [H2 H2'].
  apply negb_true_iff in H1. apply negb_true_iff in H2.
  unfold loud at 1. now rewrite H1, H2, IH.
Qed.

(** *** Strings *)

Lemma parse_literal_run (a t : jsstring) :
  List.Forall (fun c => (32 <= c)%N /\ c <> 34%N /\ c <> 92%N) a ->
  parse_string_chars (a ++ t)
  = match parse_string_chars t with
    | Some (chars, rest) => Some (a ++ chars, rest)
    | None => None
    end.
Proof.
  induction 1 as [|c a (H1 & H2 & H3) _ IH].
  - cbn [app]. now destruct (parse_string_chars t) as [[? ?]|].
  - cbn [app]. rewrite parse_literal_unit, IH by assumption.
    now destruct (parse_string_chars t) as [[? ?]|].
Qed.

Lemma parse_escaped_slash (t : jsstring) :
  parse_string_chars (92%N :: 47%N :: t)
  = prepend 47%N (parse_string_chars t).
Proof. reflexivity. Qed.

Lemma parse_escaped_separators (t : jsstring) :
  parse_string_chars (js "\u2028" ++ t)
  = prepend 8232%N (parse_string_chars t)
  /\ parse_string_chars (js "\u2029" ++ t)
     = prepend 8233%N (parse_string_chars t).
Proof. split; reflexivity. Qed.

(** The parser reads a string of the escaped text as it reads the string
    of the text. *)
Lemma parse_string_chars_escaped (n : nat) :
  forall s chars rest,
    length s <= n -> quiet s ->
    parse_string_chars s = Some (chars, rest) ->
    parse_string_chars (escape_rest s) = Some (chars, escape_rest rest)
    /\ quiet rest.
Proof.
  induction n as [|n IH]; intros s chars rest Hlen Hq Hp.
  { destruct s; [discriminate | cbn in Hlen; lia]. }
  destruct s as [|c s1]; [discriminate|].
  destruct (quiet_cons c s1 Hq) as (H92 & Hcase & Hq1).
  cbn [parse_string_chars] in Hp. cbn [length] in Hlen.
  destruct (N.eqb_spec c 34) as [->|H34].
  { injection Hp as <- <-. rewrite escape_rest_plain by lia.
    split; [reflexivity | exact Hq1]. }
  destruct (N.eqb_spec c 92) as [|_]; [contradiction|].
  destruct (N.ltb_spec c 32) as [|H32]; [discriminate|].
  destruct (parse_string_chars s1) as [[chars1 rest1]|] eqn:E1;
    [|discriminate].
  cbn [prepend] in Hp. injection Hp as <- <-.
  destruct (script_ci (c :: s1)) eqn:Em.
  - unfold other_case in Hcase. rewrite Em in Hcase. cbn [andb] in Hcase.
    apply negb_false_iff in Hcase.
    apply startsWith_prefix in Hcase as [t Ht].
    change (js "</script>" ++ t) with (60%N :: js "/script>" ++ t) in Ht.
    injection Ht as -> ->.
    assert (R : parse_string_chars (js "/script>" ++ t)
                = match parse_string_chars t with
                  | Some (chars, rest) => Some (js "/script>" ++ chars, rest)
                  | None => None
                  end)
      by (apply parse_literal_run; repeat constructor; lia).
    cbn [app] in R. rewrite R in E1. clear R.
    destruct (parse_string_chars t) as [[chars2 rest2]|] eqn:E2;
      [|discriminate].
    injection E1 as <- <-.
    destruct (IH t chars2 rest2) as [Hp2 Hq2];
      [cbn [length] in Hlen; lia
      |exact (quiet_suffix (js "/script>") t Hq1) | exact E2 |].
    split; [|exact Hq2].
    change (escape_rest (60%N :: ?x))
      with (escape_rest (js "</script>" ++ t)).
    rewrite escape_rest_script.
    change (js "<\/script>" ++ escape_rest t)
      with (60%N :: 92%N :: 47%N :: js "script>" ++ escape_rest t).
    rewrite parse_literal_unit by lia.
    rewrite parse_escaped_slash, parse_literal_run
      by (repeat constructor; lia).
    now rewrite Hp2.
  - destruct (IH s1 chars1 rest1) as [Hp1 Hq1'];
      [lia | exact Hq1 | exact E1 |].
    split; [|exact Hq1']. rewrite escape_rest_unmatched by exact Em.
    destruct (N.eqb_spec c 8232) as [->|H1].
    { change (separators [8232%N]) with (js "\u2028").
      rewrite (proj1 (parse_escaped_separators _)). now rewrite Hp1. }
    destruct (N.eqb_spec c 8233) as [->|H2].
    { change (separators [8233%N]) with (js "\u2029").
      rewrite (proj2 (parse_escaped_separators _)). now rewrite Hp1. }
    rewrite separators_plain by assumption. cbn [app].
    rewrite parse_literal_unit by assumption. now rewrite Hp1.
Qed.

(** *** Numbers *)

Definition escaped_rest {A : Type} (r : option (A * jsstring))
  : option (A * jsstring) :=
  match r with
  | Some (a, rest) => Some (a, escape_rest rest)
  | None => None
  end.

Lemma escaped_head_eqb (c k : char16) :
  k <> 92%N -> k <> 8232%N -> k <> 8233%N ->
  (escaped_head c =? k)%N = (c =? k)%N.
Proof.
  intros H1 H2 H3. unfold escaped_head.
  destruct (N.eqb_spec c 8232) as [->|_];
    [cbn [orb]; now rewrite !(proj2 (N.eqb_neq _ _)) by congruence|].
  destruct (N.eqb_spec c 8233) as [->|_];
    [cbn [orb]; now rewrite !(proj2 (N.eqb_neq _ _)) by congruence|].
  reflexivity.
Qed.

Lemma escaped_head_digit (c : char16) :
  is_digit (escaped_head c) = is_digit c.
Proof.
  unfold escaped_head.
  destruct (N.eqb_spec c 8232) as [->|_]; [reflexivity|].
  destruct (N.eqb_spec c 8233) as [->|_]; reflexivity.
Qed.

Lemma escape_rest_digit (c : char16) (s : jsstring) :
  is_digit c = true -> escape_rest (c :: s) = c :: escape_rest s.
Proof.
  unfold is_digit. intros H. apply andb_true_iff in H as [H1 H2].
  apply N.leb_le in H1. apply N.leb_le in H2.
  apply escape_rest_plain; lia.
Qed.

Lemma read_digits_escaped (s : jsstring) :
  read_digits (escape_rest s)
  = (fst (read_digits s), escape_rest (snd (read_digits s))).
Proof.
  induction s as [|c s IH]; [reflexivity|]. cbn [read_digits].
  destruct (is_digit c) eqn:Ed.
  - rewrite (escape_rest_digit c s Ed). cbn [read_digits]. rewrite Ed, IH.
    now destruct (read_digits s).
  - destruct (escape_rest_head c s) as [t Ht]. rewrite Ht.
    cbn [read_digits fst snd]. now rewrite escaped_head_digit, Ed, Ht.
Qed.

Lemma parse_fraction_escaped (s : jsstring) :
  parse_fraction (escape_rest s) = escaped_rest (parse_fraction s).
Proof.
  destruct s as [|c r]; [reflexivity|].
  destruct (N.eqb_spec c 46) as [->|Hc].
  - rewrite escape_rest_plain by lia.
    change (parse_fraction (46%N :: ?x))
      with (let '(frac_digits, rest) := read_digits x in
            match frac_digits with
            | [] => None
            | _ => Some (frac_digits, rest)
            end).
    rewrite read_digits_escaped. destruct (read_digits r) as [fd rest].
    cbn [fst snd]. now destruct fd.
  - destruct (escape_rest_head c r) as [t Ht]. rewrite Ht.
    cbn [parse_fraction]. rewrite escaped_head_eqb by lia.
    apply N.eqb_neq in Hc. rewrite Hc. cbn [escaped_rest]. now rewrite Ht.
Qed.

(** The digits of an exponent, its sign being read. *)
Definition exponent_digits (negative : bool) (r : jsstring)
  : option (Z * jsstring) :=
  let '(exp_digits, rest) := read_digits r in
  match exp_digits with
  | [] => None
  | _ =>
      let x := Z.of_N (digits_value exp_digits) in
      Some (if negative then (- x)%Z else x, rest)
  end.

Lemma exponent_digits_escaped (negative : bool) (r : jsstring) :
  exponent_digits negative (escape_rest r)
  = escaped_rest (exponent_digits negative r).
Proof.
  unfold exponent_digits. rewrite read_digits_escaped.
  destruct (read_digits r) as [ds rest]. cbn [fst snd]. now destruct ds.
Qed.

Lemma parse_exponent_unsigned (c g : char16) (r : jsstring) :
  (c =? 101)%N || (c =? 69)%N = true ->
  (g =? 45)%N = false -> (g =? 43)%N = false ->
  parse_exponent (c :: g :: r) = exponent_digits false (g :: r).
Proof.
  intros Ee H45 H43. cbn [parse_exponent]. now rewrite Ee, H45, H43.
Qed.

Lemma parse_exponent_escaped (s : jsstring) :
  parse_exponent (escape_rest s) = escaped_rest (parse_exponent s).
Proof.
  destruct s as [|c r]; [reflexivity|].
  destruct ((c =? 101)%N || (c =? 69)%N) eqn:Ee.
  - assert (Hc : c = 101%N \/ c = 69%N).
    { apply orb_true_iff in Ee as [E | E]; apply N.eqb_eq in E; auto. }
    rewrite escape_rest_plain by lia.
    destruct r as [|g r1];
      [cbn [parse_exponent]; rewrite Ee; reflexivity|].
    destruct (N.eqb_spec g 45) as [->|H45].
    { rewrite escape_rest_plain by lia. cbn [parse_exponent]. rewrite Ee.
      exact (exponent_digits_escaped true r1). }
    destruct (N.eqb_spec g 43) as [->|H43].
    { rewrite escape_rest_plain by lia. cbn [parse_exponent]. rewrite Ee.
      exact (exponent_digits_escaped false r1). }
    apply N.eqb_neq in H45. apply N.eqb_neq in H43.
    rewrite (parse_exponent_unsigned c g r1 Ee H45 H43).
    rewrite <- exponent_digits_escaped.
    destruct (escape_rest_head g r1) as [t Ht]. rewrite Ht.
    apply parse_exponent_unsigned; [exact Ee | |];
      now rewrite escaped_head_eqb by lia.
  - destruct (escape_rest_head c r) as [t Ht]. rewrite Ht.
    cbn [parse_exponent]. rewrite !escaped_head_eqb, Ee by lia.
    cbn [escaped_rest]. now rewrite Ht.
Qed.

Lemma parse_unsigned_escaped (negative : bool) (s : jsstring) :
  parse_unsigned negative (escape_rest s)
  = escaped_rest (parse_unsigned negative s).
Proof.
  unfold parse_unsigned. rewrite read_digits_escaped.
  destruct (read_digits s) as [ds s2]. cbn [fst snd].
  destruct ds as [|d more]; [reflexivity|].
  destruct ((d =? 48)%N && negb (str_eqb more [])); [reflexivity|].
  rewrite parse_fraction_escaped.
  destruct (parse_fraction s2) as [[fd s3]|]; [|reflexivity].
  cbn [escaped_rest]. rewrite parse_exponent_escaped.
  now destruct (parse_exponent s3) as [[x rest]|].
Qed.

Lemma parse_number_escaped (s : jsstring) :
  parse_number (escape_rest s) = escaped_rest (parse_number s).
Proof.
  destruct s as [|c r]; [reflexivity|].
  destruct (N.eqb_spec c 45) as [->|Hc].
  - rewrite escape_rest_plain by lia. apply parse_unsigned_escaped.
  - destruct (escape_rest_head c r) as [t Ht].
    cbn [parse_number]. apply N.eqb_neq in Hc. rewrite Hc.
    rewrite <- parse_unsigned_escaped, Ht. cbn [parse_number].
    now rewrite escaped_head_eqb, Hc by lia.
Qed.

Lemma read_digits_app (s : jsstring) :
  s = fst (read_digits s) ++ snd (read_digits s).
Proof.
  induction s as [|c s IH]; [reflexivity|]. cbn [read_digits].
  destruct (is_digit c); [|reflexivity].
  destruct (read_digits s) as [ds rest]. cbn [fst snd app] in *.
  now rewrite <- IH.
Qed.

Lemma parse_number_suffix (s : jsstring) n rest :
  parse_number s = Some (n, rest) -> exists a, s = a ++ rest.
Proof.
  assert (F : forall s fd rest,
            parse_fraction s = Some (fd, rest) -> exists a, s = a ++ rest).
  { intros [|c r] fd rest'; cbn [parse_fraction];
      [intros [= <- <-]; now exists []|].
    destruct (c =? 46)%N; [|intros [= <- <-]; now exists []].
    pose proof (read_digits_app r) as Hr.
    destruct (read_digits r) as [ds rest'']. cbn [fst snd] in Hr.
    destruct ds; [discriminate|]. intros [= <- <-].
    exists (c :: c0 :: ds). now rewrite Hr. }
  assert (X : forall s x rest,
            parse_exponent s = Some (x, rest) -> exists a, s = a ++ rest).
  { intros [|c r] x rest'; cbn [parse_exponent];
      [intros [= <- <-]; now exists []|].
    destruct ((c =? 101)%N || (c =? 69)%N); [|intros [= <- <-]; now exists []].
    assert (G : exists b r', r = b ++ r'
              /\ exists negative,
                   match r with
                   | g :: r1 =>
                       if (g =? 45)%N then (true, r1)
                       else if (g =? 43)%N then (false, r1) else (false, r)
                   | [] => (false, r)
                   end = (negative, r')).
    { destruct r as [|g r1]; [exists [], []; split; [reflexivity | eauto]|].
      destruct (g =? 45)%N; [exists [g], r1; split; [reflexivity | eauto]|].
      destruct (g =? 43)%N; [exists [g], r1; split; [reflexivity | eauto]|].
      exists [], (g :: r1). split; [reflexivity | eauto]. }
    destruct G as (b & r' & -> & negative & ->).
    pose proof (read_digits_app r') as Hr.
    destruct (read_digits r') as [ds rest'']. cbn [fst snd] in Hr.
    destruct ds; [discriminate|]. intros [= <- <-].
    exists (c :: b ++ c0 :: ds). rewrite Hr.
    cbn [app]. now rewrite <- !app_assoc. }
  assert (U : forall negative s n rest,
            parse_unsigned negative s = Some (n, rest) ->
            exists a, s = a ++ rest).
  { intros negative s0 n0 rest0. unfold parse_unsigned.
    pose proof (read_digits_app s0) as Hr.
    destruct (read_digits s0) as [ds s2]. cbn [fst snd] in Hr.
    destruct ds as [|d more]; [discriminate|].
    destruct ((d =? 48)%N && negb (str_eqb more [])); [discriminate|].
    destruct (parse_fraction s2) as [[fd s3]|] eqn:Ef; [|discriminate].
    destruct (parse_exponent s3) as [[x rest1]|] eqn:Ex; [|discriminate].
    intros [= <- <-]. destruct (F _ _ _ Ef) as [a1 H1].
    destruct (X _ _ _ Ex) as [a2 H2].
    exists ((d :: more) ++ a1 ++ a2).
    rewrite Hr, H1, H2. now rewrite <- !app_assoc. }
  destruct s as [|c r]; [discriminate|]. cbn [parse_number].
  destruct (c =? 45)%N.
  - intros H. destruct (U _ _ _ _ H) as [a ->]. now exists (c :: a).
  - apply U.
Qed.

(** *** Values *)

Lemma escaped_head_ws (c : char16) :
  is_json_ws (escaped_head c) = is_json_ws c.
Proof.
  unfold escaped_head.
  destruct (N.eqb_spec c 8232) as [->|_]; [reflexivity|].
  destruct (N.eqb_spec c 8233) as [->|_]; reflexivity.
Qed.

Lemma skip_ws_escaped (s : jsstring) :
  skip_ws (escape_rest s) = escape_rest (skip_ws s).
Proof.
  induction s as [|c s IH]; [reflexivity|]. cbn [skip_ws].
  destruct (is_json_ws c) eqn:Ew.
  - assert (Hc : c = 32%N \/ c = 9%N \/ c = 10%N \/ c = 13%N).
    { unfold is_json_ws in Ew.
      repeat (apply orb_true_iff in Ew as [Ew | Ew]);
        apply N.eqb_eq in Ew; auto. }
    rewrite escape_rest_plain by lia. cbn [skip_ws]. now rewrite Ew.
  - destruct (escape_rest_head c s) as [t Ht]. rewrite Ht.
    cbn [skip_ws]. now rewrite escaped_head_ws, Ew.
Qed.

Lemma escape_rest_run (a s : jsstring) :
  List.Forall (fun c => c <> 60%N /\ c <> 8232%N /\ c <> 8233%N) a ->
  escape_rest (a ++ s) = a ++ escape_rest s.
Proof.
  induction 1 as [|c a (H1 & H2 & H3) _ IH]; [reflexivity|].
  cbn [app]. now rewrite escape_rest_plain, IH.
Qed.

Lemma parse_number_head (c : char16) (r : jsstring) n rest :
  parse_number (c :: r) = Some (n, rest) ->
  c = 45%N \/ is_digit c = true.
Proof.
  cbn [parse_number]. destruct (N.eqb_spec c 45) as [|_]; [now left|].
  unfold parse_unsigned. cbn [read_digits].
  destruct (is_digit c); [now right|]. discriminate.
Qed.

(** A value that starts with [word]. *)
Lemma literal_escaped (word r' : jsstring) :
  List.Forall (fun c => c <> 60%N /\ c <> 8232%N /\ c <> 8233%N) word ->
  forall c r, startsWith (c :: r) word = true ->
              List.skipn (length word) (c :: r) = r' ->
              c :: r = word ++ r'
              /\ escape_rest (c :: r) = word ++ escape_rest r'.
Proof.
  intros Hw c r Hs Hk. apply startsWith_prefix in Hs as [t Ht].
  rewrite Ht in Hk |- *.
  assert (E : List.skipn (length word) (word ++ t) = t)
    by (clear; induction word; [reflexivity | assumption]).
  rewrite E in Hk. subst t.
  split; [reflexivity | now apply escape_rest_run].
Qed.

(** The parser reads the escaped text as it reads the text. *)
Lemma parse_escaped (fuel : nat) :
  (forall s v rest,
      quiet s -> parse_value fuel s = Some (v, rest) ->
      parse_value fuel (escape_rest s) = Some (v, escape_rest rest)
      /\ quiet rest)
  /\ (forall s items rest,
        quiet s -> parse_elements fuel s = Some (items, rest) ->
        parse_elements fuel (escape_rest s) = Some (items, escape_rest rest)
        /\ quiet rest)
  /\ (forall s props result rest,
        quiet s -> parse_members fuel s props = Some (result, rest) ->
        parse_members fuel (escape_rest s) props
        = Some (result, escape_rest rest)
        /\ quiet rest).
Proof.
  induction fuel as [|fuel (IHv & IHe & IHm)];
    [repeat split; discriminate|].
  split; [|split].
  - intros s v rest Hq Hp. cbn [parse_value] in Hp |- *.
    rewrite skip_ws_escaped. apply quiet_skip_ws in Hq.
    destruct (skip_ws s) as [|c r]; [discriminate|].
    pose proof (quiet_suffix [c] r Hq) as Hr.
    revert Hp. destruct (N.eqb_spec c 34) as [->|H34]; intros Hp.
    { destruct (parse_string_chars r) as [[chars rest']|] eqn:Ep;
        [|discriminate].
      injection Hp as <- <-.
      destruct (parse_string_chars_escaped (length r) r chars rest'
                  (le_n _) Hr Ep) as [Hp' Hq'].
      rewrite escape_rest_plain by lia.
      change (34 =? 34)%N with true. cbv iota. now rewrite Hp'. }
    revert Hp. destruct (N.eqb_spec c 91) as [->|H91]; intros Hp.
    { pose proof (quiet_skip_ws r Hr) as Hr'.
      rewrite escape_rest_plain by lia.
      change (91 =? 34)%N with false. change (91 =? 91)%N with true.
      cbv iota. rewrite skip_ws_escaped.
      destruct (skip_ws r) as [|d r']; [discriminate|].
      revert Hp. destruct (N.eqb_spec d 93) as [->|H93]; intros Hp.
      - injection Hp as <- <-. rewrite escape_rest_plain by lia.
        change (93 =? 93)%N with true. cbv iota.
        split; [reflexivity | exact (quiet_suffix [93%N] r' Hr')].
      - destruct (parse_elements fuel r) as [[items rest']|] eqn:Ee;
          [|discriminate].
        injection Hp as <- <-. destruct (IHe r items rest' Hr Ee) as [He Hq'].
        destruct (escape_rest_head d r') as [t Ht]. rewrite Ht.
        rewrite escaped_head_eqb by lia. apply N.eqb_neq in H93.
        now rewrite H93, He. }
    revert Hp. destruct (N.eqb_spec c 123) as [->|H123]; intros Hp.
    { pose proof (quiet_skip_ws r Hr) as Hr'.
      rewrite escape_rest_plain by lia.
      change (123 =? 34)%N with false. change (123 =? 91)%N with false.
      change (123 =? 123)%N with true.
      cbv iota. rewrite skip_ws_escaped.
      destruct (skip_ws r) as [|d r']; [discriminate|].
      revert Hp. destruct (N.eqb_spec d 125) as [->|H125]; intros Hp.
      - injection Hp as <- <-. rewrite escape_rest_plain by lia.
        change (125 =? 125)%N with true. cbv iota.
        split; [reflexivity | exact (quiet_suffix [125%N] r' Hr')].
      - destruct (parse_members fuel r []) as [[props rest']|] eqn:Em;
          [|discriminate].
        injection Hp as <- <-.
        destruct (IHm r [] props rest' Hr Em) as [He Hq'].
        destruct (escape_rest_head d r') as [t Ht]. rewrite Ht.
        rewrite escaped_head_eqb by lia. apply N.eqb_neq in H125.
        now rewrite H125, He. }
    destruct (startsWith (c :: r) (js "true")) eqn:Et.
    { injection Hp as <- <-.
      destruct (literal_escaped (js "true") _
                  ltac:(repeat constructor; lia) c r Et eq_refl)
        as [E1 E2].
      rewrite E2. split; [reflexivity|].
      rewrite E1 in Hq. exact (quiet_suffix _ _ Hq). }
    destruct (startsWith (c :: r) (js "false")) eqn:Ef.
    { injection Hp as <- <-.
      destruct (literal_escaped (js "false") _
                  ltac:(repeat constructor; lia) c r Ef eq_refl)
        as [E1 E2].
      rewrite E2. split; [reflexivity|].
      rewrite E1 in Hq. exact (quiet_suffix _ _ Hq). }
    destruct (startsWith (c :: r) (js "null")) eqn:En.
    { injection Hp as <- <-.
      destruct (literal_escaped (js "null") _
                  ltac:(repeat constructor; lia) c r En eq_refl)
        as [E1 E2].
      rewrite E2. split; [reflexivity|].
      rewrite E1 in Hq. exact (quiet_suffix _ _ Hq). }
    destruct (parse_number (c :: r)) as [[n rest']|] eqn:Ep;
      [|discriminate].
    injection Hp as <- <-.
    pose proof (parse_number_escaped (c :: r)) as Hn. rewrite Ep in Hn.
    cbn [escaped_rest] in Hn.
    destruct (parse_number_suffix _ _ _ Ep) as [a Ha].
    split; [|rewrite Ha in Hq; exact (quiet_suffix _ _ Hq)].
    assert (Hplain : c <> 60%N /\ c <> 8232%N /\ c <> 8233%N
                     /\ (c < 91)%N /\ c <> 34%N).
    { destruct (parse_number_head _ _ _ _ Ep) as [-> | Hd]; [lia|].
      unfold is_digit in Hd. apply andb_true_iff in Hd as [H1 H2].
      apply N.leb_le in H1. apply N.leb_le in H2. lia. }
    destruct Hplain as (P1 & P2 & P3 & P4 & P5).
    rewrite escape_rest_plain in Hn |- * by assumption.
    rewrite Hn. cbn [startsWith].
    rewrite !(proj2 (N.eqb_neq _ _)) by lia. reflexivity.
  - intros s items rest Hq Hp. cbn [parse_elements] in Hp |- *.
    destruct (parse_value fuel s) as [[v r]|] eqn:Ev; [|discriminate].
    destruct (IHv s v r Hq Ev) as [Hv Hr]. rewrite Hv.
    rewrite skip_ws_escaped. apply quiet_skip_ws in Hr.
    destruct (skip_ws r) as [|c r']; [discriminate|].
    pose proof (quiet_suffix [c] r' Hr) as Hr'.
    revert Hp. destruct (N.eqb_spec c 44) as [->|H44]; intros Hp.
    { destruct (parse_elements fuel r') as [[more rest']|] eqn:Ee;
        [|discriminate].
      injection Hp as <- <-.
      destruct (IHe r' more rest' Hr' Ee) as [He Hq'].
      rewrite escape_rest_plain by lia.
      change (44 =? 44)%N with true. cbv iota. now rewrite He. }
    revert Hp. destruct (N.eqb_spec c 93) as [->|H93]; intros Hp;
      [|discriminate].
    injection Hp as <- <-. rewrite escape_rest_plain by lia.
    split; [reflexivity | exact Hr'].
  - intros s props result rest Hq Hp. cbn [parse_members] in Hp |- *.
    rewrite skip_ws_escaped. apply quiet_skip_ws in Hq.
    destruct (skip_ws s) as [|q r0]; [discriminate|].
    pose proof (quiet_suffix [q] r0 Hq) as Hr0.
    revert Hp. destruct (N.eqb_spec q 34) as [->|H34]; intros Hp;
      [|discriminate].
    rewrite escape_rest_plain by lia.
    change (34 =? 34)%N with true. cbv iota.
    destruct (parse_string_chars r0) as [[key r1]|] eqn:Ek; [|discriminate].
    destruct (parse_string_chars_escaped (length r0) r0 key r1
                (le_n _) Hr0 Ek) as [Hk Hr1].
    rewrite Hk, skip_ws_escaped. apply quiet_skip_ws in Hr1.
    destruct (skip_ws r1) as [|colon r2]; [discriminate|].
    pose proof (quiet_suffix [colon] r2 Hr1) as Hr2.
    revert Hp. destruct (N.eqb_spec colon 58) as [->|H58]; intros Hp;
      [|discriminate].
    rewrite escape_rest_plain by lia.
    change (58 =? 58)%N with true. cbv iota.
    destruct (parse_value fuel r2) as [[v r3]|] eqn:Ev; [|discriminate].
    destruct (IHv r2 v r3 Hr2 Ev) as [Hv Hr3]. rewrite Hv.
    rewrite skip_ws_escaped. apply quiet_skip_ws in Hr3.
    destruct (skip_ws r3) as [|c r4]; [discriminate|].
    pose proof (quiet_suffix [c] r4 Hr3) as Hr4.
    revert Hp. destruct (N.eqb_spec c 44) as [->|H44]; intros Hp.
    { destruct (IHm r4 _ result rest Hr4 Hp) as [Hm Hq'].
      rewrite escape_rest_plain by lia.
      change (44 =? 44)%N with true. cbv iota. now rewrite Hm. }
    revert Hp. destruct (N.eqb_spec c 125) as [->|H125]; intros Hp;
      [|discriminate].
    injection Hp as <- <-. rewrite escape_rest_plain by lia.
    split; [reflexivity | exact Hr4].
Qed.

(** *** The round trip *)

Lemma replace_all_from_grows matches width replacement skip s :
  0 < width -> width <= length replacement ->
  length s
  <= length (replace_all_from matches width replacement skip s) + skip.
Proof.
  intros H0 Hw. revert skip.
  induction s as [|c s IH]; intros skip; [cbn; lia|].
  cbn [replace_all_from length]. destruct skip as [|skip].
  - destruct (matches (c :: s)).
    + rewrite length_app. specialize (IH (width - 1)). lia.
    + cbn [length]. specialize (IH 0). lia.
  - specialize (IH skip). lia.
Qed.

Lemma replace_all_grows (pattern replacement s : jsstring) :
  0 < length pattern -> length pattern <= length replacement ->
  length s <= length (replace_all pattern replacement s).
Proof.
  intros H0 Hw. unfold replace_all.
  pose proof (replace_all_from_grows (fun t => startsWith t pattern)
                (length pattern) replacement 0 s H0 Hw). lia.
Qed.

Lemma replace_all_ci_grows (pattern replacement s : jsstring) :
  0 < length pattern -> length pattern <= length replacement ->
  length s <= length (replace_all_ci pattern replacement s).
Proof.
  intros H0 Hw. unfold replace_all_ci.
  pose proof (replace_all_from_grows
                (fun t => startsWith (List.map to_lower t)
                            (List.map to_lower pattern))
                (length pattern) replacement 0 s H0 Hw). lia.
Qed.

Lemma escape_rest_grows (s : jsstring) : length s <= length (escape_rest s).
Proof.
  unfold escape_rest.
  etransitivity; [apply (replace_all_ci_grows (js "</script>")
                           (js "<\/script>")); cbn; lia|].
  etransitivity; [apply (replace_all_grows [8232%N] (js "\u2028"));
                  cbn; lia|].
  apply (replace_all_grows [8233%N] (js "\u2029")); cbn; lia.
Qed.

(** On a text that is safe, [JSON.parse] reads from the escaped text the
    value that [JSON.stringify] had written. *)
Lemma parse_escape_text (v : jsval) (text : jsstring) :
  json_data v = true -> JSON_stringify v = Text text ->
  round_trip_safe text = true ->
  JSON_parse (escape_text text) = Some v.
Proof.
  intros Hd Hs Hsafe. rewrite (escape_text_safe text Hsafe).
  destruct (json_data_reads_back v Hd 0) as (c & t & Hser & _ & _ & Hparse).
  unfold JSON_stringify in Hs. rewrite Hs in Hser. injection Hser as ->.
  pose proof (escape_rest_grows (c :: t)) as Hlen.
  specialize (Hparse (S (length (escape_rest (c :: t)))) []
                ltac:(lia) eq_refl).
  rewrite app_nil_r in Hparse.
  destruct (proj1 (parse_escaped _) _ _ _
              (round_trip_safe_quiet _ Hsafe) Hparse) as [Hp _].
  unfold JSON_parse. now rewrite Hp.
Qed.

Lemma escape_free_safe (text : jsstring) :
  escape_free text = true -> round_trip_safe text = true.
Proof.
  unfold escape_free, round_trip_safe. intros H.
  do 2 apply andb_true_iff in H as [H _].
  apply andb_true_iff in H as [H Hcomment].
  apply andb_true_iff in H as [H Hscript].
  rewrite H, Hcomment. cbn [andb].
  apply negb_true_iff in Hscript.
  apply never_matches_includes_ci in Hscript.
  exact (never_matches_weaken _ _ _ Hscript).
Qed.

(** Each of the other texts breaks the round trip: [${] and [<!--] get a
    backslash that is no JSON escape, and [</SCRIPT>] comes back in lower
    case. *)
Example escape_breaks_other_texts :
  JSON_parse (escapeForServiceWorker (VString (js "${x}"))) = None
  /\ JSON_parse (escapeForServiceWorker (VString (js "<!--"))) = None
  /\ JSON_parse (escapeForServiceWorker (VString (js "</SCRIPT>")))
     = Some (VString (js "</script>")).
Proof. repeat split; vm_compute; reflexivity. Qed.

(** C4 (amended): for JSON-representable data whose [JSON.stringify] text
    holds no backslash, no back-tick, no [${] and no [<!--], and holds
    [</script>] in lower case only, [JSON.parse] reads the value back from
    what [escapeForServiceWorker] returns; the text may hold [</script>],
    U+2028 and U+2029, which are escaped and read back.  A text that
    holds none of the seven patterns is such a text, and
    [escapeForServiceWorker] returns it unchanged.  For a cyclic object,
    a function or a symbol it returns [null]. *)
Theorem escape_round_trip (v : jsval) :
  (json_data v = true ->
   (exists text, JSON_stringify v = Text text)
   /\ forall text,
        JSON_stringify v = Text text ->
        (round_trip_safe text = true ->
         JSON_parse (escapeForServiceWorker v) = Some v)
        /\ (escape_free text = true ->
            round_trip_safe text = true
            /\ escapeForServiceWorker v = text))
  /\ (cyclic v = true -> escapeForServiceWorker v = js "null")
  /\ (typeof v = TFunction \/ typeof v = TSymbol ->
      escapeForServiceWorker v = js "null").
Proof.
  split; [|split].
  - intros Hd. destruct (JSON_parse_stringify v Hd) as (text & Hs & _).
    split; [eauto|]. intros text' Hs'.
    rewrite Hs in Hs'. injection Hs' as <-.
    assert (He : escapeForServiceWorker v = escape_text text).
    { unfold escapeForServiceWorker. rewrite Hs.
      destruct v; try discriminate; reflexivity. }
    split.
    + intros Hsafe. rewrite He. now apply parse_escape_text.
    + intros Hfree. split; [now apply escape_free_safe|].
      rewrite He. now apply escape_text_id.
  - apply escape_cyclic_is_null.
  - destruct v; cbn [typeof]; intros [H | H]; try discriminate; reflexivity.
Qed.

Definition example_config : jsval :=
  VObject
    [(js "url", VString (js "/app/_next/static/chunks/main.js"));
     (js "revision", VNull);
     (js "skipWaiting", VBool true);
     (js "statuses", VArray [VNumber (NInt 0); VNumber (NInt 200);
                             VNumber (NInt (-1))]);
     (js "fallbacks", VObject [])].

(** A value with [</script>], U+2028 and U+2029 in a string and in a
    key. *)
Definition example_markup : jsval :=
  VObject
    [(js "</script>", VArray [VNumber (NDec 15 (-1)); VBool false]);
     (js "html",
      VString (js "<p>a</script>" ++ [8232%N; 8233%N] ++ js "<!-"))].

(** [const obj = { foo: 'bar' }; obj.self = obj] *)
Definition example_cyclic : jsval :=
  VObject [(js "foo", VString (js "bar")); (js "self", VBack 0)].

Lemma escape_round_trip_witness :
  JSON_parse (escapeForServiceWorker example_markup) = Some example_markup
  /\ JSON_parse (escapeForServiceWorker example_config) = Some example_config
  /\ escapeForServiceWorker example_cyclic = js "null"
  /\ escapeForServiceWorker (VFunction (js "() => {}")) = js "null".
Proof.
  split; [|split; [|split]].
  - destruct (proj1 (escape_round_trip example_markup) eq_refl)
      as [[text Htext] H].
    apply (proj1 (H text Htext)). vm_compute in Htext.
    injection Htext as <-. vm_compute. reflexivity.
  - destruct (proj1 (escape_round_trip example_config) eq_refl)
      as [[text Htext] H].
    apply (proj1 (H text Htext)). vm_compute in Htext.
    injection Htext as <-. vm_compute. reflexivity.
  - apply (proj1 (proj2 (escape_round_trip example_cyclic))).
    vm_compute. reflexivity.
  - apply (proj2 (proj2 (escape_round_trip (VFunction (js "() => {}"))))).
    left. reflexivity.
Defined.

End Escaper.

Import Escaper.

(* ===================================================================== *)
(** ** CompileSW: [validateManifest] and [resolveSwDest] *)
(* ===================================================================== *)

Module CompileSW.

Import ManifestGenerator.

(** ** [validateManifest] *)

Definition must_be_object (i : N) : jsstring :=
  js "Manifest entry " ++ N_to_js i ++ js " must be an object".

Definition must_have_url (i : N) : jsstring :=
  js "Manifest entry " ++ N_to_js i ++ js " must have a non-empty url".

Definition must_have_revision (i : N) : jsstring :=
  js "Manifest entry " ++ N_to_js i ++ js " revision must be a string or null".

Definition dotdot_warning (i : N) (u : jsstring) : jsstring :=
  js "Manifest entry " ++ N_to_js i ++ js " URL contains '..': " ++ u.

Definition long_warning (i : N) (u : jsstring) : jsstring :=
  js "Manifest entry " ++ N_to_js i ++ js " URL is very long ("
  ++ N_to_js (N.of_nat (length u)) ++ js " chars)".

(** The loop over the entries, from index [i] on, with the warnings pushed
    so far.  [enclosing] is the manifest itself, for an entry that is a
    reference to it. *)
Fixpoint validate_entries (enclosing : list jsval) (i : N)
  (items : list jsval) (warnings : list jsstring)
  : outcome (list jsstring) :=
  match items with
  | [] => Returned warnings
  | item :: rest =>
      let entry := resolve enclosing item in
      if negb (jstype_eqb (typeof (fst entry)) TObject) || is_null (fst entry)
      then Threw (must_be_object i)
      else
        match fst (get entry (js "url")) with
        | VString u =>
            if (length u =? 0)%nat then Threw (must_have_url i)
            else
              let given := fst (get entry (js "revision")) in
              if negb (is_null given)
                 && negb (jstype_eqb (typeof given) TString)
              then Threw (must_have_revision i)
              else
                let warnings :=
                  if includes u (js "..")
                  then warnings ++ [dotdot_warning i u] else warnings in
                let warnings :=
                  if (2000 <? length u)%nat
                  then warnings ++ [long_warning i u] else warnings in
                validate_entries enclosing (i + 1) rest warnings
        | _ => Threw (must_have_url i)
        end
  end.

(** [validateManifest(manifest)]: the warnings, or the error thrown. *)
Definition validateManifest (manifest : jsval) : outcome (list jsstring) :=
  match manifest with
  | VArray items => validate_entries [VArray items] 0 items []
  | _ => Threw (js "Manifest must be an array")
  end.

(** A manifest of the declared type [PrecacheEntry[]], as the generator
    builds it: [{ url, revision }] with [revision] a string or [null]. *)
Definition entry_value (e : PrecacheEntry) : jsval :=
  VObject [(js "url", VString (url e));
           (js "revision", match revision e with
                           | Some r => VString r
                           | None => VNull
                           end)].

Definition manifest_value (entries : list PrecacheEntry) : jsval :=
  VArray (List.map entry_value entries).

(** ** [resolveSwDest] *)

(** [path.isAbsolute] (POSIX). *)
Definition path_isAbsolute (path : jsstring) : bool :=
  startsWith path (js "/").

(** [resolveSwDest(config, cwd)], on [config.dest] and [config.sw]. *)
Definition resolveSwDest (dest sw cwd : jsstring) : jsstring :=
  let destDir := if path_isAbsolute dest then dest else path_join [cwd; dest] in
  path_join [destDir; sw].

(** ** Typed manifests *)

Definition entry_warnings (i : N) (u : jsstring) : list jsstring :=
  (if includes u (js "..") then [dotdot_warning i u] else [])
  ++ (if (2000 <? length u)%nat then [long_warning i u] else []).

Fixpoint warnings_from (i : N) (entries : list PrecacheEntry)
  : list jsstring :=
  match entries with
  | [] => []
  | e :: rest => entry_warnings i (url e) ++ warnings_from (i + 1) rest
  end.

Lemma validate_entry_typed enclosing i e rest warnings :
  validate_entries enclosing i (entry_value e :: rest) warnings
  = if (length (url e) =? 0)%nat then Threw (must_have_url i)
    else validate_entries enclosing (i + 1) rest
           (warnings ++ entry_warnings i (url e)).
Proof.
  destruct e as [u [r|]]; unfold entry_value; cbn [url revision];
    cbn [validate_entries resolve fst typeof jstype_eqb negb is_null orb get
         lookup_prop str_eqb N.eqb Pos.eqb andb];
    (destruct (length u =? 0)%nat; [reflexivity|]);
    unfold entry_warnings;
    destruct (includes u (js "..")), (2000 <? length u)%nat;
    rewrite <- ?app_assoc, ?app_nil_r; reflexivity.
Qed.

Lemma validate_entries_typed enclosing entries :
  List.Forall (fun e => url e <> []) entries ->
  forall i warnings,
    validate_entries enclosing i (List.map entry_value entries) warnings
    = Returned (warnings ++ warnings_from i entries).
Proof.
  induction 1 as [|e entries He _ IH]; intros i warnings.
  - cbn. now rewrite app_nil_r.
  - cbn [List.map]. rewrite validate_entry_typed.
    destruct (url e) eqn:E; [contradiction|]. cbn [length Nat.eqb].
    rewrite IH. cbn [warnings_from]. rewrite E. now rewrite <- app_assoc.
Qed.

Lemma validate_entries_empty_url enclosing before e after :
  List.Forall (fun e => url e <> []) before -> url e = [] ->
  forall i warnings,
    validate_entries enclosing i
      (List.map entry_value (before ++ e :: after)) warnings
    = Threw (must_have_url (i + N.of_nat (length before))).
Proof.
  intros Hb He. induction Hb as [|e0 before He0 _ IH]; intros i warnings.
  - cbn [app List.map length]. rewrite validate_entry_typed, He.
    cbn [length Nat.eqb N.of_nat]. now rewrite N.add_0_r.
  - cbn [app List.map]. rewrite validate_entry_typed.
    destruct (url e0) eqn:E; [contradiction|]. cbn [length Nat.eqb].
    rewrite IH. do 2 f_equal. lia.
Qed.

Lemma entry_warnings_none (i : N) (u : jsstring) :
  entry_warnings i u = []
  <-> includes u (js "..") = false /\ length u <= 2000.
Proof.
  unfold entry_warnings.
  destruct (includes u (js "..")); [split; [discriminate | now intros []]|].
  destruct (Nat.ltb_spec 2000 (length u)); cbn [app].
  - split; [discriminate | lia].
  - split; [now split | reflexivity].
Qed.

Lemma warnings_from_none (entries : list PrecacheEntry) (i : N) :
  warnings_from i entries = []
  <-> List.Forall (fun e => includes (url e) (js "..") = false
                            /\ length (url e) <= 2000) entries.
Proof.
  revert i. induction entries as [|e entries IH]; intros i.
  - split; [constructor | reflexivity].
  - cbn [warnings_from]. split.
    + intros H. apply app_eq_nil in H as [H1 H2]. constructor.
      * now apply (entry_warnings_none i).
      * now apply (IH (i + 1)%N).
    + intros H. inversion H as [|? ? He Hrest]; subst.
      apply (entry_warnings_none i) in He. apply (IH (i + 1)%N) in Hrest.
      now rewrite He, Hrest.
Qed.

(** On a manifest of the declared type, the only check of
    [validateManifest] that can fail is the one on the empty URL.  When no
    URL is empty the call returns, with no warning exactly when no URL
    holds [..] and none is longer than 2000 code units; otherwise it
    throws at the first entry whose URL is empty, and the warnings
    gathered before it are lost with it. *)
Theorem validateManifest_typed (entries : list PrecacheEntry) :
  (List.Forall (fun e => url e <> []) entries ->
   exists warnings,
     validateManifest (manifest_value entries) = Returned warnings
     /\ (warnings = []
         <-> List.Forall (fun e => includes (url e) (js "..") = false
                                   /\ length (url e) <= 2000) entries))
  /\ (forall before e after,
        entries = before ++ e :: after ->
        List.Forall (fun e => url e <> []) before -> url e = [] ->
        validateManifest (manifest_value entries)
        = Threw (must_have_url (N.of_nat (length before)))).
Proof.
  unfold validateManifest, manifest_value. split.
  - intros H. exists (warnings_from 0 entries). split.
    + now rewrite validate_entries_typed.
    + apply warnings_from_none.
  - intros before e after -> Hb He.
    now rewrite (validate_entries_empty_url _ before e after Hb He).
Qed.

Lemma validateManifest_typed_witness :
  (exists warnings,
     validateManifest (manifest_value example_manifest) = Returned warnings
     /\ (warnings = []
         <-> List.Forall (fun e => includes (url e) (js "..") = false
                                   /\ length (url e) <= 2000)
               example_manifest))
  /\ validateManifest
       (manifest_value
          [{| url := js "/a..b"; revision := None |};
           {| url := []; revision := None |}])
     = Threw (js "Manifest entry 1 must have a non-empty url").
Proof.
  split.
  - apply (proj1 (validateManifest_typed example_manifest)).
    repeat constructor; discriminate.
  - apply (proj2 (validateManifest_typed _)
             [{| url := js "/a..b"; revision := None |}]
             {| url := []; revision := None |} [] eq_refl).
    + repeat constructor; discriminate.
    + reflexivity.
Defined.

(** ** The manifest of the generator *)

Lemma applyURLPrefixModifications_nonempty (u : jsstring)
    (table : list (jsstring * jsstring)) :
  u <> [] -> List.Forall (fun kv => snd kv <> []) table ->
  applyURLPrefixModifications u table <> [].
Proof.
  intros Hu. induction 1 as [|[k v] table Hv _ IH]; [exact Hu|].
  cbn [applyURLPrefixModifications]. destruct (startsWith u k); [|exact IH].
  cbn [snd] in Hv. destruct v; [contradiction | discriminate].
Qed.

Lemma with_basePath_nonempty (opts : ManifestGeneratorOptions)
    (u : jsstring) :
  u <> [] -> with_basePath opts u <> [].
Proof.
  intros Hu. unfold with_basePath. destruct (_ && _); [|exact Hu].
  destruct (basePath opts); [exact Hu | discriminate].
Qed.

Lemma candidate_url_nonempty (fs : filesystem)
    (opts : ManifestGeneratorOptions) (c : candidate) :
  List.Forall (fun kv => snd kv <> []) (modifyURLPrefix opts) ->
  In c (candidates fs opts) -> fst c <> [].
Proof.
  intros Htable Hc. unfold candidates in Hc.
  rewrite !List.in_app_iff, !filter_map_In in Hc.
  destruct Hc as [(a & _ & Ha) | [(file & Hin & Ha) | (e & _ & Ha)]].
  - unfold build_candidate in Ha. destruct (_ && _); [discriminate|].
    destruct (matchesExclusion _ _); [discriminate|]. injection Ha as <-.
    cbn [fst]. unfold build_url.
    apply applyURLPrefixModifications_nonempty; [|exact Htable].
    apply with_basePath_nonempty. destruct a; [discriminate|].
    now destruct (startsWith _ _).
  - injection Ha as <-. cbn [fst]. unfold public_url.
    apply applyURLPrefixModifications_nonempty; [|exact Htable].
    apply with_basePath_nonempty. unfold public_files in Hin.
    destruct (stat_ok fs _); [|destruct Hin].
    destruct (isPathWithinProject _ _); [|destruct Hin].
    destruct (glob_files fs _ _) as [|files]; [destruct Hin|].
    unfold no_traversal in Hin. apply List.filter_In in Hin as [Hin _].
    apply List.in_map_iff in Hin as (f & <- & _). discriminate.
  - unfold additional_candidate in Ha.
    destruct (str_eqb_spec (url e) []) as [|Hne]; [discriminate|].
    destruct (hasPathTraversal _); [discriminate|]. injection Ha as <-.
    cbn [fst]. unfold additional_url.
    apply applyURLPrefixModifications_nonempty; [|exact Htable].
    destruct (startsWith _ _); [now apply with_basePath_nonempty | exact Hne].
Qed.

Lemma returned_urls_nonempty (fs : filesystem)
    (opts : ManifestGeneratorOptions) (w : world)
    (entries : list PrecacheEntry) :
  List.Forall (fun kv => snd kv <> []) (modifyURLPrefix opts) ->
  fst (generatePrecacheManifest fs opts w) = Returned entries ->
  List.Forall (fun e => url e <> []) entries.
Proof.
  intros Htable Hrun. apply returned_entries in Hrun.
  assert (Hsub : forall c, In c (first_occurrences (candidates fs opts)) ->
                           fst c <> []).
  { intros c Hc. apply (candidate_url_nonempty fs opts c Htable).
    exact (first_occurrences_from_subset _ _ _ Hc). }
  induction Hrun as [|c e cs es [He _] _ IH]; constructor.
  - rewrite He. apply Hsub. now left.
  - apply IH. intros c' Hc'. apply Hsub. now right.
Qed.

(** The project of the example, with an extra entry whose URL is the
    prefix that the rewrite table removes. *)
Definition example_options_emptied : ManifestGeneratorOptions :=
  {| buildDir := js "/proj/.next";
     publicDir := js "/proj/public";
     basePath := js "/app";
     publicExcludes := [];
     buildExcludes := [];
     additionalManifestEntries :=
       [{| url := js "https://cdn.example"; revision := None |}];
     modifyURLPrefix := [(js "https://cdn.example", [])];
     projectRoot := js "/proj" |}.

(** What the generator returns passes [validateManifest], provided no
    entry of [modifyURLPrefix] rewrites a prefix to the empty string.
    With such an entry the generator can return an entry whose URL is
    empty, which [validateManifest] refuses. *)
Theorem generated_manifest_is_valid (fs : filesystem)
    (opts : ManifestGeneratorOptions) (w : world)
    (entries : list PrecacheEntry) :
  (List.Forall (fun kv => snd kv <> []) (modifyURLPrefix opts) ->
   fst (generatePrecacheManifest fs opts w) = Returned entries ->
   exists warnings,
     validateManifest (manifest_value entries) = Returned warnings)
  /\ (exists emptied,
        fst (generatePrecacheManifest example_fs example_options_emptied
               initial_world) = Returned emptied
        /\ validateManifest (manifest_value emptied)
           = Threw (js "Manifest entry 2 must have a non-empty url")).
Proof.
  split.
  - intros Htable Hrun.
    pose proof (returned_urls_nonempty fs opts w entries Htable Hrun) as H.
    exists (warnings_from 0 entries). unfold validateManifest, manifest_value.
    now rewrite validate_entries_typed.
  - eexists. split; vm_compute; reflexivity.
Qed.

Lemma generated_manifest_is_valid_witness :
  exists warnings,
    validateManifest (manifest_value example_manifest) = Returned warnings.
Proof.
  apply (proj1 (generated_manifest_is_valid example_fs example_options
                  initial_world example_manifest));
    [constructor | vm_compute; reflexivity].
Defined.

(** ** Where the worker is written *)

Lemma path_join_absolute (cwd dest : jsstring) :
  startsWith cwd (js "/") = true ->
  startsWith (path_join [cwd; dest]) (js "/") = true.
Proof.
  intros Habs. destruct cwd as [|c cwd]; [discriminate|].
  assert (G : forall p, startsWith p (js "/") = true ->
                        startsWith (path_normalize p) (js "/") = true).
  { intros p Hp. rewrite (path_normalize_absolute p Hp).
    now destruct (join_with _ _). }
  unfold path_join. cbn [List.filter str_eqb negb].
  destruct dest as [|d dest]; cbn [str_eqb negb]; apply G; exact Habs.
Qed.

Lemma valid_filename_plain (sw : jsstring) :
  isValidFilename sw = true -> plain_segment sw.
Proof.
  intros H. pose proof (valid_filename_chars sw H) as Hall.
  apply valid_filename_shape in H as (_ & c & stem & -> & _ & _).
  repeat split.
  - destruct stem as [|? [|? ?]]; cbn; now rewrite ?andb_false_r.
  - destruct stem as [|? [|? ?]]; cbn; now rewrite ?andb_false_r.
  - apply List.Forall_forall. intros d Hd ->.
    rewrite List.forallb_forall in Hall. now specialize (Hall _ Hd).
Qed.

(** The worker is written into the destination directory under its own
    name: for an absolute working directory and a file name that
    [isValidFilename] accepts, [resolveSwDest] returns the normalised
    destination directory (less its trailing slash, if it has one), a
    slash, and the file name unchanged. *)
Theorem resolveSwDest_in_dest (dest sw cwd : jsstring) :
  startsWith cwd (js "/") = true -> isValidFilename sw = true ->
  let destDir :=
    if path_isAbsolute dest then dest else path_join [cwd; dest] in
  exists dir,
    resolveSwDest dest sw cwd = dir ++ js "/" ++ sw
    /\ (path_normalize destDir = dir
        \/ path_normalize destDir = dir ++ js "/").
Proof.
  intros Hcwd Hsw. unfold resolveSwDest. cbv zeta.
  set (destDir := if path_isAbsolute dest then dest else path_join [cwd; dest]).
  assert (Habs : startsWith destDir (js "/") = true).
  { unfold destDir. destruct (path_isAbsolute dest) eqn:E; [exact E|].
    now apply path_join_absolute. }
  clearbody destDir.
  destruct (valid_filename_plain sw Hsw) as (Hne & Hdot & Hdots & Hfree).
  assert (Hsw0 : sw <> []) by (intros ->; discriminate).
  assert (Hjoin : path_join [destDir; sw]
                  = path_normalize (destDir ++ c_slash :: sw)).
  { unfold path_join. destruct destDir as [|d destDir]; [discriminate|].
    destruct sw as [|x sw]; [contradiction | reflexivity]. }
  assert (Hfull : startsWith (destDir ++ c_slash :: sw) (js "/") = true).
  { destruct destDir; [discriminate | exact Habs]. }
  rewrite Hjoin, (path_normalize_absolute _ Hfull),
    (path_normalize_absolute _ Habs).
  rewrite split_on_app, (split_on_slash_free _ Hfree), normalize_segments_app.
  set (kept := normalize_segments false [] (split_on c_slash destDir)).
  cbn [normalize_segments]. rewrite Hne, Hdot, Hdots. cbn [orb rev].
  rewrite rev_involutive, join_with_last.
  assert (Hend : endsWith (destDir ++ c_slash :: sw) (js "/") = false).
  { change (destDir ++ c_slash :: sw) with (destDir ++ [c_slash] ++ sw).
    rewrite app_assoc, endsWith_app_nonempty; [|exact Hsw0|].
    - now apply slash_free_not_ending.
    - destruct sw; [contradiction | cbn [length]; lia]. }
  rewrite Hend. destruct kept as [|seg kept].
  - exists []. cbn [join_with app]. destruct sw; [contradiction|].
    split; [reflexivity | now right].
  - exists (js "/" ++ join_with (js "/") (seg :: kept)). split.
    + destruct (join_with (js "/") (seg :: kept) ++ js "/" ++ sw) eqn:E.
      * apply app_eq_nil in E as [_ E]. discriminate.
      * rewrite <- E. now rewrite <- !app_assoc.
    + destruct (join_with (js "/") (seg :: kept)) eqn:E; [now left|].
      destruct (endsWith destDir (js "/")); [right | left];
        now rewrite <- ?app_assoc.
Qed.

Lemma resolveSwDest_in_dest_witness :
  exists dir,
    resolveSwDest (js "public/") (js "sw.js") (js "/proj")
    = dir ++ js "/" ++ js "sw.js"
    /\ (path_normalize (path_join [js "/proj"; js "public/"]) = dir
        \/ path_normalize (path_join [js "/proj"; js "public/"])
           = dir ++ js "/").
Proof.
  apply (resolveSwDest_in_dest (js "public/") (js "sw.js") (js "/proj"));
    reflexivity.
Defined.

End CompileSW.
